(** * Pokemon TCG data API: ingestion pipeline and query engine

    A shallow embedding of [src/database.ts] (class [PokemonDatabase]), of the
    filter handler of [src/server-db.ts] and of the record types of
    [src/types.ts], with the properties of the specification stated and proved
    over it.

    Conventions of the embedding.
    - A JavaScript string is a [string] of bytes (its UTF-8 encoding); the
      separators the code splits on are ASCII, so splitting on bytes and on
      characters coincide.
    - A JavaScript number is an integer [Z]; [NaN] is [None] where it can
      arise ([parseInt]).  Fractional numbers are outside the model.
    - [undefined] is the [None] of an option; a value of type [any] is a
      [json].
    - A table is the list of its rows, a replaced row moving to the end (for
      the tables keyed by a text this is the rowid order); a full scan returns
      the rows in that order.
    - A TEXT cell written by [JSON.stringify] is a [JsonText]: the text is
      represented by the value it encodes, [JSON.parse] of it being that
      value.
    - The lines written to the console are left out, except for what
      evaluating them can throw. *)

From Stdlib Require Import ZArith List String Ascii Bool Lia DecimalString.
From Stdlib Require Import Permutation Sorted.
From Stdlib Require DecimalPos.
From stdpp Require Import base gmap strings list sorting.
Import ListNotations.

Local Open Scope string_scope.
Local Open Scope Z_scope.

(** ** JavaScript values and built-ins used by the code *)

Module JS.

(** A value of type [any] that came out of [JSON.parse]. *)
#[warnings="-register-all"]
Inductive json : Type :=
| JNull
| JBool (b : bool)
| JNum (n : Z)
| JStr (s : string)
| JArr (items : list json)
| JObj (fields : list (string * json)).

Inductive error : Type :=
| IOError          (* fs.readFileSync failed *)
| SyntaxError      (* JSON.parse / response.json() failed *)
| TypeError        (* property of undefined, not iterable, bad bind value *)
| NetworkError     (* fetch rejected *)
| SqliteError (msg : string).

(** The result of evaluating an expression or statement: a value, or a thrown
    exception. *)
Inductive outcome (A : Type) : Type :=
| Returned (a : A)
| Thrown (e : error).
Arguments Returned {A} a.
Arguments Thrown {A} e.

Definition obind {A B} (o : outcome A) (k : A -> outcome B) : outcome B :=
  match o with
  | Returned a => k a
  | Thrown e => Thrown e
  end.

Definition omap {A B} (f : A -> B) (o : outcome A) : outcome B :=
  obind o (fun a => Returned (f a)).

(** Evaluates a list of argument expressions left to right. *)
Fixpoint sequence {A} (l : list (outcome A)) : outcome (list A) :=
  match l with
  | [] => Returned []
  | o :: rest =>
      obind o (fun a => obind (sequence rest) (fun r => Returned (a :: r)))
  end.

(** [String(n)] for an integer. *)
Definition String_of_number (n : Z) : string :=
  NilZero.string_of_int (Z.to_int n).

(** [s.split(sep)] for a one-character separator: never the empty array. *)
Fixpoint split (sep : ascii) (s : string) : list string :=
  match s with
  | EmptyString => [EmptyString]
  | String c rest =>
      if Ascii.eqb c sep then EmptyString :: split sep rest
      else match split sep rest with
           | hd :: tl => String c hd :: tl
           | [] => [String c EmptyString]
           end
  end.

(** [a[0]]: [undefined] on the empty array. *)
Definition first {A} (a : list A) : option A :=
  match a with
  | [] => None
  | x :: _ => Some x
  end.

(** [a.slice(start, end)] with the relative (negative) indices of
    Array.prototype.slice. *)
Definition slice {A} (start stop : Z) (a : list A) : list A :=
  let len := Z.of_nat (List.length a) in
  let k := if start <? 0 then Z.max (len + start) 0 else Z.min start len in
  let final := if stop <? 0 then Z.max (len + stop) 0 else Z.min stop len in
  firstn (Z.to_nat (final - k)) (skipn (Z.to_nat k) a).

(** The byte sequences of the characters [trim] and [parseInt] skip
    (WhiteSpace and LineTerminator of ECMAScript, UTF-8 encoded). *)
Definition whitespace : list (list nat) :=
  [ [9]; [10]; [11]; [12]; [13]; [32]; [194; 160]; [225; 154; 128];
    [226; 128; 128]; [226; 128; 129]; [226; 128; 130]; [226; 128; 131];
    [226; 128; 132]; [226; 128; 133]; [226; 128; 134]; [226; 128; 135];
    [226; 128; 136]; [226; 128; 137]; [226; 128; 138]; [226; 128; 168];
    [226; 128; 169]; [226; 128; 175]; [226; 129; 159]; [227; 128; 128];
    [239; 187; 191] ]%nat.

Fixpoint strip_prefix (p : list nat) (s : list ascii) : option (list ascii) :=
  match p, s with
  | [], _ => Some s
  | b :: p', c :: s' =>
      if Nat.eqb b (nat_of_ascii c) then strip_prefix p' s' else None
  | _ :: _, [] => None
  end.

Fixpoint strip_one (ws : list (list nat)) (s : list ascii)
  : option (list ascii) :=
  match ws with
  | [] => None
  | p :: rest =>
      match strip_prefix p s with
      | Some s' => Some s'
      | None => strip_one rest s
      end
  end.

Fixpoint strip_leading (fuel : nat) (ws : list (list nat)) (s : list ascii)
  : list ascii :=
  match fuel with
  | O => s
  | S fuel' =>
      match strip_one ws s with
      | Some s' => strip_leading fuel' ws s'
      | None => s
      end
  end.

Definition trimStart_chars (s : list ascii) : list ascii :=
  strip_leading (List.length s) whitespace s.

Definition trimEnd_chars (s : list ascii) : list ascii :=
  rev (strip_leading (List.length s) (List.map (@rev nat) whitespace) (rev s)).

(** [s.trim()]. *)
Definition trim (s : string) : string :=
  string_of_list_ascii
    (trimEnd_chars (trimStart_chars (list_ascii_of_string s))).

(** Value of a digit in the given radix, if it is one. *)
Definition digit_value (radix : Z) (c : ascii) : option Z :=
  let n := Z.of_nat (nat_of_ascii c) in
  let v := if (48 <=? n) && (n <=? 57) then Some (n - 48)
           else if (97 <=? n) && (n <=? 122) then Some (n - 87)
           else if (65 <=? n) && (n <=? 90) then Some (n - 55)
           else None in
  match v with
  | Some d => if d <? radix then Some d else None
  | None => None
  end.

(** Reads the longest prefix of digits; [None] when there is no digit. *)
Fixpoint read_digits (radix : Z) (acc : option Z) (s : list ascii)
  : option Z :=
  match s with
  | [] => acc
  | c :: rest =>
      match digit_value radix c with
      | Some d =>
          read_digits radix
            (Some (match acc with Some a => a * radix + d | None => d end))
            rest
      | None => acc
      end
  end.

Definition strip_hex_prefix (s : list ascii) : option (list ascii) :=
  match s with
  | "0"%char :: "x"%char :: rest => Some rest
  | "0"%char :: "X"%char :: rest => Some rest
  | _ => None
  end.

(** [parseInt(s)] without a radix argument; [None] is [NaN]. *)
Definition parseInt_string (s : string) : option Z :=
  let s1 := trimStart_chars (list_ascii_of_string s) in
  let '(sign, s2) :=
    match s1 with
    | "-"%char :: rest => (-1, rest)
    | "+"%char :: rest => (1, rest)
    | _ => (1, s1)
    end in
  let '(radix, s3) :=
    match strip_hex_prefix s2 with
    | Some rest => (16, rest)
    | None => (10, s2)
    end in
  match read_digits radix None s3 with
  | Some n => Some (sign * n)
  | None => None
  end.

(** [parseInt(x)] where [x] may be [undefined]: [String(undefined)] has no
    digit. *)
Definition parseInt (x : option string) : option Z :=
  match x with
  | Some s => parseInt_string s
  | None => None
  end.

(** ToBoolean. *)
Definition truthy (v : json) : bool :=
  match v with
  | JNull => false
  | JBool b => b
  | JNum n => negb (n =? 0)
  | JStr s => negb (String.eqb s "")
  | JArr _ | JObj _ => true
  end.

Definition truthy_opt (v : option json) : bool :=
  match v with
  | Some x => truthy x
  | None => false
  end.

(** ToBoolean of an optional string: [undefined] and [""] are falsy. *)
Definition truthy_str (s : option string) : bool :=
  match s with
  | Some x => negb (String.eqb x "")
  | None => false
  end.

(** [a || b] on values of type [any]. *)
Definition or_else (a : option json) (b : json) : json :=
  match a with
  | Some x => if truthy x then x else b
  | None => b
  end.

(** [a || b] where [b] may itself be [undefined]. *)
Definition or_opt (a b : option json) : option json :=
  if truthy_opt a then a else b.

(** [a || b] where [a] is a string when present. *)
Definition str_or_else (a : option string) (b : string) : string :=
  match a with
  | Some x => if String.eqb x "" then b else x
  | None => b
  end.

(** [a || []] where [a] is an array when present: arrays are truthy. *)
Definition arr_or_empty {A} (a : option (list A)) : list A :=
  match a with
  | Some l => l
  | None => []
  end.

Fixpoint lookup_field {V} (k : string) (fields : list (string * V))
  : option V :=
  match fields with
  | [] => None
  | (k', v) :: rest => if String.eqb k k' then Some v else lookup_field k rest
  end.

(** [o.k] for [o] of type [any]: throws on [undefined] and [null]. *)
Definition prop (k : string) (o : option json) : outcome (option json) :=
  match o with
  | None | Some JNull => Thrown TypeError
  | Some (JObj fields) => Returned (lookup_field k fields)
  | Some (JArr items) =>
      if String.eqb k "length"
      then Returned (Some (JNum (Z.of_nat (List.length items))))
      else Returned None
  | Some (JStr s) =>
      if String.eqb k "length"
      then Returned (Some (JNum (Z.of_nat (String.length s))))
      else Returned None
  | Some _ => Returned None
  end.

(** [o?.k]. *)
Definition opt_prop (k : string) (o : option json) : outcome (option json) :=
  match o with
  | None | Some JNull => Returned None
  | _ => prop k o
  end.

(** The values [for (const x of v)] iterates over; a string iterates over its
    characters (here: bytes; the loops of the code throw on the first of
    them), anything else but an array is not iterable. *)
Definition iterate (v : option json) : outcome (list json) :=
  match v with
  | Some (JArr items) => Returned items
  | Some (JStr s) =>
      Returned (List.map (fun c => JStr (String c EmptyString))
                         (list_ascii_of_string s))
  | _ => Thrown TypeError
  end.

(** [v.split(sep)] for [v] of type [any]: only a string has the method. *)
Definition split_any (sep : ascii) (v : option json) : outcome (list string) :=
  match v with
  | Some (JStr s) => Returned (split sep s)
  | _ => Thrown TypeError
  end.

End JS.
Import JS.

(** ** The relational store *)

(** A TEXT cell holding the JSON encoding of a value: [JSON_stringify v] is
    the text, [JSON_parse] reads it back. *)
Record JsonText (A : Type) : Type := JSON_stringify { JSON_parse : A }.
Arguments JSON_stringify {A} _.
Arguments JSON_parse {A} _.

(** [JSON.stringify(x)] where [x] may be [undefined]: the result is then
    [undefined], which binds as NULL. *)
Definition JSON_stringify_opt {A} (x : option A) : option (JsonText A) :=
  match x with
  | Some v => Some (JSON_stringify v)
  | None => None
  end.

(** The text itself, for a list of numbers: what SQL compares and orders. *)
Definition text_of_numbers (t : JsonText (list Z)) : string :=
  "[" ++ String.concat "," (List.map String_of_number (JSON_parse t)) ++ "]".

(** A stored scalar. *)
Inductive sqlval : Type :=
| SqlNull
| SqlInteger (n : Z)
| SqlText (s : string).

Inductive affinity : Type := TEXT | INTEGER | REAL | BOOLEAN.

(** The text an INTEGER-affinity column converts to a number: an optional sign
    followed by digits only. *)
Definition integer_literal (s : string) : option Z :=
  let cs := list_ascii_of_string s in
  let '(sign, ds) :=
    match cs with
    | "-"%char :: rest => (-1, rest)
    | "+"%char :: rest => (1, rest)
    | _ => (1, cs)
    end in
  if forallb (fun c => match digit_value 10 c with
                       | Some _ => true
                       | None => false
                       end) ds
  then match read_digits 10 None ds with
       | Some n => Some (sign * n)
       | None => None
       end
  else None.

(** Column affinity applied to a value on storage: a TEXT column keeps a
    number as its decimal text, a numeric column turns the text of an integer
    into the integer. *)
Definition apply_affinity (a : affinity) (v : sqlval) : sqlval :=
  match a, v with
  | TEXT, SqlInteger n => SqlText (String_of_number n)
  | (INTEGER | REAL | BOOLEAN), SqlText s =>
      match integer_literal s with
      | Some n => SqlInteger n
      | None => SqlText s
      end
  | _, _ => v
  end.

(** Binding a JavaScript value as a statement parameter: [undefined] and
    [null] bind NULL, numbers and strings bind themselves, anything else is
    refused by the driver. *)
Definition bind_param (v : option json) : outcome sqlval :=
  match v with
  | None | Some JNull => Returned SqlNull
  | Some (JNum n) => Returned (SqlInteger n)
  | Some (JStr s) => Returned (SqlText s)
  | Some (JBool _) | Some (JArr _) | Some (JObj _) => Thrown TypeError
  end.

(** A number that may be [NaN]: [NaN] is stored as NULL. *)
Definition bind_number (n : option Z) : sqlval :=
  match n with
  | Some x => SqlInteger x
  | None => SqlNull
  end.

(** A cell of a table the code only writes: a scalar, or the text of
    [JSON.stringify]. *)
Inductive cell : Type :=
| Scalar (v : sqlval)
| JsonCell (t : JsonText json).

Definition store_cell (a : affinity) (c : cell) : cell :=
  match c with
  | Scalar v => Scalar (apply_affinity a v)
  | JsonCell t => JsonCell t
  end.

(** What a TEXT column of a typed row holds after storage. *)
Definition as_text (v : sqlval) : option string :=
  match apply_affinity TEXT v with
  | SqlText s => Some s
  | _ => None
  end.

(** SQL equality on TEXT cells: NULL equals nothing. *)
Definition text_eq (a b : option string) : bool :=
  match a, b with
  | Some x, Some y => String.eqb x y
  | _, _ => false
  end.

Definition sql_eq (a b : sqlval) : bool :=
  match a, b with
  | SqlInteger x, SqlInteger y => x =? y
  | SqlText x, SqlText y => String.eqb x y
  | _, _ => false
  end.

Module SetRow.
Record t : Type := mk {
  id : option string;
  name : option string;
  series : option string;
  printedTotal : sqlval;
  total : sqlval;
  legalities : option (JsonText json);
  ptcgoCode : option string;
  releaseDate : option string;
  updatedAt : option string;
  images : option (JsonText json);
  year : option string
}.
End SetRow.

Module CardRow.
Record t : Type := mk {
  id : option string;
  name : option string;
  supertype : option string;
  subtypes : option (JsonText (list string));
  level : option string;
  hp : option string;
  types : option (JsonText (list string));
  evolvesFrom : option string;
  evolvesTo : option (JsonText json);
  abilities : option (JsonText json);
  attacks : option (JsonText json);
  weaknesses : option (JsonText json);
  resistances : option (JsonText json);
  retreatCost : option (JsonText json);
  convertedRetreatCost : sqlval;
  number : option string;
  artist : option string;
  rarity : option string;
  flavorText : option string;
  nationalPokedexNumbers : option (JsonText (list Z));
  legalities : option (JsonText json);
  images : option (JsonText json);
  rules : option (JsonText json);
  setId : option string
}.
End CardRow.

(** A row of a table that is only written by the migration: its cells in
    column order. *)
Definition Row : Type := list cell.

(** The database file: one list of rows per table of [initializeSchema]. *)
Record Db : Type := mkDb {
  pokemon_types : list Row;
  pokemon_moves : list Row;
  pokemon_abilities : list Row;
  pokemon_species : list Row;
  pokedexes : list Row;
  pokedex_entries : list Row;
  sets : list SetRow.t;
  cards : list CardRow.t;
  decks : list Row
}.

Definition empty_db : Db := mkDb [] [] [] [] [] [] [] [] [].

(** ** Source records ([src/types.ts]) *)

(** [PokemonSet], also exported as [SetInfo].  The declared fields carry their
    declared type when present; [extra] is the index signature
    [[key: string]: any]. *)
Module SetInfo.
Record t : Type := mk {
  id : option string;
  name : option string;
  series : option string;
  year : option string;
  releaseDate : option string;
  extra : list (string * json)
}.
End SetInfo.

Module PokemonCard.
Record t : Type := mk {
  id : option string;
  name : option string;
  types : option (list string);
  subtypes : option (list string);
  rarity : option string;
  set : option SetInfo.t;
  nationalPokedexNumbers : option (list Z);
  extra : list (string * json)
}.
End PokemonCard.

(** [PokemonByPokedex]: one group of [getPokemonGrouped]. *)
Module PokemonByPokedex.
Record t : Type := mk {
  nationalPokedexNumber : Z;
  name : option string;
  cards : list PokemonCard.t
}.
End PokemonByPokedex.

(** ** The world outside the process *)

(** [JSON.parse(fs.readFileSync(f, "utf8"))] for one file. *)
Inductive file (A : Type) : Type :=
| Unreadable
| NotJson
| Parsed (content : A).
Arguments Unreadable {A}.
Arguments NotJson {A}.
Arguments Parsed {A} content.

(** [await fetch(url)] followed by [await response.json()]. *)
Inductive response : Type :=
| FetchRejected
| BodyMalformed
| Body (payload : json).

(** The source data of one migration run: the files the three globs match,
    with their content, and what each request returns. *)
Record Env : Type := mkEnv {
  setFiles : list (file (list SetInfo.t));
  cardFiles : list (file (list PokemonCard.t));
  deckFiles : list (string * file json);
  fetch_types : response;
  fetch_moves : response;
  fetch_abilities : response;
  fetch_species : response;
  fetch_pokedex_list : response;
  fetch_pokedex : option json -> response
}.

Definition read_file {A} (f : file A) : outcome A :=
  match f with
  | Unreadable => Thrown IOError
  | NotJson => Thrown SyntaxError
  | Parsed c => Returned c
  end.

(** [files.flatMap(f => JSON.parse(fs.readFileSync(f, "utf8")))]. *)
Fixpoint flatMap_files {A} (files : list (file (list A))) : outcome (list A) :=
  match files with
  | [] => Returned []
  | f :: rest =>
      obind (read_file f) (fun c =>
      obind (flatMap_files rest) (fun r => Returned (c ++ r)%list))
  end.

Definition await_json (r : response) : outcome json :=
  match r with
  | FetchRejected => Thrown NetworkError
  | BodyMalformed => Thrown SyntaxError
  | Body p => Returned p
  end.

(** [path.basename(p, ext)] for a path that does not end in a slash. *)
Definition basename (p ext : string) : string :=
  let name := List.last (split "/" p) "" in
  let n := String.length name in
  let m := String.length ext in
  if (m <? n)%nat && String.eqb (substring (n - m) m name) ext
  then substring 0 (n - m) name
  else name.

(** ** Statements over the store: state and exceptions *)

Definition M (A : Type) : Type := Db -> Db * outcome A.

Definition ret {A} (a : A) : M A := fun db => (db, Returned a).

Definition bind {A B} (m : M A) (k : A -> M B) : M B :=
  fun db =>
    match m db with
    | (db', Returned a) => k a db'
    | (db', Thrown e) => (db', Thrown e)
    end.

(** An expression evaluated inside a statement. *)
Definition lift {A} (o : outcome A) : M A := fun db => (db, o).

Notation "x <- c1 ;; c2" := (bind c1 (fun x => c2))
  (at level 100, c1 at next level, right associativity).
Notation "c1 ;; c2" := (bind c1 (fun _ => c2))
  (at level 100, right associativity).

(** [try { m } catch (error) { h }]. *)
Definition try_catch {A} (m : M A) (h : M A) : M A :=
  fun db =>
    match m db with
    | (db', Returned a) => (db', Returned a)
    | (db', Thrown _) => h db'
    end.

(** [this.db.transaction(fn)(args)]: the writes of [fn] are committed when it
    returns and rolled back when it throws; the exception propagates. *)
Definition transaction {A} (m : M A) : M A :=
  fun db =>
    match m db with
    | (db', Returned a) => (db', Returned a)
    | (_, Thrown e) => (db, Thrown e)
    end.

(** [for (const x of xs) { body }]. *)
Fixpoint for_of {X} (xs : list X) (body : X -> M unit) : M unit :=
  match xs with
  | [] => ret tt
  | x :: rest => body x ;; for_of rest body
  end.

Definition with_pokemon_types (v : list Row) (db : Db) : Db :=
  mkDb v (pokemon_moves db) (pokemon_abilities db) (pokemon_species db)
       (pokedexes db) (pokedex_entries db) (sets db) (cards db) (decks db).
Definition with_pokemon_moves (v : list Row) (db : Db) : Db :=
  mkDb (pokemon_types db) v (pokemon_abilities db) (pokemon_species db)
       (pokedexes db) (pokedex_entries db) (sets db) (cards db) (decks db).
Definition with_pokemon_abilities (v : list Row) (db : Db) : Db :=
  mkDb (pokemon_types db) (pokemon_moves db) v (pokemon_species db)
       (pokedexes db) (pokedex_entries db) (sets db) (cards db) (decks db).
Definition with_pokemon_species (v : list Row) (db : Db) : Db :=
  mkDb (pokemon_types db) (pokemon_moves db) (pokemon_abilities db) v
       (pokedexes db) (pokedex_entries db) (sets db) (cards db) (decks db).
Definition with_pokedexes (v : list Row) (db : Db) : Db :=
  mkDb (pokemon_types db) (pokemon_moves db) (pokemon_abilities db)
       (pokemon_species db) v (pokedex_entries db) (sets db) (cards db)
       (decks db).
Definition with_pokedex_entries (v : list Row) (db : Db) : Db :=
  mkDb (pokemon_types db) (pokemon_moves db) (pokemon_abilities db)
       (pokemon_species db) (pokedexes db) v (sets db) (cards db) (decks db).
Definition with_sets (v : list SetRow.t) (db : Db) : Db :=
  mkDb (pokemon_types db) (pokemon_moves db) (pokemon_abilities db)
       (pokemon_species db) (pokedexes db) (pokedex_entries db) v (cards db)
       (decks db).
Definition with_cards (v : list CardRow.t) (db : Db) : Db :=
  mkDb (pokemon_types db) (pokemon_moves db) (pokemon_abilities db)
       (pokemon_species db) (pokedexes db) (pokedex_entries db) (sets db) v
       (decks db).
Definition with_decks (v : list Row) (db : Db) : Db :=
  mkDb (pokemon_types db) (pokemon_moves db) (pokemon_abilities db)
       (pokemon_species db) (pokedexes db) (pokedex_entries db) (sets db)
       (cards db) v.

(** ** Prepared statements: [INSERT OR REPLACE] *)

(** The columns of a table the statement fills, each with its affinity and
    whether it is NOT NULL; the first one is the primary key.
    [integer_key] says the key is an INTEGER PRIMARY KEY (the rowid). *)
Record Schema : Type := mkSchema {
  columns : list (affinity * bool);
  integer_key : bool
}.

Definition key (r : Row) : sqlval :=
  match r with
  | Scalar v :: _ => v
  | _ => SqlNull
  end.

(** The rowid SQLite picks for a NULL integer key: one more than the
    largest in use. *)
Definition next_rowid (tbl : list Row) : Z :=
  1 + fold_right (fun r m => match key r with
                            | SqlInteger n => Z.max n m
                            | _ => m
                            end) 0 tbl.

(** Values converted by column affinity; a NULL in a NOT NULL column is a
    constraint failure (REPLACE resolves it as ABORT: no default exists). *)
Fixpoint store_cells (cols : list (affinity * bool)) (args : list cell)
  : outcome Row :=
  match cols, args with
  | [], [] => Returned []
  | (a, notnull) :: cols', v :: args' =>
      match store_cell a v, notnull with
      | Scalar SqlNull, true =>
          Thrown (SqliteError "NOT NULL constraint failed")
      | v', _ => obind (store_cells cols' args') (fun r => Returned (v' :: r))
      end
  | _, _ => Thrown (SqliteError "wrong number of parameter values")
  end.

Definition assign_key (sch : Schema) (tbl : list Row) (r : Row)
  : outcome Row :=
  if integer_key sch then
    match r with
    | Scalar SqlNull :: rest =>
        Returned (Scalar (SqlInteger (next_rowid tbl)) :: rest)
    | Scalar (SqlInteger _) :: _ => Returned r
    | _ => Thrown (SqliteError "datatype mismatch")
    end
  else Returned r.

(** REPLACE: the rows in conflict on the primary key are deleted, the new row
    is added.  NULL keys conflict with nothing. *)
Definition replace_row (r : Row) (tbl : list Row) : list Row :=
  (List.filter (fun old => negb (sql_eq (key old) (key r))) tbl ++ [r])%list.

(** [stmt.run(args)] for an [INSERT OR REPLACE] into the table [get]/[put]:
    the argument expressions are evaluated, the values stored and the
    foreign key [fk] checked on the stored row. *)
Definition run_insert (sch : Schema) (get : Db -> list Row)
  (put : list Row -> Db -> Db) (fk : Db -> Row -> bool)
  (args : list (outcome cell)) : M unit :=
  fun db =>
    match obind (sequence args) (fun vals =>
          obind (store_cells (columns sch) vals) (assign_key sch (get db)))
    with
    | Thrown e => (db, Thrown e)
    | Returned r =>
        if fk db r then (put (replace_row r (get db)) db, Returned tt)
        else (db, Thrown (SqliteError "FOREIGN KEY constraint failed"))
    end.

Definition no_fk (_ : Db) (_ : Row) : bool := true.

(** An argument of type [any] read off an object: [o.k]. *)
Definition arg (k : string) (o : json) : outcome cell :=
  obind (prop k (Some o)) (fun v => omap Scalar (bind_param v)).

(** [o.k ? 1 : 0]. *)
Definition flag (k : string) (o : json) : outcome cell :=
  omap (fun v => Scalar (SqlInteger (if truthy_opt v then 1 else 0)))
       (prop k (Some o)).

(** [JSON.stringify(o.k || dflt)]. *)
Definition blob (k : string) (dflt : json) (o : json) : outcome cell :=
  omap (fun v => JsonCell (JSON_stringify (or_else v dflt))) (prop k (Some o)).

Definition pokemon_types_schema : Schema :=
  mkSchema [(TEXT, false); (TEXT, true); (TEXT, false); (BOOLEAN, false)] false.

Definition pokemon_moves_schema : Schema :=
  mkSchema [(TEXT, false); (TEXT, true); (TEXT, false); (INTEGER, false);
            (TEXT, false); (TEXT, false); (TEXT, false); (INTEGER, false);
            (INTEGER, false); (INTEGER, false); (TEXT, false);
            (INTEGER, false); (BOOLEAN, false); (BOOLEAN, false)] false.

Definition pokemon_abilities_schema : Schema :=
  mkSchema [(TEXT, false); (TEXT, true); (TEXT, false); (TEXT, false);
            (INTEGER, false)] false.

Definition pokemon_species_schema : Schema :=
  mkSchema [(INTEGER, false); (TEXT, true); (TEXT, false); (TEXT, false);
            (TEXT, false); (TEXT, false); (REAL, false); (REAL, false);
            (INTEGER, false); (TEXT, false)] true.

Definition pokedexes_schema : Schema :=
  mkSchema [(INTEGER, false); (TEXT, true); (TEXT, false); (TEXT, false);
            (BOOLEAN, false); (TEXT, false)] true.

(** [pokedex_entries]: the key [id] is AUTOINCREMENT and the statement
    leaves it out, so it is always NULL on insertion. *)
Definition pokedex_entries_schema : Schema :=
  mkSchema [(INTEGER, false); (INTEGER, false); (INTEGER, false);
            (INTEGER, false); (TEXT, false)] true.

Definition decks_schema : Schema :=
  mkSchema [(TEXT, false); (TEXT, true); (TEXT, false); (TEXT, false)] false.

(** FOREIGN KEY (pokedexId) REFERENCES pokedexes(id): the second cell. *)
Definition entry_fk (db : Db) (r : Row) : bool :=
  match r with
  | _ :: Scalar SqlNull :: _ => true
  | _ :: Scalar v :: _ => existsb (fun p => sql_eq (key p) v) (pokedexes db)
  | _ => true
  end.

(** FOREIGN KEY (setId) REFERENCES sets(id) of [decks]: the third cell. *)
Definition deck_fk (db : Db) (r : Row) : bool :=
  match r with
  | _ :: _ :: Scalar SqlNull :: _ => true
  | _ :: _ :: Scalar (SqlText s) :: _ =>
      existsb (fun x => text_eq (SetRow.id x) (Some s)) (sets db)
  | _ :: _ :: Scalar (SqlInteger _) :: _ => false
  | _ => true
  end.

Definition insertType_run : list (outcome cell) -> M unit :=
  run_insert pokemon_types_schema pokemon_types with_pokemon_types no_fk.
Definition insertMove_run : list (outcome cell) -> M unit :=
  run_insert pokemon_moves_schema pokemon_moves with_pokemon_moves no_fk.
Definition insertAbility_run : list (outcome cell) -> M unit :=
  run_insert pokemon_abilities_schema pokemon_abilities
             with_pokemon_abilities no_fk.
Definition insertSpecies_run : list (outcome cell) -> M unit :=
  run_insert pokemon_species_schema pokemon_species with_pokemon_species no_fk.
Definition insertPokedex_run : list (outcome cell) -> M unit :=
  run_insert pokedexes_schema pokedexes with_pokedexes no_fk.
Definition insertEntry_run (args : list (outcome cell)) : M unit :=
  run_insert pokedex_entries_schema pokedex_entries with_pokedex_entries
             entry_fk (Returned (Scalar SqlNull) :: args).
Definition insertDeck_run : list (outcome cell) -> M unit :=
  run_insert decks_schema decks with_decks deck_fk.

(** A TEXT cell of a typed row bound from a value of type [any]. *)
Definition text_cell (v : option json) : outcome (option string) :=
  omap as_text (bind_param v).

(** An INTEGER cell of a typed row bound from a value of type [any]. *)
Definition integer_cell (v : option json) : outcome sqlval :=
  omap (apply_affinity INTEGER) (bind_param v).

(** [insertSet.run(...)]: the eleven parameters in the order of the call.
    [name] is NOT NULL; the key [id] replaces the row in conflict. *)
Definition insertSet_run (id name series : option string)
  (printedTotal total : option json) (legalities : option (JsonText json))
  (ptcgoCode : option json) (releaseDate : option string)
  (updatedAt : option json) (images : option (JsonText json))
  (year : option string) : M unit :=
  fun db =>
    match
      obind (integer_cell printedTotal) (fun printedTotal' =>
      obind (integer_cell total) (fun total' =>
      obind (text_cell ptcgoCode) (fun ptcgoCode' =>
      obind (text_cell updatedAt) (fun updatedAt' =>
      Returned (SetRow.mk id name series printedTotal' total' legalities
                          ptcgoCode' releaseDate updatedAt' images year)))))
    with
    | Thrown e => (db, Thrown e)
    | Returned row =>
        match name with
        | None =>
            (db, Thrown (SqliteError "NOT NULL constraint failed: sets.name"))
        | Some _ =>
            (with_sets
               (List.filter (fun old => negb (text_eq (SetRow.id old) id))
                            (sets db) ++ [row])%list db,
             Returned tt)
        end
    end.

(** Line 194: [set.releaseDate ? set.releaseDate.split("/")[0] : null]. *)
Definition deriveYear (releaseDate : option string) : option string :=
  if truthy_str releaseDate
  then match releaseDate with
       | Some d => first (split "/" d)
       | None => None
       end
  else None.

(** The body of the loop of [insertSets], for one set. *)
Definition insertSets_body (set : SetInfo.t) : M unit :=
  let year := deriveYear (SetInfo.releaseDate set) in
  insertSet_run
    (SetInfo.id set)
    (SetInfo.name set)
    (SetInfo.series set)
    (lookup_field "printedTotal" (SetInfo.extra set))
    (lookup_field "total" (SetInfo.extra set))
    (JSON_stringify_opt (lookup_field "legalities" (SetInfo.extra set)))
    (lookup_field "ptcgoCode" (SetInfo.extra set))
    (SetInfo.releaseDate set)
    (lookup_field "updatedAt" (SetInfo.extra set))
    (JSON_stringify_opt (lookup_field "images" (SetInfo.extra set)))
    year.

Definition insertSets (sets : list SetInfo.t) : M unit :=
  transaction (for_of sets insertSets_body).

Definition migrateSets (env : Env) : M unit :=
  sets <- lift (flatMap_files (setFiles env)) ;;
  insertSets sets.

(** [insertCard.run(...)]: the twenty-four parameters in the order of the
    call.  [name] is NOT NULL and [setId] references [sets(id)]. *)
Definition insertCard_run (id name : option string) (supertype : option json)
  (subtypes : option (JsonText (list string))) (level hp : option json)
  (types : option (JsonText (list string))) (evolvesFrom : option json)
  (evolvesTo abilities attacks weaknesses resistances retreatCost
     : option (JsonText json))
  (convertedRetreatCost number artist : option json) (rarity : option string)
  (flavorText : option json)
  (nationalPokedexNumbers : option (JsonText (list Z)))
  (legalities images rules : option (JsonText json))
  (setId : option string) : M unit :=
  fun db =>
    match
      obind (text_cell supertype) (fun supertype' =>
      obind (text_cell level) (fun level' =>
      obind (text_cell hp) (fun hp' =>
      obind (text_cell evolvesFrom) (fun evolvesFrom' =>
      obind (integer_cell convertedRetreatCost) (fun convertedRetreatCost' =>
      obind (text_cell number) (fun number' =>
      obind (text_cell artist) (fun artist' =>
      obind (text_cell flavorText) (fun flavorText' =>
      Returned (CardRow.mk id name supertype' subtypes level' hp' types
                  evolvesFrom' evolvesTo abilities attacks weaknesses
                  resistances retreatCost convertedRetreatCost' number'
                  artist' rarity flavorText' nationalPokedexNumbers
                  legalities images rules setId)))))))))
    with
    | Thrown e => (db, Thrown e)
    | Returned row =>
        match name with
        | None =>
            (db,
             Thrown (SqliteError "NOT NULL constraint failed: cards.name"))
        | Some _ =>
            if match setId with
               | None => true
               | Some _ =>
                   existsb (fun s => text_eq (SetRow.id s) setId) (sets db)
               end
            then
              (with_cards
                 (List.filter (fun old => negb (text_eq (CardRow.id old) id))
                              (cards db) ++ [row])%list db,
               Returned tt)
            else (db, Thrown (SqliteError "FOREIGN KEY constraint failed"))
        end
    end.

(** Lines 235-238:
    [let setId = card.set?.id;
     if (!setId && card.id) { setId = card.id.split("-")[0]; }] *)
Definition deriveSetId (card : PokemonCard.t) : option string :=
  let setId := match PokemonCard.set card with
               | Some s => SetInfo.id s
               | None => None
               end in
  if negb (truthy_str setId) && truthy_str (PokemonCard.id card)
  then match PokemonCard.id card with
       | Some i => first (split "-" i)
       | None => setId
       end
  else setId.

(** [JSON.stringify(card.k || [])] for a property read through the index
    signature. *)
Definition stringify_or_empty (k : string) (card : PokemonCard.t)
  : option (JsonText json) :=
  Some (JSON_stringify (or_else (lookup_field k (PokemonCard.extra card))
                                (JArr []))).

(** The body of the loop of [insertCards], for one card. *)
Definition insertCards_body (card : PokemonCard.t) : M unit :=
  let setId := deriveSetId card in
  insertCard_run
    (PokemonCard.id card)
    (PokemonCard.name card)
    (lookup_field "supertype" (PokemonCard.extra card))
    (Some (JSON_stringify (arr_or_empty (PokemonCard.subtypes card))))
    (lookup_field "level" (PokemonCard.extra card))
    (lookup_field "hp" (PokemonCard.extra card))
    (Some (JSON_stringify (arr_or_empty (PokemonCard.types card))))
    (lookup_field "evolvesFrom" (PokemonCard.extra card))
    (stringify_or_empty "evolvesTo" card)
    (stringify_or_empty "abilities" card)
    (stringify_or_empty "attacks" card)
    (stringify_or_empty "weaknesses" card)
    (stringify_or_empty "resistances" card)
    (stringify_or_empty "retreatCost" card)
    (lookup_field "convertedRetreatCost" (PokemonCard.extra card))
    (lookup_field "number" (PokemonCard.extra card))
    (lookup_field "artist" (PokemonCard.extra card))
    (PokemonCard.rarity card)
    (lookup_field "flavorText" (PokemonCard.extra card))
    (Some (JSON_stringify
             (arr_or_empty (PokemonCard.nationalPokedexNumbers card))))
    (JSON_stringify_opt (lookup_field "legalities" (PokemonCard.extra card)))
    (JSON_stringify_opt (lookup_field "images" (PokemonCard.extra card)))
    (stringify_or_empty "rules" card)
    setId.

Definition insertCards (cards : list PokemonCard.t) : M unit :=
  transaction (for_of cards insertCards_body).

Definition migrateCards (env : Env) : M unit :=
  cards <- lift (flatMap_files (cardFiles env)) ;;
  insertCards cards.

(** One element of [normalizedDecks]. *)
Module Deck.
Record t : Type := mk {
  id : json;
  name : json;
  setId : string;
  cards : json
}.
End Deck.

Definition insertDecks (deckData : list Deck.t) : M unit :=
  transaction
    (for_of deckData (fun deck =>
       insertDeck_run
         [ omap Scalar (bind_param (Some
             (or_else (Some (Deck.id deck))
                      (JStr (Deck.setId deck ++ "-deck")))));
           omap Scalar (bind_param (Some
             (or_else (Some (Deck.name deck)) (JStr "Unknown Deck"))));
           Returned (Scalar (SqlText (Deck.setId deck)));
           Returned (JsonCell (JSON_stringify
             (or_else (Some (Deck.cards deck)) (JArr [])))) ])).

(** [decks.map((deck, index) => ({...}))], counting from [index]. *)
Fixpoint normalize_decks (setId : string) (index : Z) (decks : list json)
  : outcome (list Deck.t) :=
  match decks with
  | [] => Returned []
  | deck :: rest =>
      obind (prop "id" (Some deck)) (fun id =>
      obind (prop "name" (Some deck)) (fun name =>
      obind (prop "cards" (Some deck)) (fun cards =>
      obind (normalize_decks setId (index + 1) rest) (fun r =>
      Returned
        (Deck.mk
           (or_else id (JStr (setId ++ "-deck-" ++ String_of_number index)))
           (or_else name
              (JStr (setId ++ " Deck " ++ String_of_number (index + 1))))
           setId
           (or_else cards deck)
         :: r)))))
  end.

Definition normalizedDecks (setId : string) (decks : json)
  : outcome (list Deck.t) :=
  match decks with
  | JArr items => normalize_decks setId 0 items
  | _ => Returned [Deck.mk (JStr (setId ++ "-deck")) (JStr (setId ++ " Deck"))
                           setId decks]
  end.

Definition migrateDecks (env : Env) : M unit :=
  try_catch
    (match deckFiles env with
     | [] => ret tt
     | files =>
         for_of files (fun '(deckFile, content) =>
           decks <- lift (read_file content) ;;
           let setId := basename deckFile ".json" in
           normalized <- lift (normalizedDecks setId decks) ;;
           insertDecks normalized)
     end)
    (ret tt).

Definition insertTypes (types : json) : M unit :=
  transaction
    (items <- lift (iterate (Some types)) ;;
     for_of items (fun type =>
       insertType_run
         [ arg "id" type; arg "name" type; arg "color" type;
           flag "isCanonical" type ])).

Definition migratePokemonTypes (env : Env) : M unit :=
  try_catch
    (types <- lift (await_json (fetch_types env)) ;;
     insertTypes types)
    (ret tt).

Definition insertMoves (moves : json) : M unit :=
  transaction
    (items <- lift (iterate (Some moves)) ;;
     for_of items (fun move =>
       insertMove_run
         [ arg "id" move; arg "name" move; arg "psName" move;
           arg "generation" move; arg "desc" move; arg "shortDesc" move;
           arg "type" move; arg "power" move; arg "accuracy" move;
           arg "pp" move; arg "category" move; arg "priority" move;
           flag "isZ" move; flag "isGmax" move ])).

Definition migratePokemonMoves (env : Env) : M unit :=
  try_catch
    (moves <- lift (await_json (fetch_moves env)) ;;
     insertMoves moves)
    (ret tt).

Definition insertAbilities (abilities : json) : M unit :=
  transaction
    (items <- lift (iterate (Some abilities)) ;;
     for_of items (fun ability =>
       insertAbility_run
         [ arg "id" ability; arg "name" ability; arg "desc" ability;
           arg "shortDesc" ability; arg "generation" ability ])).

Definition migratePokemonAbilities (env : Env) : M unit :=
  try_catch
    (abilities <- lift (await_json (fetch_abilities env)) ;;
     insertAbilities abilities)
    (ret tt).

Definition insertSpeciesBatch (pokemon : json) : M unit :=
  transaction
    (items <- lift (iterate (Some pokemon)) ;;
     for_of items (fun pkmn =>
       insertSpecies_run
         [ obind (prop "nationalDexNumber" (Some pkmn)) (fun n =>
           obind (prop "id" (Some pkmn)) (fun i =>
           omap Scalar (bind_param (or_opt n i))));
           arg "name" pkmn;
           blob "types" (JArr []) pkmn;
           blob "abilities" (JArr []) pkmn;
           blob "hiddenAbilities" (JArr []) pkmn;
           blob "baseStats" (JObj []) pkmn;
           arg "height" pkmn;
           arg "weight" pkmn;
           arg "generation" pkmn;
           blob "evolutionChain" (JObj []) pkmn ])).

Definition migratePokemonSpecies (env : Env) : M unit :=
  try_catch
    (pokemonList <- lift (await_json (fetch_species env)) ;;
     insertSpeciesBatch pokemonList)
    (ret tt).

(** [parseInt(entry.pokemon_species.url.split('/').slice(-2, -1)[0])]. *)
Definition speciesIdOfEntry (entry : json) : outcome cell :=
  obind (prop "pokemon_species" (Some entry)) (fun species =>
  obind (prop "url" species) (fun url =>
  obind (split_any "/" url) (fun segments =>
  Returned
    (Scalar (bind_number (parseInt (first (slice (-2) (-1) segments)))))))).

Definition insertEntriesTransaction (pokedexData : json) (entries : option json)
  : M unit :=
  transaction
    (items <- lift (iterate entries) ;;
     for_of items (fun entry =>
       insertEntry_run
         [ arg "id" pokedexData;
           arg "entry_number" entry;
           speciesIdOfEntry entry;
           obind (prop "pokemon_species" (Some entry)) (fun species =>
           obind (prop "name" species) (fun n =>
           omap Scalar (bind_param n))) ])).

(** [x > 0] for a value of type [any] (the comparison converts its operand
    to a number).  The [length] of an array or of a string is a number; other
    operands arise only for an object with a [length] property, which the
    loop that follows cannot iterate over. *)
Definition gt_zero (x : option json) : bool :=
  match x with
  | Some (JNum n) => 0 <? n
  | Some (JBool b) => b
  | Some (JStr s) =>
      match integer_literal (trim s) with
      | Some n => 0 <? n
      | None => false
      end
  | _ => false
  end.

(** [insertPokedex.run(...)] for the data of one pokedex. *)
Definition insertPokedex_of (pokedexData : json) : M unit :=
  insertPokedex_run
    [ arg "id" pokedexData;
      arg "name" pokedexData;
      blob "descriptions" (JArr []) pokedexData;
      blob "names" (JArr []) pokedexData;
      flag "is_main_series" pokedexData;
      obind (prop "region" (Some pokedexData)) (fun region =>
      obind (opt_prop "name" region) (fun n =>
      omap Scalar (bind_param (Some (or_else n JNull))))) ].

(** The body of the [try] inside the loop over [pokedexList.results]. *)
Definition migratePokedex (env : Env) (pokedexRef : json) : M unit :=
  _ <- lift (prop "name" (Some pokedexRef)) ;;
  url <- lift (prop "url" (Some pokedexRef)) ;;
  pokedexData <- lift (await_json (fetch_pokedex env url)) ;;
  insertPokedex_of pokedexData ;;
  entries <- lift (prop "pokemon_entries" (Some pokedexData)) ;;
  (if truthy_opt entries
   then
     len <- lift (prop "length" entries) ;;
     if gt_zero len
     then insertEntriesTransaction pokedexData entries
     else ret tt
   else ret tt).

(** One turn of the loop over [pokedexList.results]: the inner [try] with its
    [catch], whose log line reads [pokedexRef.name]. *)
Definition tryPokedex (env : Env) (pokedexRef : json) : M unit :=
  try_catch
    (migratePokedex env pokedexRef)
    (_ <- lift (prop "name" (Some pokedexRef)) ;; ret tt).

Definition migratePokedexes (env : Env) : M unit :=
  try_catch
    (pokedexList <- lift (await_json (fetch_pokedex_list env)) ;;
     results <- lift (obind (prop "results" (Some pokedexList)) iterate) ;;
     for_of results (tryPokedex env))
    (ret tt).

(** [CREATE TABLE IF NOT EXISTS], [CREATE INDEX IF NOT EXISTS]: the tables of
    [Db] exist, nothing changes. *)
Definition initializeSchema : M unit := ret tt.

Definition migrate (env : Env) : M unit :=
  initializeSchema ;;
  migrateSets env ;;
  migrateCards env ;;
  migrateDecks env ;;
  migratePokemonTypes env ;;
  migratePokemonMoves env ;;
  migratePokemonAbilities env ;;
  migratePokemonSpecies env ;;
  migratePokedexes env.

(** ** Query engine *)

(** The [filters] argument of [getAllCards]. *)
Module Filters.
Record t : Type := mk {
  types : option (list string);
  subtypes : option (list string);
  years : option (list string);
  sets : option (list string);
  rarities : option (list string)
}.
End Filters.

(** A row of
    [SELECT c.*, s.name as setName, s.series, s.releaseDate,
            s.images as setImages, s.year
     FROM cards c LEFT JOIN sets s ON c.setId = s.id]. *)
Module JoinedRow.
Record t : Type := mk {
  c : CardRow.t;
  setName : option string;
  series : option string;
  releaseDate : option string;
  setImages : option (JsonText json);
  year : option string
}.
End JoinedRow.

(** LEFT JOIN: one row per matching set, and one row of NULLs when no set
    matches. *)
Definition left_join_sets (db : Db) : list JoinedRow.t :=
  flat_map
    (fun c =>
       match List.filter (fun s => text_eq (CardRow.setId c) (SetRow.id s))
                         (sets db) with
       | [] => [JoinedRow.mk c None None None None None]
       | matches =>
           List.map (fun s => JoinedRow.mk c (SetRow.name s) (SetRow.series s)
                                (SetRow.releaseDate s) (SetRow.images s)
                                (SetRow.year s))
                    matches
       end)
    (cards db).

Inductive JsonColumn : Type := c_types | c_subtypes.
Inductive TextColumn : Type := s_year | c_setId | c_rarity.

(** One element of [conditions], with the number of its [?] placeholders. *)
Inductive Condition : Type :=
| ExistsJsonEachIn (col : JsonColumn) (placeholders : nat)
| ColumnIn (col : TextColumn) (placeholders : nat).

Definition placeholders_of (cond : Condition) : nat :=
  match cond with
  | ExistsJsonEachIn _ n => n
  | ColumnIn _ n => n
  end.

Definition json_column (col : JsonColumn) (r : JoinedRow.t)
  : option (JsonText (list string)) :=
  match col with
  | c_types => CardRow.types (JoinedRow.c r)
  | c_subtypes => CardRow.subtypes (JoinedRow.c r)
  end.

Definition text_column (col : TextColumn) (r : JoinedRow.t) : option string :=
  match col with
  | s_year => JoinedRow.year r
  | c_setId => CardRow.setId (JoinedRow.c r)
  | c_rarity => CardRow.rarity (JoinedRow.c r)
  end.

(** The rows of [json_each(col)]: none for NULL. *)
Definition json_each (t : option (JsonText (list string))) : list string :=
  match t with
  | Some x => JSON_parse x
  | None => []
  end.

(** [x IN (v1, ..., vn)] in SQL's three-valued logic ([None] is NULL); the
    comparison of two texts is bytewise. *)
Definition sql_in (x : option string) (vals : list string) : option bool :=
  match vals, x with
  | [], _ => Some false
  | _, None => None
  | _, Some s => Some (existsb (String.eqb s) vals)
  end.

Definition sql_and (a b : option bool) : option bool :=
  match a, b with
  | Some false, _ | _, Some false => Some false
  | Some true, Some true => Some true
  | _, _ => None
  end.

Definition eval_condition (cond : Condition) (vals : list string)
  (r : JoinedRow.t) : option bool :=
  match cond with
  | ExistsJsonEachIn col _ =>
      Some (existsb (fun value => match sql_in (Some value) vals with
                                  | Some true => true
                                  | _ => false
                                  end)
                    (json_each (json_column col r)))
  | ColumnIn col _ => sql_in (text_column col r) vals
  end.

(** [conditions.join(' AND ')] evaluated on a row, the placeholders bound to
    [params] from left to right. *)
Fixpoint eval_where (conditions : list Condition) (params : list string)
  (r : JoinedRow.t) : option bool :=
  match conditions with
  | [] => Some true
  | [cond] => eval_condition cond (firstn (placeholders_of cond) params) r
  | cond :: rest =>
      sql_and
        (eval_condition cond (firstn (placeholders_of cond) params) r)
        (eval_where rest (skipn (placeholders_of cond) params) r)
  end.

(** [if (filters?.group?.length) {
       conditions.push(...); params.push(...filters.group) }] *)
Definition push_group (group : option (list string))
  (cond : nat -> Condition) (q : list Condition * list string)
  : list Condition * list string :=
  match group with
  | Some (v :: vs) =>
      ((fst q ++ [cond (List.length (v :: vs))])%list,
       (snd q ++ v :: vs)%list)
  | _ => q
  end.

Definition js_of_text (v : option string) : json :=
  match v with
  | Some s => JStr s
  | None => JNull
  end.

Definition js_of_sql (v : sqlval) : json :=
  match v with
  | SqlNull => JNull
  | SqlInteger n => JNum n
  | SqlText s => JStr s
  end.

(** [JSON.parse(cell || dflt)]: NULL reads as the default. *)
Definition parse_or {A} (cell : option (JsonText A)) (dflt : A) : A :=
  match cell with
  | Some t => JSON_parse t
  | None => dflt
  end.

Definition transformCardRow (row : JoinedRow.t) : PokemonCard.t :=
  let c := JoinedRow.c row in
  {| PokemonCard.id := CardRow.id c;
     PokemonCard.name := CardRow.name c;
     PokemonCard.subtypes := Some (parse_or (CardRow.subtypes c) []);
     PokemonCard.types := Some (parse_or (CardRow.types c) []);
     PokemonCard.rarity := CardRow.rarity c;
     PokemonCard.nationalPokedexNumbers :=
       Some (parse_or (CardRow.nationalPokedexNumbers c) []);
     PokemonCard.set :=
       Some {| SetInfo.id := CardRow.setId c;
               SetInfo.name := JoinedRow.setName row;
               SetInfo.series := JoinedRow.series row;
               SetInfo.releaseDate := JoinedRow.releaseDate row;
               SetInfo.year := JoinedRow.year row;
               SetInfo.extra :=
                 [ ("total", JNum 0);
                   ("images",
                    parse_or (JoinedRow.setImages row) (JObj [])) ] |};
     PokemonCard.extra :=
       [ ("supertype", js_of_text (CardRow.supertype c));
         ("level", js_of_text (CardRow.level c));
         ("hp", js_of_text (CardRow.hp c));
         ("evolvesFrom", js_of_text (CardRow.evolvesFrom c));
         ("evolvesTo", parse_or (CardRow.evolvesTo c) (JArr []));
         ("abilities", parse_or (CardRow.abilities c) (JArr []));
         ("attacks", parse_or (CardRow.attacks c) (JArr []));
         ("weaknesses", parse_or (CardRow.weaknesses c) (JArr []));
         ("resistances", parse_or (CardRow.resistances c) (JArr []));
         ("retreatCost", parse_or (CardRow.retreatCost c) (JArr []));
         ("convertedRetreatCost", js_of_sql (CardRow.convertedRetreatCost c));
         ("number", js_of_text (CardRow.number c));
         ("artist", js_of_text (CardRow.artist c));
         ("flavorText", js_of_text (CardRow.flavorText c));
         ("legalities", parse_or (CardRow.legalities c) (JObj []));
         ("images", parse_or (CardRow.images c) (JObj []));
         ("rules", parse_or (CardRow.rules c) (JArr [])) ] |}.

Definition getAllCards (filters : option Filters.t) (db : Db)
  : list PokemonCard.t :=
  let group (f : Filters.t -> option (list string)) :=
    match filters with
    | Some x => f x
    | None => None
    end in
  let q := ([], []) in
  let q := push_group (group Filters.types) (ExistsJsonEachIn c_types) q in
  let q := push_group (group Filters.subtypes)
                      (ExistsJsonEachIn c_subtypes) q in
  let q := push_group (group Filters.years) (ColumnIn s_year) q in
  let q := push_group (group Filters.sets) (ColumnIn c_setId) q in
  let q := push_group (group Filters.rarities) (ColumnIn c_rarity) q in
  let '(conditions, params) := q in
  let rows :=
    match conditions with
    | [] => left_join_sets db
    | _ => List.filter (fun r => match eval_where conditions params r with
                                 | Some true => true
                                 | _ => false
                                 end)
                       (left_join_sets db)
    end in
  List.map transformCardRow rows.

(** [GET /v2/cards/filter]: the five query parameters, each a string when
    present. *)
Module Query.
Record t : Type := mk {
  types : option string;
  subtypes : option string;
  years : option string;
  sets : option string;
  rarities : option string
}.
End Query.

Module FilterResponse.
Record t : Type := mk {
  cards : list PokemonCard.t;
  count : Z;
  filters : list string * list string * list string * list string * list string
}.
End FilterResponse.

(** [param ? param.split(",").map(t => t.trim()).filter(Boolean) : []]
    after [(req.query.k as string) || ""]. *)
Definition selected (q : option string) : list string :=
  let param := str_or_else q "" in
  if negb (String.eqb param "")
  then List.filter (fun t => negb (String.eqb t ""))
                   (List.map trim (split "," param))
  else [].

(** [selected.length > 0 ? selected : undefined]; dropping the undefined
    entries leaves the property absent. *)
Definition non_empty (l : list string) : option (list string) :=
  match l with
  | [] => None
  | _ => Some l
  end.

Definition filterHandler (q : Query.t) (db : Db) : FilterResponse.t :=
  let selectedTypes := selected (Query.types q) in
  let selectedSubtypes := selected (Query.subtypes q) in
  let selectedYears := selected (Query.years q) in
  let selectedSets := selected (Query.sets q) in
  let selectedRarities := selected (Query.rarities q) in
  let cleanFilters :=
    Filters.mk (non_empty selectedTypes) (non_empty selectedSubtypes)
               (non_empty selectedYears) (non_empty selectedSets)
               (non_empty selectedRarities) in
  let filteredCards := getAllCards (Some cleanFilters) db in
  FilterResponse.mk filteredCards (Z.of_nat (List.length filteredCards))
    (selectedTypes, selectedSubtypes, selectedYears, selectedSets,
     selectedRarities).

(** [ORDER BY c.nationalPokedexNumbers]: ascending on the text, compared
    bytewise.  SQLite leaves the order of rows with equal text open; the model
    takes the one of this sort. *)
Definition by_numbers_text (a b : JoinedRow.t) : Prop :=
  String.leb
    (match CardRow.nationalPokedexNumbers (JoinedRow.c a) with
     | Some t => text_of_numbers t
     | None => ""
     end)
    (match CardRow.nationalPokedexNumbers (JoinedRow.c b) with
     | Some t => text_of_numbers t
     | None => ""
     end) = true.

#[global] Instance by_numbers_text_dec a b : Decision (by_numbers_text a b).
Proof. unfold by_numbers_text. apply _. Defined.

(** The rows [getPokemonGrouped] scans:
    [WHERE c.nationalPokedexNumbers != '[]'
       AND c.nationalPokedexNumbers IS NOT NULL
     ORDER BY c.nationalPokedexNumbers]. *)
Definition rows_with_numbers (db : Db) : list JoinedRow.t :=
  merge_sort by_numbers_text
    (List.filter
       (fun r => match CardRow.nationalPokedexNumbers (JoinedRow.c r) with
                 | Some t => negb (String.eqb (text_of_numbers t) "[]")
                 | None => false
                 end)
       (left_join_sets db)).

(** The body of the inner loop: the group is created on first sight, then the
    card is pushed onto its list. *)
Definition add_card (card : PokemonCard.t)
  (pokemonByPokedex : gmap Z PokemonByPokedex.t) (pokedexNum : Z)
  : gmap Z PokemonByPokedex.t :=
  let created :=
    match pokemonByPokedex !! pokedexNum with
    | Some _ => pokemonByPokedex
    | None =>
        <[pokedexNum :=
            PokemonByPokedex.mk pokedexNum (PokemonCard.name card) []]>
          pokemonByPokedex
    end in
  alter (fun g => PokemonByPokedex.mk
                    (PokemonByPokedex.nationalPokedexNumber g)
                    (PokemonByPokedex.name g)
                    (PokemonByPokedex.cards g ++ [card])%list)
        pokedexNum created.

(** The two nested loops over the cards and over each card's numbers. *)
Definition group_cards (scanned : list PokemonCard.t)
  : gmap Z PokemonByPokedex.t :=
  fold_left
    (fun pokemonByPokedex card =>
       fold_left (add_card card)
                 (arr_or_empty (PokemonCard.nationalPokedexNumbers card))
                 pokemonByPokedex)
    scanned ∅.

Definition by_number (a b : PokemonByPokedex.t) : Prop :=
  PokemonByPokedex.nationalPokedexNumber a
  <= PokemonByPokedex.nationalPokedexNumber b.

#[global] Instance by_number_dec a b : Decision (by_number a b).
Proof. unfold by_number. apply _. Defined.

(** [Object.values(pokemonByPokedex).sort((a, b) => a.n - b.n)]. *)
Definition sorted_groups (pokemonByPokedex : gmap Z PokemonByPokedex.t)
  : list PokemonByPokedex.t :=
  merge_sort by_number (List.map snd (map_to_list pokemonByPokedex)).

Definition getPokemonGrouped (db : Db) : list PokemonByPokedex.t :=
  sorted_groups
    (group_cards (List.map transformCardRow (rows_with_numbers db))).

(** ** The filter predicate in the words of the specification (section 4.4)

    A conjunction over the predicate groups; inside a group, membership.  An
    absent or empty group holds of every card. *)











(** ** The grouping in the words of the specification (section 4.4) *)








(** ** Derived fields in the words of the specification (sections 3, 4.1) *)

(** The substring before the first occurrence of [sep]; the whole string when
    [sep] does not occur. *)
Fixpoint before_first (sep : ascii) (s : string) : string :=
  match s with
  | EmptyString => EmptyString
  | String c rest =>
      if Ascii.eqb c sep then EmptyString
      else String c (before_first sep rest)
  end.

(** [card.set?.id]: the nested set reference of a card record. *)
Definition nested_set_id (card : PokemonCard.t) : option string :=
  match PokemonCard.set card with
  | Some s => SetInfo.id s
  | None => None
  end.

(** Source data without network: the given set and card files, no deck
    file, every request rejected. *)
Definition offline (setFiles : list (file (list SetInfo.t)))
  (cardFiles : list (file (list PokemonCard.t))) : Env :=
  mkEnv setFiles cardFiles [] FetchRejected FetchRejected FetchRejected
        FetchRejected FetchRejected (fun _ => FetchRejected).

(** The year of a stored set as the specification states it: the prefix of
    the release date when there is one, nothing otherwise. *)
Definition year_as_claimed (set : SetInfo.t) (row : SetRow.t) : Prop :=
  match SetInfo.releaseDate set with
  | Some d => SetRow.year row = Some (before_first "/" d)
  | None => SetRow.year row = None
  end.

(** The setId of a stored card as the specification states it: the id of the
    nested set when the card has one, the prefix of a non-empty identifier
    otherwise. *)
Definition setId_as_claimed (card : PokemonCard.t) (row : CardRow.t) : Prop :=
  match PokemonCard.set card with
  | Some s => CardRow.setId row = SetInfo.id s
  | None =>
      match PokemonCard.id card with
      | Some i => i <> "" -> CardRow.setId row = Some (before_first "-" i)
      | None => True
      end
  end.

(** The nested set of a listed card whose setId matches no set, as the
    specification states it: the stored setId, total 0, everything else
    null. *)
Definition unmatched_set_as_claimed (row : CardRow.t) : SetInfo.t :=
  {| SetInfo.id := CardRow.setId row;
     SetInfo.name := None;
     SetInfo.series := None;
     SetInfo.year := None;
     SetInfo.releaseDate := None;
     SetInfo.extra := [("total", JNum 0); ("images", JNull)] |}.

(** ** Round trip in the words of the specification (section 8) *)







(** ** Isolation of the migration steps, in the words of the specification
    (sections 4.3 and 8) *)

Inductive table : Type :=
| T_pokemon_types | T_pokemon_moves | T_pokemon_abilities | T_pokemon_species
| T_pokedexes | T_pokedex_entries | T_sets | T_cards | T_decks.

(** The steps fed by an external source. *)
Inductive external : Type :=
| FromTypes | FromMoves | FromAbilities | FromSpecies | FromPokedexes.

Definition step_of (k : external) : Env -> M unit :=
  match k with
  | FromTypes => migratePokemonTypes
  | FromMoves => migratePokemonMoves
  | FromAbilities => migratePokemonAbilities
  | FromSpecies => migratePokemonSpecies
  | FromPokedexes => migratePokedexes
  end.

(** The tables a step writes. *)
Definition owned (k : external) (t : table) : bool :=
  match k, t with
  | FromTypes, T_pokemon_types
  | FromMoves, T_pokemon_moves
  | FromAbilities, T_pokemon_abilities
  | FromSpecies, T_pokemon_species
  | FromPokedexes, T_pokedexes
  | FromPokedexes, T_pokedex_entries => true
  | _, _ => false
  end.

(** The two stores hold the same rows in every table outside [ign]. *)
Definition same_outside (ign : table -> bool) (db1 db2 : Db) : Prop :=
  (ign T_pokemon_types = false -> pokemon_types db1 = pokemon_types db2)
  /\ (ign T_pokemon_moves = false -> pokemon_moves db1 = pokemon_moves db2)
  /\ (ign T_pokemon_abilities = false ->
      pokemon_abilities db1 = pokemon_abilities db2)
  /\ (ign T_pokemon_species = false ->
      pokemon_species db1 = pokemon_species db2)
  /\ (ign T_pokedexes = false -> pokedexes db1 = pokedexes db2)
  /\ (ign T_pokedex_entries = false ->
      pokedex_entries db1 = pokedex_entries db2)
  /\ (ign T_sets = false -> sets db1 = sets db2)
  /\ (ign T_cards = false -> cards db1 = cards db2)
  /\ (ign T_decks = false -> decks db1 = decks db2).

(** The two runs read the same source data, except for what the requests of
    step [k] return. *)
Definition same_source_except (k : external) (env1 env2 : Env) : Prop :=
  setFiles env1 = setFiles env2
  /\ cardFiles env1 = cardFiles env2
  /\ deckFiles env1 = deckFiles env2
  /\ (k <> FromTypes -> fetch_types env1 = fetch_types env2)
  /\ (k <> FromMoves -> fetch_moves env1 = fetch_moves env2)
  /\ (k <> FromAbilities -> fetch_abilities env1 = fetch_abilities env2)
  /\ (k <> FromSpecies -> fetch_species env1 = fetch_species env2)
  /\ (k <> FromPokedexes ->
      fetch_pokedex_list env1 = fetch_pokedex_list env2
      /\ forall url, fetch_pokedex env1 url = fetch_pokedex env2 url).

(** Run on stores that agree outside [ign], the two statements end alike and
    leave stores that agree outside [ign]. *)
Definition related (ign : table -> bool) {A} (m1 m2 : M A) : Prop :=
  forall db1 db2,
    same_outside ign db1 db2 ->
    same_outside ign (fst (m1 db1)) (fst (m2 db2))
    /\ snd (m1 db1) = snd (m2 db2).

(** The statement writes nothing outside [ign]. *)
Definition touches_only (ign : table -> bool) {A} (m : M A) : Prop :=
  forall db, same_outside ign db (fst (m db)).

(** The statement never throws. *)
Definition always_returns (m : M unit) : Prop :=
  forall db, snd (m db) = Returned tt.

(** Every table but [sets] and [cards]. *)
Definition not_local (t : table) : bool :=
  match t with
  | T_sets | T_cards => false
  | _ => true
  end.

(** ** Atomicity and the pokedex entries, in the words of the specification
    (sections 4.1 and 4.3) *)

(** The statement commits all its writes or none: when it throws, the store
    is as it was. *)
Definition atomic (m : M unit) : Prop :=
  forall db db' e, m db = (db', Thrown e) -> db' = db.

(** The element before the last. *)
Definition second_to_last {A} (l : list A) : option A :=
  match rev l with
  | _ :: x :: _ => Some x
  | _ => None
  end.

(** ** Sample records *)

Definition sv2 : SetInfo.t :=
  SetInfo.mk (Some "sv2") (Some "Paldea Evolved") (Some "Scarlet & Violet")
             None (Some "2023/03/31") [("total", JNum 279)].

Definition undated_set : SetInfo.t :=
  SetInfo.mk (Some "promo") (Some "Promo") None None (Some "") [].

Definition base1 : SetInfo.t :=
  SetInfo.mk (Some "base1") (Some "Base") (Some "Base") None
             (Some "1999/01/09") [("total", JNum 102)].

Definition alakazam : PokemonCard.t :=
  PokemonCard.mk (Some "base1-1") (Some "Alakazam") (Some ["Psychic"])
    (Some ["Stage 2"]) (Some "Rare Holo") None (Some [65])
    [("supertype", JStr "Pokemon"); ("hp", JStr "80");
     ("convertedRetreatCost", JNum 3); ("regulationMark", JStr "A")].

Definition card_with_blank_set : PokemonCard.t :=
  PokemonCard.mk (Some "base1-4") (Some "Charizard") (Some ["Fire"]) None
    (Some "Rare Holo")
    (Some (SetInfo.mk (Some "") (Some "Base") None None None []))
    (Some [6]) [].

Definition loose_card : PokemonCard.t :=
  PokemonCard.mk (Some "") (Some "Loose card") None None None None None [].

(** A store in which the only card refers to a set that has no row. *)
Definition dangling_row : CardRow.t :=
  CardRow.mk (Some "xy0-1") (Some "Orphan") None None None None None None
             None None None None None None SqlNull None None None None None
             None None None (Some "xy0").

Definition dangling_db : Db := with_cards [dangling_row] empty_db.

(** A run in which the species request is rejected, and one in which it
    answers. *)
Definition species_down : Env :=
  mkEnv [Parsed [base1]] [Parsed [alakazam]] []
        (Body (JArr [JObj [("id", JStr "fire"); ("name", JStr "Fire")]]))
        BodyMalformed
        (Body (JArr [JObj [("id", JStr "blaze"); ("name", JStr "Blaze")]]))
        FetchRejected
        FetchRejected (fun _ => FetchRejected).

Definition species_up : Env :=
  mkEnv [Parsed [base1]] [Parsed [alakazam]] []
        (Body (JArr [JObj [("id", JStr "fire"); ("name", JStr "Fire")]]))
        BodyMalformed
        (Body (JArr [JObj [("id", JStr "blaze"); ("name", JStr "Blaze")]]))
        (Body (JArr [JObj [("id", JNum 25); ("name", JStr "Pikachu")]]))
        FetchRejected (fun _ => FetchRejected).

(** A pokedex entry as the external API serves it. *)
Definition entry (n : Z) (name url : string) : json :=
  JObj [("entry_number", JNum n);
        ("pokemon_species", JObj [("name", JStr name); ("url", JStr url)])].

(** An entry whose species reference has no url. *)
Definition entry_without_url (n : Z) (name : string) : json :=
  JObj [("entry_number", JNum n);
        ("pokemon_species", JObj [("name", JStr name)])].

Definition pokedex (id : Z) (name : json) (entries : list json) : json :=
  JObj [("id", JNum id); ("name", name); ("is_main_series", JBool true);
        ("pokemon_entries", JArr entries)].

Definition kanto : json :=
  pokedex 2 (JStr "kanto")
    [entry 1 "bulbasaur" "https://pokeapi.co/api/v2/pokemon-species/1/";
     entry 2 "ivysaur" "https://pokeapi.co/api/v2/pokemon-species/2/"].

(** A pokedex whose name is null: its row violates NOT NULL. *)
Definition nameless : json :=
  pokedex 3 JNull
    [entry 1 "chikorita" "https://pokeapi.co/api/v2/pokemon-species/152/"].

(** A pokedex whose second entry has no url. *)
Definition hoenn_without_url : json :=
  pokedex 4 (JStr "hoenn")
    [entry 1 "treecko" "https://pokeapi.co/api/v2/pokemon-species/252/";
     entry_without_url 2 "grovyle";
     entry 3 "sceptile" "https://pokeapi.co/api/v2/pokemon-species/254/"].

(** A pokedex whose second entry has a url without a number. *)
Definition hoenn_bad_url : json :=
  pokedex 4 (JStr "hoenn")
    [entry 1 "treecko" "https://pokeapi.co/api/v2/pokemon-species/252/";
     entry 2 "grovyle" "not-a-url";
     entry 3 "sceptile" "https://pokeapi.co/api/v2/pokemon-species/254/"].

(** The external API serving the given pokedexes, each under its name as
    url; the local files hold one set and one card. *)
Definition pokeapi (served : list (string * json)) : Env :=
  mkEnv [Parsed [base1]] [Parsed [alakazam]] []
        FetchRejected FetchRejected FetchRejected FetchRejected
        (Body (JObj [("results",
                      JArr (List.map (fun p => JObj [("name", JStr (fst p));
                                                     ("url", JStr (fst p))])
                                     served))]))
        (fun url => match url with
                    | Some (JStr u) =>
                        match lookup_field u served with
                        | Some data => Body data
                        | None => FetchRejected
                        end
                    | _ => FetchRejected
                    end).

Definition hoenn_ref : json :=
  JObj [("name", JStr "hoenn"); ("url", JStr "hoenn")].

(** Two deck files: the second is named after a set that has no row. *)
Definition two_deck_files : Env :=
  mkEnv [Parsed [base1]] [Parsed [alakazam]]
        [("decks/en/base1.json",
          Parsed (JArr [JObj [("name", JStr "Overgrowth")]]));
         ("decks/en/xy0.json",
          Parsed (JArr [JObj [("name", JStr "Unknown")]]))]
        FetchRejected FetchRejected FetchRejected FetchRejected
        FetchRejected (fun _ => FetchRejected).

(** Keeps the pokedexes table only out of the comparison. *)
Definition only_pokedexes (t : table) : bool :=
  match t with
  | T_pokedexes => true
  | _ => false
  end.

(** The three cards of the filter example of the specification (section 8). *)
Definition card_A : PokemonCard.t :=
  PokemonCard.mk (Some "base1-A") (Some "A") (Some ["Fire"]) None
                 (Some "Common") None (Some [25; 26]) [].
Definition card_B : PokemonCard.t :=
  PokemonCard.mk (Some "base1-B") (Some "B") (Some ["Water"]) None
                 (Some "Common") None (Some [26]) [].
Definition card_C : PokemonCard.t :=
  PokemonCard.mk (Some "base1-C") (Some "C") (Some ["Fire"; "Water"]) None
                 (Some "Rare") None None [].

Definition abc_db : Db :=
  fst (migrate (offline [Parsed [base1]] [Parsed [card_A; card_B; card_C]])
               empty_db).

Definition only_types (types : list string) : Filters.t :=
  Filters.mk (Some types) None None None None.

(** ** The set listing ([getAllSets], [transformSetRow]) *)

(** [ORDER BY releaseDate]: NULL first, then ascending on the text, compared
    bytewise.  The order of rows with the same release date is left open by
    SQLite; the model takes the one of this sort. *)
Definition by_releaseDate (a b : SetRow.t) : Prop :=
  match SetRow.releaseDate a, SetRow.releaseDate b with
  | None, _ => True
  | Some _, None => False
  | Some x, Some y => String.leb x y = true
  end.

#[global] Instance by_releaseDate_dec a b : Decision (by_releaseDate a b).
Proof.
  unfold by_releaseDate.
  destruct (SetRow.releaseDate a), (SetRow.releaseDate b); apply _.
Defined.

Definition transformSetRow (row : SetRow.t) : SetInfo.t :=
  {| SetInfo.id := SetRow.id row;
     SetInfo.name := SetRow.name row;
     SetInfo.series := SetRow.series row;
     SetInfo.releaseDate := SetRow.releaseDate row;
     SetInfo.year := SetRow.year row;
     SetInfo.extra :=
       [ ("printedTotal", js_of_sql (SetRow.printedTotal row));
         ("total", js_of_sql (SetRow.total row));
         ("legalities", parse_or (SetRow.legalities row) (JObj []));
         ("ptcgoCode", js_of_text (SetRow.ptcgoCode row));
         ("updatedAt", js_of_text (SetRow.updatedAt row));
         ("images", parse_or (SetRow.images row) (JObj [])) ] |}.

Definition getAllSets (db : Db) : list SetInfo.t :=
  List.map transformSetRow (merge_sort by_releaseDate (sets db)).

(** The same order on the records read back. *)
Definition by_release (a b : SetInfo.t) : Prop :=
  match SetInfo.releaseDate a, SetInfo.releaseDate b with
  | None, _ => True
  | Some _, None => False
  | Some x, Some y => String.leb x y = true
  end.

(** ** Integrity of the store *)

(** The keys in use in a table: NULL is no key. *)
Definition keys_of {A K} (k : A -> option K) (tbl : list A) : list K :=
  flat_map (fun x => match k x with
                     | Some i => [i]
                     | None => []
                     end) tbl.

Definition text_keys {A} (k : A -> option string) (tbl : list A)
  : list string :=
  keys_of k tbl.

(** The key of a [Row], when it is not NULL. *)
Definition row_key (r : Row) : option sqlval :=
  match key r with
  | SqlNull => None
  | v => Some v
  end.

Definition row_keys (tbl : list Row) : list sqlval := keys_of row_key tbl.

(** FOREIGN KEY (setId) REFERENCES sets(id) of [cards], as [insertCard_run]
    checks it. *)
Definition card_fk (db : Db) (c : CardRow.t) : bool :=
  match CardRow.setId c with
  | None => true
  | Some _ => existsb (fun s => text_eq (SetRow.id s) (CardRow.setId c))
                      (sets db)
  end.

(** What [PRAGMA foreign_key_check] verifies: every card and every deck
    refers to a stored set or to none, every pokedex entry to a stored
    pokedex or to none. *)
Definition foreign_keys_hold (db : Db) : bool :=
  forallb (card_fk db) (cards db)
  && forallb (deck_fk db) (decks db)
  && forallb (entry_fk db) (pokedex_entries db).

Definition fk_ok (db : Db) : Prop := foreign_keys_hold db = true.


(** The statement keeps the property of the store. *)
Definition preserves (P : Db -> Prop) {A} (m : M A) : Prop :=
  forall db, P db -> P (fst (m db)).

(** ** Upserts *)

(** [INSERT OR REPLACE] of one row into a table, [same] telling the rows in
    conflict on the primary key. *)
Definition upsert {A} (same : A -> A -> bool) (r : A) (tbl : list A)
  : list A :=
  (List.filter (fun old => negb (same old r)) tbl ++ [r])%list.

Definition upsert_all {A} (same : A -> A -> bool) (rs tbl : list A)
  : list A :=
  fold_left (fun t r => upsert same r t) rs tbl.

(** The row is in conflict with one of the rows of [rs]. *)
Definition keyed_in {A} (same : A -> A -> bool) (rs : list A) (x : A)
  : bool :=
  existsb (same x) rs.

(** Of the rows in conflict with each other, the last one. *)
Fixpoint last_wins {A} (same : A -> A -> bool) (rs : list A) : list A :=
  match rs with
  | [] => []
  | r :: rest =>
      ((if keyed_in same rest r then [] else [r]) ++ last_wins same rest)%list
  end.

Definition same_set (a b : SetRow.t) : bool :=
  text_eq (SetRow.id a) (SetRow.id b).

Definition same_card (a b : CardRow.t) : bool :=
  text_eq (CardRow.id a) (CardRow.id b).

Definition same_row (a b : Row) : bool := sql_eq (key a) (key b).

(** The fields of a set record that its row carries over. *)
Definition row_of_set (set : SetInfo.t) (row : SetRow.t) : Prop :=
  SetRow.id row = SetInfo.id set
  /\ SetRow.name row = SetInfo.name set
  /\ SetRow.series row = SetInfo.series set
  /\ SetRow.releaseDate row = SetInfo.releaseDate set
  /\ SetRow.year row = deriveYear (SetInfo.releaseDate set).

(** The source files of the sets and cards parse, and every record in them
    has an identifier. *)
Definition records_have_ids (env : Env) : Prop :=
  (forall batch, flatMap_files (setFiles env) = Returned batch ->
     forall set, In set batch -> SetInfo.id set <> None)
  /\ (forall batch, flatMap_files (cardFiles env) = Returned batch ->
        forall card, In card batch -> PokemonCard.id card <> None).

(** The fields of a card record that its row carries over. *)
Definition row_of_card (card : PokemonCard.t) (row : CardRow.t) : Prop :=
  CardRow.id row = PokemonCard.id card
  /\ CardRow.name row = PokemonCard.name card
  /\ CardRow.rarity row = PokemonCard.rarity card
  /\ CardRow.setId row = deriveSetId card.

(** PRIMARY KEY of one table: no two rows share a key. *)
Definition unique_in (t : table) (db : Db) : Prop :=
  match t with
  | T_pokemon_types => NoDup (row_keys (pokemon_types db))
  | T_pokemon_moves => NoDup (row_keys (pokemon_moves db))
  | T_pokemon_abilities => NoDup (row_keys (pokemon_abilities db))
  | T_pokemon_species => NoDup (row_keys (pokemon_species db))
  | T_pokedexes => NoDup (row_keys (pokedexes db))
  | T_pokedex_entries => NoDup (row_keys (pokedex_entries db))
  | T_sets => NoDup (text_keys SetRow.id (sets db))
  | T_cards => NoDup (text_keys CardRow.id (cards db))
  | T_decks => NoDup (row_keys (decks db))
  end.

#[global] Instance table_eq_dec : EqDecision table.
Proof. solve_decision. Defined.

(** Every table but [t]. *)
Definition all_but (t : table) (t' : table) : bool :=
  if decide (t' = t) then false else true.

(** The keys in use in a table. *)
Definition known_keys (t : table) (db : Db) : list sqlval :=
  match t with
  | T_pokemon_types => row_keys (pokemon_types db)
  | T_pokemon_moves => row_keys (pokemon_moves db)
  | T_pokemon_abilities => row_keys (pokemon_abilities db)
  | T_pokemon_species => row_keys (pokemon_species db)
  | T_pokedexes => row_keys (pokedexes db)
  | T_pokedex_entries => row_keys (pokedex_entries db)
  | T_sets => List.map SqlText (text_keys SetRow.id (sets db))
  | T_cards => List.map SqlText (text_keys CardRow.id (cards db))
  | T_decks => row_keys (decks db)
  end.

(** PRIMARY KEY, in every table. *)
Definition primary_keys_unique (db : Db) : Prop :=
  forall t, unique_in t db.

(** The steps of [migrate] that follow the cards. *)
Definition later_steps (env : Env) : M unit :=
  migrateDecks env ;;
  migratePokemonTypes env ;;
  migratePokemonMoves env ;;
  migratePokemonAbilities env ;;
  migratePokemonSpecies env ;;
  migratePokedexes env.

(** ** More sample records *)

(** The set of [base1] under its later name. *)
Definition base1_renamed : SetInfo.t :=
  SetInfo.mk (Some "base1") (Some "Base Set") (Some "Base") (Some "2099")
             (Some "1999/01/09") [("total", JNum 102)].

(** Local files in which the set [base1] is recorded twice; no network. *)
Definition reprinted : Env :=
  offline [Parsed [base1; sv2]; Parsed [base1_renamed]]
          [Parsed [alakazam; card_A]].

(** ** The deck files *)

(** The body of the loop of [migrateDecks] over the deck files. *)
Definition deckFile_step (f : string * file json) : M unit :=
  let '(deckFile, content) := f in
  decks <- lift (read_file content) ;;
  let setId := basename deckFile ".json" in
  normalized <- lift (normalizedDecks setId decks) ;;
  insertDecks normalized.

(** Keeps the decks table only out of the comparison. *)
Definition only_decks (t : table) : bool :=
  match t with
  | T_decks => true
  | _ => false
  end.

(** ** Decimal numerals *)

(** The number a numeral denotes, read from the left with [acc] the value of
    the digits before it. *)
Fixpoint uint_value (d : Decimal.uint) (acc : Z) : Z :=
  match d with
  | Decimal.Nil => acc
  | Decimal.D0 d' => uint_value d' (10 * acc)
  | Decimal.D1 d' => uint_value d' (10 * acc + 1)
  | Decimal.D2 d' => uint_value d' (10 * acc + 2)
  | Decimal.D3 d' => uint_value d' (10 * acc + 3)
  | Decimal.D4 d' => uint_value d' (10 * acc + 4)
  | Decimal.D5 d' => uint_value d' (10 * acc + 5)
  | Decimal.D6 d' => uint_value d' (10 * acc + 6)
  | Decimal.D7 d' => uint_value d' (10 * acc + 7)
  | Decimal.D8 d' => uint_value d' (10 * acc + 8)
  | Decimal.D9 d' => uint_value d' (10 * acc + 9)
  end.

(** The string holds no occurrence of the character. *)
Fixpoint free_of (sep : ascii) (s : string) : bool :=
  match s with
  | EmptyString => true
  | String c rest => negb (Ascii.eqb c sep) && free_of sep rest
  end.

(** ** The pokedex endpoints of [src/server-db.ts] *)

(** The order of [ORDER BY] on stored values: NULL first, then the numbers,
    then the texts compared bytewise. *)
Definition sql_le (a b : sqlval) : Prop :=
  match a, b with
  | SqlNull, _ => True
  | SqlInteger _, SqlNull => False
  | SqlInteger x, SqlInteger y => x <= y
  | SqlInteger _, SqlText _ => True
  | SqlText _, (SqlNull | SqlInteger _) => False
  | SqlText x, SqlText y => String.leb x y = true
  end.

#[global] Instance sql_le_dec a b : Decision (sql_le a b).
Proof. destruct a, b; simpl; apply _. Defined.

(** What answers a request: a body with status 200, or the status of an
    error. *)
Inductive reply (A : Type) : Type :=
| Ok (body : A)
| NotFound
| ServerError.
Arguments Ok {A} body.
Arguments NotFound {A}.
Arguments ServerError {A}.

(** The body of [GET /v2/pokedexes/:id/entries]. *)
Module EntriesResponse.
Record t : Type := mk {
  entries : list Row;
  count : Z;
  pokedexId : option Z
}.
End EntriesResponse.

(** The body of [GET /v2/pokedexes/:id]: the columns of the row, with
    [descriptions] and [names] parsed, and the entries. *)
Module PokedexResponse.
Record t : Type := mk {
  pokedex : Row;
  descriptions : json;
  names : json;
  entries : list Row;
  entryCount : Z
}.
End PokedexResponse.

Section Endpoints.

(** The text [JSON.stringify] wrote for a value, which is what SQL sees of a
    JSON cell; and [JSON.parse] on a text that [JSON.stringify] did not
    write. *)
Variable json_text : json -> string.
Variable JSON_parse_text : string -> outcome json.

(** The value of the column at position [i] of a row. *)
Definition column (i : nat) (r : Row) : sqlval :=
  match nth_error r i with
  | Some (Scalar v) => v
  | Some (JsonCell t) => SqlText (json_text (JSON_parse t))
  | None => SqlNull
  end.

Definition order_by (i : nat) (a b : Row) : Prop :=
  sql_le (column i a) (column i b).

#[global] Instance order_by_dec i a b : Decision (order_by i a b).
Proof. unfold order_by. apply _. Defined.

(** [SELECT * FROM pokedex_entries WHERE pokedexId = ?
     ORDER BY entryNumber]. *)
Definition entries_of (pokedexId : sqlval) (db : Db) : list Row :=
  merge_sort (order_by 2)
    (List.filter (fun r => sql_eq (column 1 r) pokedexId)
                 (pokedex_entries db)).

(** [GET /v2/pokedexes/:id/entries]. *)
Definition entriesHandler (id : string) (db : Db) : reply EntriesResponse.t :=
  let pokedexId := parseInt (Some id) in
  let entries := entries_of (bind_number pokedexId) db in
  Ok (EntriesResponse.mk entries (Z.of_nat (List.length entries)) pokedexId).

(** [JSON.parse(cell || dflt)] on a column of a row read back. *)
Definition parse_column (i : nat) (r : Row) (dflt : json) : outcome json :=
  match nth_error r i with
  | Some (JsonCell t) => Returned (JSON_parse t)
  | Some (Scalar (SqlText s)) =>
      if String.eqb s "" then Returned dflt else JSON_parse_text s
  | Some (Scalar (SqlInteger n)) =>
      if n =? 0 then Returned dflt else JSON_parse_text (String_of_number n)
  | Some (Scalar SqlNull) | None => Returned dflt
  end.

(** [GET /v2/pokedexes/:id]. *)
Definition pokedexHandler (id : string) (db : Db) : reply PokedexResponse.t :=
  let pokedexId := bind_number (parseInt (Some id)) in
  match List.find (fun r => sql_eq (column 0 r) pokedexId) (pokedexes db) with
  | None => NotFound
  | Some pokedex =>
      let entries := entries_of pokedexId db in
      match parse_column 2 pokedex (JArr []) with
      | Thrown _ => ServerError
      | Returned descriptions =>
          match parse_column 3 pokedex (JArr []) with
          | Thrown _ => ServerError
          | Returned names =>
              Ok (PokedexResponse.mk pokedex descriptions names entries
                    (Z.of_nat (List.length entries)))
          end
      end
  end.

End Endpoints.

(** * Properties *)

(** ** The card listing and its filter *)

Section Filtering.










Lemma filter_all_true {A} (f : A -> bool) (l : list A) :
  (forall x, f x = true) -> List.filter f l = l.
Proof.
  intros Hf. induction l as [|x l IH]; simpl; [reflexivity|].
  rewrite Hf, IH. reflexivity.
Qed.


Lemma getAllCards_unfiltered db :
  getAllCards None db = List.map transformCardRow (left_join_sets db).
Proof. reflexivity. Qed.



Example filter_by_type :
  List.map PokemonCard.id (getAllCards (Some (only_types ["Fire"])) abc_db)
  = [Some "base1-A"; Some "base1-C"].
Proof. reflexivity. Qed.

Example filter_by_type_and_rarity :
  List.map PokemonCard.id
    (getAllCards (Some (Filters.mk (Some ["Fire"]) None None None
                                   (Some ["Rare"]))) abc_db)
  = [Some "base1-C"].
Proof. reflexivity. Qed.

Example filter_is_case_sensitive :
  getAllCards (Some (only_types ["fire"])) abc_db = [].
Proof. reflexivity. Qed.

Example filter_endpoint_trims_and_drops_empty :
  FilterResponse.filters
    (filterHandler (Query.mk (Some " Fire , ,Water") None None (Some "")
                             None) abc_db)
  = (["Fire"; "Water"], [], [], [], []).
Proof. reflexivity. Qed.


End Filtering.

(** ** Grouping by reference number *)

Section Grouping.


Lemma string_length_app (a b : string) :
  String.length (a ++ b) = (String.length a + String.length b)%nat.
Proof.
  induction a as [|c a IH]; simpl; [reflexivity|]. rewrite IH. reflexivity.
Qed.













#[local] Instance by_number_transitive : Transitive by_number.
Proof. unfold by_number. intros a b c. lia. Qed.

#[local] Instance by_number_total : Total by_number.
Proof. unfold by_number. intros a b. lia. Qed.






Example grouping_fans_out :
  List.map (fun g => (PokemonByPokedex.nationalPokedexNumber g,
                      PokemonByPokedex.name g,
                      List.map PokemonCard.id (PokemonByPokedex.cards g)))
           (getPokemonGrouped abc_db)
  = [(25, Some "A", [Some "base1-A"]);
     (26, Some "A", [Some "base1-A"; Some "base1-B"])].
Proof. reflexivity. Qed.


End Grouping.

(** ** Derived fields at ingestion *)

Section Normalizer.

Lemma first_split sep s : first (split sep s) = Some (before_first sep s).
Proof.
  induction s as [|c s IH]; simpl; [reflexivity|].
  destruct (Ascii.eqb c sep); [reflexivity|].
  destruct (split sep s) as [|hd tl]; [discriminate|].
  simpl in IH. injection IH as ->. reflexivity.
Qed.

Lemma deriveYear_spec releaseDate :
  deriveYear releaseDate
  = match releaseDate with
    | Some d => if String.eqb d "" then None else Some (before_first "/" d)
    | None => None
    end.
Proof.
  unfold deriveYear. destruct releaseDate as [d|]; [|reflexivity].
  simpl. destruct (String.eqb d ""); [reflexivity|apply first_split].
Qed.

Lemma deriveSetId_spec card :
  deriveSetId card
  = if truthy_str (nested_set_id card) then nested_set_id card
    else match PokemonCard.id card with
         | Some i => if String.eqb i "" then nested_set_id card
                     else Some (before_first "-" i)
         | None => nested_set_id card
         end.
Proof.
  unfold deriveSetId. fold (nested_set_id card).
  destruct (truthy_str (nested_set_id card)); simpl; [reflexivity|].
  destruct (PokemonCard.id card) as [i|]; simpl; [|reflexivity].
  destruct (String.eqb i ""); simpl; [reflexivity|apply first_split].
Qed.

(** What [insertSet.run] leaves in the table when it returns. *)
Lemma insertSets_body_returned set db db' :
  insertSets_body set db = (db', Returned tt) ->
  exists row,
    db' = with_sets
            (List.filter (fun old => negb (text_eq (SetRow.id old)
                                                   (SetInfo.id set)))
                         (sets db) ++ [row])%list db
    /\ SetRow.id row = SetInfo.id set
    /\ SetRow.name row = SetInfo.name set
    /\ SetRow.releaseDate row = SetInfo.releaseDate set
    /\ SetRow.year row = deriveYear (SetInfo.releaseDate set).
Proof.
  unfold insertSets_body, insertSet_run.
  destruct (integer_cell (lookup_field "printedTotal" _)); simpl;
    [|discriminate].
  destruct (integer_cell (lookup_field "total" _)); simpl; [|discriminate].
  destruct (text_cell (lookup_field "ptcgoCode" _)); simpl; [|discriminate].
  destruct (text_cell (lookup_field "updatedAt" _)); simpl; [|discriminate].
  destruct (SetInfo.name set) eqn:Hname; [|discriminate].
  intros [= <-]. eexists. split; [reflexivity|].
  simpl. repeat split.
Qed.

End Normalizer.

Section NormalizerClaims.

(** C9 (as stated, refuted).  A set whose release date is present but empty
    is stored with a NULL year, not with the (empty) text before the first
    slash. *)
Lemma year_of_empty_releaseDate_is_null :
  SetInfo.releaseDate undated_set = Some ""
  /\ exists row,
       sets (fst (migrateSets (offline [Parsed [undated_set]] []) empty_db))
       = [row]
       /\ SetRow.year row = None
       /\ ~ year_as_claimed undated_set row.
Proof.
  split; [reflexivity|]. eexists. split; [reflexivity|].
  split; [reflexivity|]. unfold year_as_claimed. simpl. discriminate.
Qed.

(** C9 (amended).  For every set record that is stored, the stored year is
    the text of releaseDate before the first slash when releaseDate is present
    and not empty, and NULL when releaseDate is absent or empty. *)
Theorem year_stored_at_ingestion (set : SetInfo.t) (db db' : Db)
  (Hrun : insertSets_body set db = (db', Returned tt)) :
  exists row,
    sets db'
    = (List.filter (fun old => negb (text_eq (SetRow.id old) (SetInfo.id set)))
                   (sets db) ++ [row])%list
    /\ SetRow.id row = SetInfo.id set
    /\ (forall d, SetInfo.releaseDate set = Some d -> d <> "" ->
                  SetRow.year row = Some (before_first "/" d))
    /\ (SetInfo.releaseDate set = None \/ SetInfo.releaseDate set = Some "" ->
        SetRow.year row = None).
Proof.
  destruct (insertSets_body_returned _ _ _ Hrun)
    as [row [-> [Hid [_ [_ Hyear]]]]].
  exists row. split; [reflexivity|]. split; [assumption|].
  rewrite Hyear, deriveYear_spec. split.
  - intros d -> Hd. apply String.eqb_neq in Hd. rewrite Hd. reflexivity.
  - intros [->| ->]; reflexivity.
Qed.

Lemma year_stored_at_ingestion_witness :
  insertSets_body sv2 empty_db
  = (fst (insertSets_body sv2 empty_db), Returned tt)
  /\ exists row,
       sets (fst (insertSets_body sv2 empty_db))
       = (List.filter (fun old => negb (text_eq (SetRow.id old)
                                                (SetInfo.id sv2)))
                      (sets empty_db) ++ [row])%list
       /\ SetRow.id row = SetInfo.id sv2
       /\ (forall d, SetInfo.releaseDate sv2 = Some d -> d <> "" ->
                     SetRow.year row = Some (before_first "/" d))
       /\ (SetInfo.releaseDate sv2 = None \/ SetInfo.releaseDate sv2 = Some "" ->
           SetRow.year row = None).
Proof.
  split; [reflexivity|].
  apply (year_stored_at_ingestion sv2 empty_db). reflexivity.
Defined.

Example year_of_2023_03_31 :
  List.map SetRow.year
    (sets (fst (migrateSets (offline [Parsed [sv2]] []) empty_db)))
  = [Some "2023"].
Proof. reflexivity. Qed.

End NormalizerClaims.

Section CardRows.

(** The row [insertCard.run] adds when it returns: the cells bound from the
    record, column by column. *)
Lemma insertCards_body_returned card db db' :
  insertCards_body card db = (db', Returned tt) ->
  exists supertype level hp evolvesFrom convertedRetreatCost number artist
         flavorText,
    let ex := PokemonCard.extra card in
    text_cell (lookup_field "supertype" ex) = Returned supertype
    /\ text_cell (lookup_field "level" ex) = Returned level
    /\ text_cell (lookup_field "hp" ex) = Returned hp
    /\ text_cell (lookup_field "evolvesFrom" ex) = Returned evolvesFrom
    /\ integer_cell (lookup_field "convertedRetreatCost" ex)
       = Returned convertedRetreatCost
    /\ text_cell (lookup_field "number" ex) = Returned number
    /\ text_cell (lookup_field "artist" ex) = Returned artist
    /\ text_cell (lookup_field "flavorText" ex) = Returned flavorText
    /\ db' = with_cards
               (List.filter (fun old => negb (text_eq (CardRow.id old)
                                                      (PokemonCard.id card)))
                            (cards db)
                ++ [CardRow.mk
                      (PokemonCard.id card) (PokemonCard.name card) supertype
                      (Some (JSON_stringify
                               (arr_or_empty (PokemonCard.subtypes card))))
                      level hp
                      (Some (JSON_stringify
                               (arr_or_empty (PokemonCard.types card))))
                      evolvesFrom
                      (stringify_or_empty "evolvesTo" card)
                      (stringify_or_empty "abilities" card)
                      (stringify_or_empty "attacks" card)
                      (stringify_or_empty "weaknesses" card)
                      (stringify_or_empty "resistances" card)
                      (stringify_or_empty "retreatCost" card)
                      convertedRetreatCost number artist
                      (PokemonCard.rarity card) flavorText
                      (Some (JSON_stringify
                               (arr_or_empty
                                  (PokemonCard.nationalPokedexNumbers card))))
                      (JSON_stringify_opt (lookup_field "legalities" ex))
                      (JSON_stringify_opt (lookup_field "images" ex))
                      (stringify_or_empty "rules" card)
                      (deriveSetId card)])%list db.
Proof.
  unfold insertCards_body, insertCard_run.
  destruct (text_cell (lookup_field "supertype" _)) as [supertype|];
    simpl; [|discriminate].
  destruct (text_cell (lookup_field "level" _)) as [level|];
    simpl; [|discriminate].
  destruct (text_cell (lookup_field "hp" _)) as [hp|]; simpl; [|discriminate].
  destruct (text_cell (lookup_field "evolvesFrom" _)) as [evolvesFrom|];
    simpl; [|discriminate].
  destruct (integer_cell (lookup_field "convertedRetreatCost" _)) as [crc|];
    simpl; [|discriminate].
  destruct (text_cell (lookup_field "number" _)) as [number|];
    simpl; [|discriminate].
  destruct (text_cell (lookup_field "artist" _)) as [artist|];
    simpl; [|discriminate].
  destruct (text_cell (lookup_field "flavorText" _)) as [flavorText|];
    simpl; [|discriminate].
  destruct (PokemonCard.name card); [|discriminate].
  match goal with |- context [if ?b then _ else _] => destruct b end;
    [|discriminate].
  intros [= <-].
  exists supertype, level, hp, evolvesFrom, crc, number, artist, flavorText.
  repeat split.
Qed.

(** C3 (as stated, refuted).  A card whose nested set is present with an
    empty id is not stored with that id: the setId is derived from the card
    identifier, as for a card without a nested set. *)
Lemma setId_of_blank_nested_set_is_derived :
  nested_set_id card_with_blank_set = Some ""
  /\ exists row,
       cards (fst (migrate (offline [Parsed [base1]]
                                    [Parsed [card_with_blank_set]]) empty_db))
       = [row]
       /\ CardRow.setId row = Some "base1"
       /\ ~ setId_as_claimed card_with_blank_set row.
Proof.
  split; [reflexivity|]. eexists. split; [reflexivity|].
  split; [reflexivity|]. unfold setId_as_claimed. simpl. discriminate.
Qed.

(** C3 (amended).  For every card record that is stored: when its nested set
    reference is absent or empty and its identifier is a non-empty string, the
    stored setId is the text of the identifier before the first hyphen; when
    the nested set reference is present and not empty, it is stored
    unchanged. *)
Theorem setId_stored_at_ingestion (card : PokemonCard.t) (db db' : Db)
  (Hrun : insertCards_body card db = (db', Returned tt)) :
  exists row,
    cards db'
    = (List.filter (fun old => negb (text_eq (CardRow.id old)
                                             (PokemonCard.id card)))
                   (cards db) ++ [row])%list
    /\ CardRow.id row = PokemonCard.id card
    /\ (forall i,
          nested_set_id card = None \/ nested_set_id card = Some "" ->
          PokemonCard.id card = Some i -> i <> "" ->
          CardRow.setId row = Some (before_first "-" i))
    /\ (forall sid,
          nested_set_id card = Some sid -> sid <> "" ->
          CardRow.setId row = Some sid).
Proof.
  destruct (insertCards_body_returned _ _ _ Hrun)
    as (supertype & level & hp & evolvesFrom & crc & number & artist
        & flavorText & _ & _ & _ & _ & _ & _ & _ & _ & ->).
  eexists. split; [reflexivity|]. split; [reflexivity|].
  cbn [CardRow.setId]. rewrite deriveSetId_spec. split.
  - intros i Hset -> Hi. apply String.eqb_neq in Hi.
    destruct Hset as [-> | ->]; simpl; rewrite Hi; reflexivity.
  - intros sid -> Hsid. apply String.eqb_neq in Hsid. simpl.
    rewrite Hsid. reflexivity.
Qed.

Lemma setId_stored_at_ingestion_witness :
  let db := fst (migrateSets (offline [Parsed [base1]] []) empty_db) in
  insertCards_body alakazam db = (fst (insertCards_body alakazam db), Returned tt)
  /\ exists row,
       cards (fst (insertCards_body alakazam db))
       = (List.filter (fun old => negb (text_eq (CardRow.id old)
                                                (PokemonCard.id alakazam)))
                      (cards db) ++ [row])%list
       /\ CardRow.id row = PokemonCard.id alakazam
       /\ (forall i,
             nested_set_id alakazam = None \/ nested_set_id alakazam = Some "" ->
             PokemonCard.id alakazam = Some i -> i <> "" ->
             CardRow.setId row = Some (before_first "-" i))
       /\ (forall sid,
             nested_set_id alakazam = Some sid -> sid <> "" ->
             CardRow.setId row = Some sid).
Proof.
  intros db. split; [reflexivity|].
  apply (setId_stored_at_ingestion alakazam db). reflexivity.
Defined.

End CardRows.

(** ** The outer join of the listing *)

Section Listing.

Lemma filter_nil {A} (f : A -> bool) (l : list A) :
  (forall x, In x l -> f x = false) -> List.filter f l = [].
Proof.
  induction l as [|x l IH]; intros Hf; simpl; [reflexivity|].
  rewrite (Hf x) by (left; reflexivity).
  apply IH. intros y Hy. apply Hf. right. exact Hy.
Qed.

Lemma left_join_unmatched db row :
  In row (cards db) ->
  (forall s, In s (sets db) ->
             text_eq (CardRow.setId row) (SetRow.id s) = false) ->
  In (JoinedRow.mk row None None None None None) (left_join_sets db).
Proof.
  intros Hrow Hno. unfold left_join_sets. apply List.in_flat_map.
  exists row. split; [assumption|].
  rewrite filter_nil by assumption. left. reflexivity.
Qed.


(** C10 (as stated, refuted).  The nested set of a listed card without a
    matching set has the empty object for images, not null: on a store the
    migration produces, and on a store whose card refers to a missing set. *)
Lemma unmatched_set_images_is_empty_object :
  (exists row card,
      cards (fst (migrate (offline [] [Parsed [loose_card]]) empty_db)) = [row]
      /\ getAllCards None
           (fst (migrate (offline [] [Parsed [loose_card]]) empty_db))
         = [card]
      /\ option_map (fun s => lookup_field "images" (SetInfo.extra s))
                    (PokemonCard.set card)
         = Some (Some (JObj []))
      /\ PokemonCard.set card <> Some (unmatched_set_as_claimed row))
  /\ (exists card,
         getAllCards None dangling_db = [card]
         /\ option_map (fun s => lookup_field "images" (SetInfo.extra s))
                       (PokemonCard.set card)
            = Some (Some (JObj []))
         /\ PokemonCard.set card
            <> Some (unmatched_set_as_claimed dangling_row)).
Proof.
  split.
  - do 2 eexists. split; [reflexivity|]. split; [reflexivity|].
    split; [reflexivity|]. discriminate.
  - eexists. split; [reflexivity|]. split; [reflexivity|]. discriminate.
Qed.

(** C10 (amended).  For every stored card whose setId matches no row of the
    sets table, the unfiltered listing still returns the card, with a nested
    set that carries the stored setId as id, null for name, series,
    releaseDate and year, the empty object for images, and total 0. *)
Theorem unmatched_card_is_listed (db : Db) (row : CardRow.t)
  (Hrow : In row (cards db))
  (Hno : forall s, In s (sets db) ->
                   text_eq (CardRow.setId row) (SetRow.id s) = false) :
  exists card,
    In card (getAllCards None db)
    /\ card = transformCardRow (JoinedRow.mk row None None None None None)
    /\ PokemonCard.id card = CardRow.id row
    /\ PokemonCard.set card
       = Some {| SetInfo.id := CardRow.setId row;
                 SetInfo.name := None;
                 SetInfo.series := None;
                 SetInfo.year := None;
                 SetInfo.releaseDate := None;
                 SetInfo.extra := [("total", JNum 0); ("images", JObj [])] |}.
Proof.
  eexists. split; [|split; [reflexivity|split; reflexivity]].
  rewrite getAllCards_unfiltered. apply List.in_map.
  apply left_join_unmatched; assumption.
Qed.

Lemma unmatched_card_is_listed_witness :
  In dangling_row (cards dangling_db)
  /\ (forall s, In s (sets dangling_db) ->
                text_eq (CardRow.setId dangling_row) (SetRow.id s) = false)
  /\ exists card,
       In card (getAllCards None dangling_db)
       /\ card = transformCardRow
                   (JoinedRow.mk dangling_row None None None None None)
       /\ PokemonCard.id card = CardRow.id dangling_row
       /\ PokemonCard.set card
          = Some {| SetInfo.id := CardRow.setId dangling_row;
                    SetInfo.name := None;
                    SetInfo.series := None;
                    SetInfo.year := None;
                    SetInfo.releaseDate := None;
                    SetInfo.extra := [("total", JNum 0); ("images", JObj [])] |}.
Proof.
  assert (Hrow : In dangling_row (cards dangling_db))
    by (left; reflexivity).
  assert (Hno : forall s, In s (sets dangling_db) ->
                  text_eq (CardRow.setId dangling_row) (SetRow.id s) = false)
    by (intros s []).
  split; [exact Hrow|]. split; [exact Hno|].
  exact (unmatched_card_is_listed dangling_db dangling_row Hrow Hno).
Defined.

End Listing.

(** ** Round trip of a card *)

Section RoundTrip.









End RoundTrip.

(** ** Isolation of the migration steps *)

Section Isolation.

Variable ign : table -> bool.

Lemma same_outside_refl db : same_outside ign db db.
Proof. unfold same_outside. tauto. Qed.

Lemma same_outside_sym db1 db2 :
  same_outside ign db1 db2 -> same_outside ign db2 db1.
Proof. unfold same_outside. intuition (symmetry; auto). Qed.

Lemma same_outside_trans db1 db2 db3 :
  same_outside ign db1 db2 -> same_outside ign db2 db3 ->
  same_outside ign db1 db3.
Proof. unfold same_outside. intuition (etransitivity; eauto). Qed.

(** *** Statements run on two stores *)

Lemma related_ret {A} (a : A) : related ign (ret a) (ret a).
Proof. intros db1 db2 H. simpl. auto. Qed.

Lemma related_lift {A} (o1 o2 : outcome A) :
  o1 = o2 -> related ign (lift o1) (lift o2).
Proof. intros -> db1 db2 H. simpl. auto. Qed.

Lemma related_bind {A B} (m1 m2 : M A) (k1 k2 : A -> M B) :
  related ign m1 m2 ->
  (forall a, related ign (k1 a) (k2 a)) ->
  related ign (bind m1 k1) (bind m2 k2).
Proof.
  intros Hm Hk db1 db2 H. unfold bind.
  destruct (Hm db1 db2 H) as [Hdb Hout].
  destruct (m1 db1) as [db1' [a1|e1]], (m2 db2) as [db2' [a2|e2]];
    simpl in *; try congruence.
  - injection Hout as ->. apply Hk, Hdb.
  - split; [assumption|congruence].
Qed.

Lemma related_try_catch {A} (m1 m2 h1 h2 : M A) :
  related ign m1 m2 -> related ign h1 h2 ->
  related ign (try_catch m1 h1) (try_catch m2 h2).
Proof.
  intros Hm Hh db1 db2 H. unfold try_catch.
  destruct (Hm db1 db2 H) as [Hdb Hout].
  destruct (m1 db1) as [db1' [a1|e1]], (m2 db2) as [db2' [a2|e2]];
    simpl in *; try congruence.
  - auto.
  - apply Hh, Hdb.
Qed.

Lemma related_transaction {A} (m1 m2 : M A) :
  related ign m1 m2 -> related ign (transaction m1) (transaction m2).
Proof.
  intros Hm db1 db2 H. unfold transaction.
  destruct (Hm db1 db2 H) as [Hdb Hout].
  destruct (m1 db1) as [db1' [a1|e1]], (m2 db2) as [db2' [a2|e2]];
    simpl in *; try congruence; auto.
Qed.

Lemma related_for_of {X} (xs : list X) (body1 body2 : X -> M unit) :
  (forall x, related ign (body1 x) (body2 x)) ->
  related ign (for_of xs body1) (for_of xs body2).
Proof.
  intros Hbody. induction xs as [|x xs IH]; simpl.
  - apply related_ret.
  - apply related_bind; [apply Hbody|]. intros _. apply IH.
Qed.

Lemma related_run_insert sch get put fk args :
  (forall db1 db2, same_outside ign db1 db2 -> get db1 = get db2) ->
  (forall db1 db2 r, same_outside ign db1 db2 -> fk db1 r = fk db2 r) ->
  (forall db1 db2 v, same_outside ign db1 db2 ->
                     same_outside ign (put v db1) (put v db2)) ->
  related ign (run_insert sch get put fk args)
              (run_insert sch get put fk args).
Proof.
  intros Hget Hfk Hput db1 db2 H. unfold run_insert.
  rewrite (Hget db1 db2 H).
  destruct (obind (sequence args) _) as [r|e]; simpl; [|auto].
  rewrite (Hfk db1 db2 r H). destruct (fk db2 r); simpl; auto.
Qed.

(** *** Statements that stay inside the ignored tables *)

Lemma touches_only_ret {A} (a : A) : touches_only ign (ret a).
Proof. intros db. apply same_outside_refl. Qed.

Lemma touches_only_lift {A} (o : outcome A) : touches_only ign (lift o).
Proof. intros db. apply same_outside_refl. Qed.

Lemma touches_only_bind {A B} (m : M A) (k : A -> M B) :
  touches_only ign m -> (forall a, touches_only ign (k a)) ->
  touches_only ign (bind m k).
Proof.
  intros Hm Hk db. unfold bind. specialize (Hm db).
  destruct (m db) as [db' [a|e]]; simpl in *; [|assumption].
  eapply same_outside_trans; [exact Hm|apply Hk].
Qed.

Lemma touches_only_try_catch {A} (m h : M A) :
  touches_only ign m -> touches_only ign h ->
  touches_only ign (try_catch m h).
Proof.
  intros Hm Hh db. unfold try_catch. specialize (Hm db).
  destruct (m db) as [db' [a|e]]; simpl in *; [assumption|].
  eapply same_outside_trans; [exact Hm|apply Hh].
Qed.

Lemma touches_only_transaction {A} (m : M A) :
  touches_only ign m -> touches_only ign (transaction m).
Proof.
  intros Hm db. unfold transaction. specialize (Hm db).
  destruct (m db) as [db' [a|e]]; simpl in *;
    [assumption|apply same_outside_refl].
Qed.

Lemma touches_only_for_of {X} (xs : list X) (body : X -> M unit) :
  (forall x, touches_only ign (body x)) -> touches_only ign (for_of xs body).
Proof.
  intros Hbody. induction xs as [|x xs IH]; simpl.
  - apply touches_only_ret.
  - apply touches_only_bind; [apply Hbody|]. intros _. apply IH.
Qed.

Lemma touches_only_run_insert sch get put fk args :
  (forall db v, same_outside ign db (put v db)) ->
  touches_only ign (run_insert sch get put fk args).
Proof.
  intros Hput db. unfold run_insert.
  destruct (obind (sequence args) _) as [r|e]; simpl;
    [|apply same_outside_refl].
  destruct (fk db r); simpl; [apply Hput|apply same_outside_refl].
Qed.

(** A step that stays inside the ignored tables and never throws can be
    exchanged for another such step. *)
Lemma related_of_touches_only (m1 m2 : M unit) :
  touches_only ign m1 -> touches_only ign m2 ->
  always_returns m1 -> always_returns m2 ->
  related ign m1 m2.
Proof.
  intros H1 H2 R1 R2 db1 db2 H. split.
  - eapply same_outside_trans; [|apply H2].
    eapply same_outside_trans; [|exact H].
    apply same_outside_sym, H1.
  - rewrite R1, R2. reflexivity.
Qed.

End Isolation.

Ltac same_outside_tac :=
  unfold same_outside in *; simpl in *; intuition congruence.

Section Steps.

Lemma always_returns_try_catch (m : M unit) :
  always_returns (try_catch m (ret tt)).
Proof.
  intros db. unfold try_catch, ret.
  destruct (m db) as [db' [[]|e]]; reflexivity.
Qed.

(** Every step fed by an external source catches its failure. *)
Lemma external_step_returns k env : always_returns (step_of k env).
Proof. destruct k; apply always_returns_try_catch. Qed.

(** *** The steps write their own tables only *)

Lemma touches_only_insertTypes ign types :
  ign T_pokemon_types = true -> touches_only ign (insertTypes types).
Proof.
  intros Hign. unfold insertTypes.
  apply touches_only_transaction, touches_only_bind;
    [apply touches_only_lift|]. intros items.
  apply touches_only_for_of. intros type. unfold insertType_run.
  apply touches_only_run_insert. intros db v. same_outside_tac.
Qed.

Lemma touches_only_insertMoves ign moves :
  ign T_pokemon_moves = true -> touches_only ign (insertMoves moves).
Proof.
  intros Hign. unfold insertMoves.
  apply touches_only_transaction, touches_only_bind;
    [apply touches_only_lift|]. intros items.
  apply touches_only_for_of. intros move. unfold insertMove_run.
  apply touches_only_run_insert. intros db v. same_outside_tac.
Qed.

Lemma touches_only_insertAbilities ign abilities :
  ign T_pokemon_abilities = true ->
  touches_only ign (insertAbilities abilities).
Proof.
  intros Hign. unfold insertAbilities.
  apply touches_only_transaction, touches_only_bind;
    [apply touches_only_lift|]. intros items.
  apply touches_only_for_of. intros ability. unfold insertAbility_run.
  apply touches_only_run_insert. intros db v. same_outside_tac.
Qed.

Lemma touches_only_insertSpeciesBatch ign pokemon :
  ign T_pokemon_species = true ->
  touches_only ign (insertSpeciesBatch pokemon).
Proof.
  intros Hign. unfold insertSpeciesBatch.
  apply touches_only_transaction, touches_only_bind;
    [apply touches_only_lift|]. intros items.
  apply touches_only_for_of. intros pkmn. unfold insertSpecies_run.
  apply touches_only_run_insert. intros db v. same_outside_tac.
Qed.

Lemma touches_only_insertEntriesTransaction ign pokedexData entries :
  ign T_pokedex_entries = true ->
  touches_only ign (insertEntriesTransaction pokedexData entries).
Proof.
  intros Hign. unfold insertEntriesTransaction.
  apply touches_only_transaction, touches_only_bind;
    [apply touches_only_lift|]. intros items.
  apply touches_only_for_of. intros entry. unfold insertEntry_run.
  apply touches_only_run_insert. intros db v. same_outside_tac.
Qed.

Lemma touches_only_migratePokedex ign env pokedexRef :
  ign T_pokedexes = true -> ign T_pokedex_entries = true ->
  touches_only ign (migratePokedex env pokedexRef).
Proof.
  intros Hp He. unfold migratePokedex.
  apply touches_only_bind; [apply touches_only_lift|]. intros _.
  apply touches_only_bind; [apply touches_only_lift|]. intros url.
  apply touches_only_bind; [apply touches_only_lift|]. intros pokedexData.
  apply touches_only_bind.
  { unfold insertPokedex_of, insertPokedex_run.
    apply touches_only_run_insert. intros db v. same_outside_tac. }
  intros _. apply touches_only_bind; [apply touches_only_lift|].
  intros entries. destruct (truthy_opt entries); [|apply touches_only_ret].
  apply touches_only_bind; [apply touches_only_lift|]. intros len.
  destruct (gt_zero len); [|apply touches_only_ret].
  apply touches_only_insertEntriesTransaction, He.
Qed.

Lemma touches_only_step ign k env :
  (forall t, owned k t = true -> ign t = true) ->
  touches_only ign (step_of k env).
Proof.
  intros Hign. destruct k; simpl.
  - unfold migratePokemonTypes.
    apply touches_only_try_catch; [|apply touches_only_ret].
    apply touches_only_bind; [apply touches_only_lift|]. intros types.
    apply touches_only_insertTypes, Hign. reflexivity.
  - unfold migratePokemonMoves.
    apply touches_only_try_catch; [|apply touches_only_ret].
    apply touches_only_bind; [apply touches_only_lift|]. intros moves.
    apply touches_only_insertMoves, Hign. reflexivity.
  - unfold migratePokemonAbilities.
    apply touches_only_try_catch; [|apply touches_only_ret].
    apply touches_only_bind; [apply touches_only_lift|]. intros abilities.
    apply touches_only_insertAbilities, Hign. reflexivity.
  - unfold migratePokemonSpecies.
    apply touches_only_try_catch; [|apply touches_only_ret].
    apply touches_only_bind; [apply touches_only_lift|]. intros pokemon.
    apply touches_only_insertSpeciesBatch, Hign. reflexivity.
  - unfold migratePokedexes.
    apply touches_only_try_catch; [|apply touches_only_ret].
    apply touches_only_bind; [apply touches_only_lift|]. intros pokedexList.
    apply touches_only_bind; [apply touches_only_lift|]. intros results.
    apply touches_only_for_of. intros pokedexRef. unfold tryPokedex.
    apply touches_only_try_catch.
    + apply touches_only_migratePokedex; apply Hign; reflexivity.
    + apply touches_only_bind; [apply touches_only_lift|]. intros _.
      apply touches_only_ret.
Qed.

Lemma touches_only_migrateDecks ign env :
  ign T_decks = true -> touches_only ign (migrateDecks env).
Proof.
  intros Hign. unfold migrateDecks.
  apply touches_only_try_catch; [|apply touches_only_ret].
  destruct (deckFiles env) as [|f files]; [apply touches_only_ret|].
  apply touches_only_for_of. intros [deckFile content].
  apply touches_only_bind; [apply touches_only_lift|]. intros decks.
  apply touches_only_bind; [apply touches_only_lift|]. intros normalized.
  unfold insertDecks. apply touches_only_transaction, touches_only_for_of.
  intros deck. unfold insertDeck_run. apply touches_only_run_insert.
  intros db v. same_outside_tac.
Qed.

(** *** The steps read their own tables only *)

Lemma related_batch ign sch get put (items : outcome (list json))
  (args : json -> list (outcome cell)) :
  (forall db1 db2, same_outside ign db1 db2 -> get db1 = get db2) ->
  (forall db1 db2 v, same_outside ign db1 db2 ->
                     same_outside ign (put v db1) (put v db2)) ->
  related ign
    (transaction (xs <- lift items ;;
                  for_of xs (fun x => run_insert sch get put no_fk (args x))))
    (transaction (xs <- lift items ;;
                  for_of xs (fun x => run_insert sch get put no_fk (args x)))).
Proof.
  intros Hget Hput.
  apply related_transaction, related_bind; [apply related_lift; reflexivity|].
  intros xs. apply related_for_of. intros x.
  apply related_run_insert; [assumption|reflexivity|assumption].
Qed.

Lemma related_migratePokemonTypes ign env1 env2 :
  fetch_types env1 = fetch_types env2 -> ign T_pokemon_types = false ->
  related ign (migratePokemonTypes env1) (migratePokemonTypes env2).
Proof.
  intros Hsrc Hign. unfold migratePokemonTypes. rewrite Hsrc.
  apply related_try_catch; [|apply related_ret].
  apply related_bind; [apply related_lift; reflexivity|]. intros types.
  apply related_batch; intros; same_outside_tac.
Qed.

Lemma related_migratePokemonMoves ign env1 env2 :
  fetch_moves env1 = fetch_moves env2 -> ign T_pokemon_moves = false ->
  related ign (migratePokemonMoves env1) (migratePokemonMoves env2).
Proof.
  intros Hsrc Hign. unfold migratePokemonMoves. rewrite Hsrc.
  apply related_try_catch; [|apply related_ret].
  apply related_bind; [apply related_lift; reflexivity|]. intros moves.
  apply related_batch; intros; same_outside_tac.
Qed.

Lemma related_migratePokemonAbilities ign env1 env2 :
  fetch_abilities env1 = fetch_abilities env2 ->
  ign T_pokemon_abilities = false ->
  related ign (migratePokemonAbilities env1) (migratePokemonAbilities env2).
Proof.
  intros Hsrc Hign. unfold migratePokemonAbilities. rewrite Hsrc.
  apply related_try_catch; [|apply related_ret].
  apply related_bind; [apply related_lift; reflexivity|]. intros abilities.
  apply related_batch; intros; same_outside_tac.
Qed.

Lemma related_migratePokemonSpecies ign env1 env2 :
  fetch_species env1 = fetch_species env2 ->
  ign T_pokemon_species = false ->
  related ign (migratePokemonSpecies env1) (migratePokemonSpecies env2).
Proof.
  intros Hsrc Hign. unfold migratePokemonSpecies. rewrite Hsrc.
  apply related_try_catch; [|apply related_ret].
  apply related_bind; [apply related_lift; reflexivity|]. intros pokemon.
  apply related_batch; intros; same_outside_tac.
Qed.

Lemma related_migratePokedexes ign env1 env2 :
  fetch_pokedex_list env1 = fetch_pokedex_list env2 ->
  (forall url, fetch_pokedex env1 url = fetch_pokedex env2 url) ->
  ign T_pokedexes = false -> ign T_pokedex_entries = false ->
  related ign (migratePokedexes env1) (migratePokedexes env2).
Proof.
  intros Hlist Hfetch Hp He. unfold migratePokedexes. rewrite Hlist.
  apply related_try_catch; [|apply related_ret].
  apply related_bind; [apply related_lift; reflexivity|]. intros pokedexList.
  apply related_bind; [apply related_lift; reflexivity|]. intros results.
  apply related_for_of. intros pokedexRef. unfold tryPokedex.
  apply related_try_catch.
  - unfold migratePokedex.
    apply related_bind; [apply related_lift; reflexivity|]. intros _.
    apply related_bind; [apply related_lift; reflexivity|]. intros url.
    apply related_bind; [apply related_lift; rewrite Hfetch; reflexivity|].
    intros pokedexData. apply related_bind.
    { unfold insertPokedex_of, insertPokedex_run.
      apply related_run_insert; [| reflexivity |]; intros; same_outside_tac. }
    intros _. apply related_bind; [apply related_lift; reflexivity|].
    intros entries. destruct (truthy_opt entries); [|apply related_ret].
    apply related_bind; [apply related_lift; reflexivity|]. intros len.
    destruct (gt_zero len); [|apply related_ret].
    unfold insertEntriesTransaction.
    apply related_transaction, related_bind;
      [apply related_lift; reflexivity|].
    intros items. apply related_for_of. intros entry. unfold insertEntry_run.
    apply related_run_insert.
    + intros; same_outside_tac.
    + intros db1 db2 r H. unfold entry_fk.
      replace (pokedexes db1) with (pokedexes db2) by same_outside_tac.
      reflexivity.
    + intros; same_outside_tac.
  - apply related_bind; [apply related_lift; reflexivity|]. intros _.
    apply related_ret.
Qed.

Lemma related_migrateSets ign env1 env2 :
  setFiles env1 = setFiles env2 -> ign T_sets = false ->
  related ign (migrateSets env1) (migrateSets env2).
Proof.
  intros Hsrc Hign. unfold migrateSets. rewrite Hsrc.
  apply related_bind; [apply related_lift; reflexivity|]. intros batch.
  unfold insertSets. apply related_transaction, related_for_of. intros set.
  intros db1 db2 H. unfold insertSets_body, insertSet_run.
  replace (sets db1) with (sets db2) by same_outside_tac.
  destruct (obind _ _) as [row|e]; simpl; [|auto].
  destruct (SetInfo.name set); simpl; [|auto].
  split; [same_outside_tac|reflexivity].
Qed.

Lemma related_migrateCards ign env1 env2 :
  cardFiles env1 = cardFiles env2 ->
  ign T_sets = false -> ign T_cards = false ->
  related ign (migrateCards env1) (migrateCards env2).
Proof.
  intros Hsrc Hs Hc. unfold migrateCards. rewrite Hsrc.
  apply related_bind; [apply related_lift; reflexivity|]. intros batch.
  unfold insertCards. apply related_transaction, related_for_of. intros card.
  intros db1 db2 H. unfold insertCards_body, insertCard_run.
  replace (sets db1) with (sets db2) by same_outside_tac.
  replace (cards db1) with (cards db2)
    by same_outside_tac.
  destruct (obind _ _) as [row|e]; simpl; [|auto].
  destruct (PokemonCard.name card); simpl; [|auto].
  match goal with |- context [if ?b then _ else _] => destruct b end;
    simpl; [|auto].
  split; [same_outside_tac|reflexivity].
Qed.

Lemma related_migrateDecks ign env1 env2 :
  deckFiles env1 = deckFiles env2 ->
  ign T_sets = false -> ign T_decks = false ->
  related ign (migrateDecks env1) (migrateDecks env2).
Proof.
  intros Hsrc Hs Hd. unfold migrateDecks. rewrite Hsrc.
  apply related_try_catch; [|apply related_ret].
  destruct (deckFiles env2) as [|f files]; [apply related_ret|].
  apply related_for_of. intros [deckFile content].
  apply related_bind; [apply related_lift; reflexivity|]. intros decks.
  apply related_bind; [apply related_lift; reflexivity|]. intros normalized.
  unfold insertDecks. apply related_transaction, related_for_of.
  intros deck. unfold insertDeck_run. apply related_run_insert.
  - intros; same_outside_tac.
  - intros db1 db2 r H. unfold deck_fk.
    replace (sets db1) with (sets db2)
      by same_outside_tac.
    reflexivity.
  - intros; same_outside_tac.
Qed.

End Steps.

Section Orchestrator.

Lemma related_step k j env1 env2 :
  same_source_except k env1 env2 ->
  related (owned k) (step_of j env1) (step_of j env2).
Proof.
  intros (_ & _ & _ & Ht & Hm & Ha & Hs & Hp).
  assert (Hdiag : related (owned k) (step_of k env1) (step_of k env2)).
  { apply related_of_touches_only;
      try apply touches_only_step; try apply external_step_returns; auto. }
  destruct k, j; try exact Hdiag; simpl.
  all: first
    [ apply related_migratePokemonTypes; [apply Ht; discriminate|reflexivity]
    | apply related_migratePokemonMoves; [apply Hm; discriminate|reflexivity]
    | apply related_migratePokemonAbilities;
        [apply Ha; discriminate|reflexivity]
    | apply related_migratePokemonSpecies;
        [apply Hs; discriminate|reflexivity]
    | apply related_migratePokedexes;
        [apply Hp; discriminate|apply Hp; discriminate
        |reflexivity|reflexivity] ].
Qed.

Lemma related_migrate k env1 env2 :
  same_source_except k env1 env2 ->
  related (owned k) (migrate env1) (migrate env2).
Proof.
  intros Hsrc. pose proof Hsrc as (Hsets & Hcards & Hdecks & _).
  unfold migrate, initializeSchema.
  apply related_bind; [apply related_ret|]. intros _.
  apply related_bind;
    [apply related_migrateSets; [assumption|destruct k; reflexivity]|].
  intros _.
  apply related_bind;
    [apply related_migrateCards; [assumption|destruct k; reflexivity..]|].
  intros _.
  apply related_bind;
    [apply related_migrateDecks; [assumption|destruct k; reflexivity..]|].
  intros _.
  apply related_bind; [apply (related_step k FromTypes), Hsrc|]. intros _.
  apply related_bind; [apply (related_step k FromMoves), Hsrc|]. intros _.
  apply related_bind; [apply (related_step k FromAbilities), Hsrc|]. intros _.
  apply related_bind; [apply (related_step k FromSpecies), Hsrc|]. intros _.
  apply (related_step k FromPokedexes), Hsrc.
Qed.

(** What follows the set and card steps leaves their tables alone. *)
Lemma migrate_local_tables env db :
  same_outside not_local
    (fst ((migrateSets env ;; migrateCards env) db))
    (fst (migrate env db)).
Proof.
  unfold migrate, initializeSchema, bind at 1 2 3 4 5, ret.
  destruct (migrateSets env db) as [db1 [[]|e]]; simpl;
    [|apply same_outside_refl].
  destruct (migrateCards env db1) as [db2 [[]|e]]; simpl;
    [|apply same_outside_refl].
  assert (Hrest : touches_only not_local
            (migrateDecks env ;;
             migratePokemonTypes env ;;
             migratePokemonMoves env ;;
             migratePokemonAbilities env ;;
             migratePokemonSpecies env ;;
             migratePokedexes env)).
  { apply touches_only_bind;
      [apply touches_only_migrateDecks; reflexivity|]. intros _.
    apply touches_only_bind;
      [apply (touches_only_step not_local FromTypes);
       intros []; simpl; congruence|]. intros _.
    apply touches_only_bind;
      [apply (touches_only_step not_local FromMoves);
       intros []; simpl; congruence|]. intros _.
    apply touches_only_bind;
      [apply (touches_only_step not_local FromAbilities);
       intros []; simpl; congruence|]. intros _.
    apply touches_only_bind;
      [apply (touches_only_step not_local FromSpecies);
       intros []; simpl; congruence|]. intros _.
    apply (touches_only_step not_local FromPokedexes).
    intros []; simpl; congruence. }
  apply Hrest.
Qed.

(** C6.  A failure of a step fed by an external source is caught inside the
    step: every such step returns normally whatever its requests answer.
    Two runs of the full migration that differ only in what the requests of
    one external step return (failure or success) end alike, and leave the
    same rows in every table that step does not own: the other steps run to
    completion as they would have.  In particular the sets and cards tables
    are the same, and they are what the set and card steps alone leave. *)
Theorem external_failure_is_isolated (k : external) (env1 env2 : Env) (db : Db)
  (Hsrc : same_source_except k env1 env2) :
  (forall j db0, snd (step_of j env1 db0) = Returned tt)
  /\ same_outside (owned k) (fst (migrate env1 db)) (fst (migrate env2 db))
  /\ snd (migrate env1 db) = snd (migrate env2 db)
  /\ sets (fst (migrate env1 db)) = sets (fst (migrate env2 db))
  /\ cards (fst (migrate env1 db)) = cards (fst (migrate env2 db))
  /\ sets (fst (migrate env1 db))
     = sets (fst ((migrateSets env1 ;; migrateCards env1) db))
  /\ cards (fst (migrate env1 db))
     = cards (fst ((migrateSets env1 ;; migrateCards env1) db)).
Proof.
  destruct (related_migrate k env1 env2 Hsrc db db (same_outside_refl _ db))
    as [Hdb Hout].
  pose proof (migrate_local_tables env1 db) as Hlocal.
  split; [intros j db0; apply external_step_returns|].
  split; [exact Hdb|]. split; [exact Hout|].
  split; [destruct k; apply Hdb; reflexivity|].
  split; [destruct k; apply Hdb; reflexivity|].
  split; symmetry; apply Hlocal; reflexivity.
Qed.

Lemma external_failure_is_isolated_witness :
  same_source_except FromSpecies species_down species_up
  /\ sets (fst (migrate species_down empty_db))
     = sets (fst (migrate species_up empty_db))
  /\ cards (fst (migrate species_down empty_db))
     = cards (fst (migrate species_up empty_db))
  /\ pokemon_types (fst (migrate species_down empty_db))
     = pokemon_types (fst (migrate species_up empty_db))
  /\ snd (migrate species_down empty_db) = snd (migrate species_up empty_db).
Proof.
  assert (Hsrc : same_source_except FromSpecies species_down species_up).
  { unfold same_source_except. simpl.
    repeat split; try reflexivity; intros H; try reflexivity;
      exfalso; apply H; reflexivity. }
  split; [exact Hsrc|].
  destruct (external_failure_is_isolated FromSpecies species_down species_up
              empty_db Hsrc)
    as (_ & Hsame & Hout & Hsets & Hcards & _).
  split; [exact Hsets|]. split; [exact Hcards|].
  split; [apply Hsame; reflexivity|exact Hout].
Defined.

End Orchestrator.

(** ** Reruns, atomicity and the pokedex entries *)

Section Batches.

Lemma next_rowid_above tbl old n :
  In old tbl -> key old = SqlInteger n -> n < next_rowid tbl.
Proof.
  unfold next_rowid. induction tbl as [|r tbl IH]; intros Hin Hkey;
    [destruct Hin|].
  simpl. destruct Hin as [->|Hin].
  - rewrite Hkey. lia.
  - specialize (IH Hin Hkey). destruct (key r); lia.
Qed.

Lemma next_rowid_fresh tbl old :
  In old tbl -> sql_eq (key old) (SqlInteger (next_rowid tbl)) = false.
Proof.
  intros Hin. destruct (key old) as [|n|s] eqn:Hkey; try reflexivity.
  simpl. apply Z.eqb_neq.
  pose proof (next_rowid_above tbl old n Hin Hkey). lia.
Qed.

Lemma filter_keeps_all {A} (f : A -> bool) (l : list A) :
  (forall x, In x l -> f x = true) -> List.filter f l = l.
Proof.
  induction l as [|x l IH]; intros Hf; simpl; [reflexivity|].
  rewrite (Hf x) by (left; reflexivity). f_equal.
  apply IH. intros y Hy. apply Hf. right. exact Hy.
Qed.

Lemma store_cells_null_key cols vals r :
  store_cells ((INTEGER, false) :: cols) (Scalar SqlNull :: vals) = Returned r ->
  exists rest, r = Scalar SqlNull :: rest.
Proof.
  cbn [store_cells store_cell apply_affinity].
  destruct (store_cells cols vals) as [rest|e]; simpl; [|discriminate].
  intros [= <-]. eauto.
Qed.

(** The statement on [pokedex_entries] never meets a conflict: the key it
    leaves out is given a fresh value, and the row is appended. *)
Lemma insertEntry_run_appends args db db' :
  insertEntry_run args db = (db', Returned tt) ->
  exists row, pokedex_entries db' = (pokedex_entries db ++ [row])%list.
Proof.
  unfold insertEntry_run, run_insert. cbn [sequence obind].
  destruct (sequence args) as [vals|e]; cbn [obind]; [|discriminate].
  unfold pokedex_entries_schema at 1. cbn [columns].
  destruct (store_cells _ (Scalar SqlNull :: vals)) as [r|e] eqn:Hstore;
    cbn [obind]; [|discriminate].
  apply store_cells_null_key in Hstore. destruct Hstore as [rest ->].
  unfold assign_key. cbn [integer_key pokedex_entries_schema].
  destruct (entry_fk db _); [|discriminate].
  intros [= <-]. eexists. cbn [pokedex_entries with_pokedex_entries].
  unfold replace_row. rewrite filter_keeps_all; [reflexivity|].
  intros old Hold. cbn [key]. rewrite next_rowid_fresh by assumption.
  reflexivity.
Qed.

(** C2 (the code misses it).  The insert into the pokedex entries names no
    key, so it never replaces a row: every entry it stores is appended.  On
    the data of one pokedex with two entries, a second run of the full
    migration leaves the sets, cards and pokedexes tables as the first did,
    but doubles the pokedex entries. *)
Theorem second_migration_duplicates_pokedex_entries :
  let env := pokeapi [("kanto", kanto)] in
  let once := fst (migrate env empty_db) in
  let twice := fst (migrate env once) in
  (forall args db db',
      insertEntry_run args db = (db', Returned tt) ->
      exists row, pokedex_entries db' = (pokedex_entries db ++ [row])%list)
  /\ snd (migrate env empty_db) = Returned tt
  /\ snd (migrate env once) = Returned tt
  /\ sets twice = sets once
  /\ cards twice = cards once
  /\ pokedexes twice = pokedexes once
  /\ List.length (pokedex_entries once) = 2%nat
  /\ List.length (pokedex_entries twice) = 4%nat
  /\ List.map (skipn 1) (pokedex_entries twice)
     = (List.map (skipn 1) (pokedex_entries once)
        ++ List.map (skipn 1) (pokedex_entries once))%list.
Proof.
  split; [exact insertEntry_run_appends|]. vm_compute. repeat split.
Qed.

Lemma atomic_transaction (m : M unit) : atomic (transaction m).
Proof.
  intros db db' e. unfold transaction.
  destruct (m db) as [db'' [[]|e']]; [discriminate|].
  intros [= <- _]. reflexivity.
Qed.

(** Reading the source before the transaction writes nothing. *)
Lemma atomic_after_load {A} (o : outcome A) (k : A -> M unit) :
  (forall a, atomic (k a)) -> atomic (a <- lift o ;; k a).
Proof.
  intros Hk db db' e. unfold bind, lift.
  destruct o as [a|e']; [apply Hk|]. intros [= <- _]. reflexivity.
Qed.

Lemma atomic_migrateSets env : atomic (migrateSets env).
Proof.
  apply atomic_after_load. intros batch. apply atomic_transaction.
Qed.

Lemma atomic_migrateCards env : atomic (migrateCards env).
Proof.
  apply atomic_after_load. intros batch. apply atomic_transaction.
Qed.

(** A step that catches the failure of its batch leaves the store as it was,
    or as the whole batch left it. *)
Lemma caught_batch (source : response) (batch : json -> M unit) db :
  (forall payload, atomic (batch payload)) ->
  let step := try_catch (payload <- lift (await_json source) ;; batch payload)
                        (ret tt) in
  fst (step db) = db
  \/ exists payload,
       source = Body payload
       /\ batch payload db = (fst (step db), Returned tt).
Proof.
  intros Hatomic. simpl. unfold try_catch, bind, lift, ret.
  destruct source as [| |payload]; simpl; [left; reflexivity..|].
  destruct (batch payload db) as [db' [[]|e]] eqn:Hrun; simpl.
  - right. exists payload. split; [reflexivity|]. rewrite Hrun. reflexivity.
  - left. apply (Hatomic payload db db' e Hrun).
Qed.

Lemma sequence_thrown {A} (args : list (outcome A)) e :
  In (Thrown e) args -> exists e', sequence args = Thrown e'.
Proof.
  induction args as [|o args IH]; intros Hin; [destruct Hin|].
  destruct Hin as [->|Hin]; simpl; [eauto|].
  destruct o as [a|e0]; simpl; [|eauto].
  destruct (IH Hin) as [e' ->]. simpl. eauto.
Qed.

Lemma for_of_throws {X} (xs : list X) (body : X -> M unit) :
  (exists x, In x xs /\ forall db, exists e, snd (body x db) = Thrown e) ->
  forall db, exists e, snd (for_of xs body db) = Thrown e.
Proof.
  induction xs as [|x0 xs IH]; intros [x [Hin Hthrows]] db;
    [destruct Hin|].
  simpl. unfold bind.
  destruct (body x0 db) as [db' [[]|e]] eqn:Hrun; simpl; [|eauto].
  destruct Hin as [<-|Hin].
  - destruct (Hthrows db) as [e He]. rewrite Hrun in He. discriminate.
  - apply IH. eauto.
Qed.

(** A batch with a row whose insert throws leaves nothing behind. *)
Lemma transaction_for_of_throws {X} (xs : list X) (body : X -> M unit) db :
  (exists x, In x xs /\ forall db0, exists e, snd (body x db0) = Thrown e) ->
  exists e, transaction (for_of xs body) db = (db, Thrown e).
Proof.
  intros Hbad. unfold transaction.
  destruct (for_of_throws xs body Hbad db) as [e He].
  destruct (for_of xs body db) as [db' [[]|e']]; simpl in He;
    [discriminate|]. eauto.
Qed.

Lemma insertSets_body_without_name set db :
  SetInfo.name set = None -> exists e, snd (insertSets_body set db) = Thrown e.
Proof.
  intros Hname. unfold insertSets_body, insertSet_run. rewrite Hname.
  destruct (obind _ _); simpl; eauto.
Qed.

Lemma insertCards_body_without_name card db :
  PokemonCard.name card = None ->
  exists e, snd (insertCards_body card db) = Thrown e.
Proof.
  intros Hname. unfold insertCards_body, insertCard_run. rewrite Hname.
  destruct (obind _ _); simpl; eauto.
Qed.

(** An entry whose url cannot be split makes the transaction over the
    entries of its pokedex throw, and nothing of it is written. *)
Lemma insertEntriesTransaction_throws pokedexData items db :
  (exists entry e, In entry items /\ speciesIdOfEntry entry = Thrown e) ->
  exists e,
    insertEntriesTransaction pokedexData (Some (JArr items)) db
    = (db, Thrown e).
Proof.
  intros (entry & e & Hin & Hbad).
  unfold insertEntriesTransaction, transaction, bind at 1, lift. simpl.
  destruct (for_of_throws items
              (fun entry =>
                 insertEntry_run
                   [ arg "id" pokedexData; arg "entry_number" entry;
                     speciesIdOfEntry entry;
                     obind (prop "pokemon_species" (Some entry))
                       (fun species =>
                          obind (prop "name" species)
                            (fun n => omap Scalar (bind_param n))) ])) with
    (db := db) as [e' He'].
  - exists entry. split; [assumption|]. intros db0.
    unfold insertEntry_run, run_insert. rewrite Hbad.
    destruct (sequence_thrown
                [ Returned (Scalar SqlNull); arg "id" pokedexData;
                  arg "entry_number" entry; Thrown e;
                  obind (prop "pokemon_species" (Some entry))
                    (fun species =>
                       obind (prop "name" species)
                         (fun n => omap Scalar (bind_param n))) ] e)
      as [e0 ->]; [simpl; tauto|].
    simpl. eauto.
  - destruct (for_of items _ db) as [db'' [[]|e'']]; simpl in He';
      [discriminate|]. eauto.
Qed.

Lemma rev_two {A} (l : list A) y x r :
  rev l = y :: x :: r -> l = (rev r ++ [x; y])%list.
Proof.
  intros H. apply (f_equal (@rev A)) in H. rewrite List.rev_involutive in H.
  subst l. simpl. rewrite <- List.app_assoc. reflexivity.
Qed.

(** [slice(-2, -1)[0]] is the element before the last. *)
Lemma first_slice_second_to_last {A} (l : list A) :
  first (slice (-2) (-1) l) = second_to_last l.
Proof.
  unfold second_to_last, slice.
  destruct (rev l) as [|y [|x r]] eqn:Hrev.
  - apply (f_equal (@rev A)) in Hrev. rewrite List.rev_involutive in Hrev.
    subst l. reflexivity.
  - apply (f_equal (@rev A)) in Hrev. rewrite List.rev_involutive in Hrev.
    subst l. reflexivity.
  - apply rev_two in Hrev. subst l.
    rewrite List.length_app. simpl List.length.
    replace (-2 <? 0) with true by reflexivity.
    replace (-1 <? 0) with true by reflexivity.
    replace (Z.to_nat (Z.max (Z.of_nat (List.length (rev r) + 2) + -1) 0
                       - Z.max (Z.of_nat (List.length (rev r) + 2) + -2) 0))
      with 1%nat by lia.
    replace (Z.to_nat (Z.max (Z.of_nat (List.length (rev r) + 2) + -2) 0))
      with (List.length (rev r) + 0)%nat by lia.
    rewrite List.skipn_app, List.skipn_all2 by lia.
    replace (List.length (rev r) + 0 - List.length (rev r))%nat with 0%nat
      by lia.
    reflexivity.
Qed.

End Batches.

Section BatchClaims.

(** C4 (as stated, refuted).  The rows of the pokedexes are written one by
    one outside any transaction: when the insert of the second pokedex fails,
    the row of the first stays.  The entries are rolled back per pokedex,
    while the row of their pokedex and the entries of the pokedexes before
    stay.  The decks of a file that was read before the failing one stay. *)
Lemma batches_are_partially_written :
  (let env := pokeapi [("kanto", kanto); ("nameless", nameless)] in
   let db := fst (migratePokedexes env empty_db) in
   snd (migratePokedex env
          (JObj [("name", JStr "nameless"); ("url", JStr "nameless")]) db)
   = Thrown (SqliteError "NOT NULL constraint failed")
   /\ List.map key (pokedexes db) = [SqlInteger 2]
   /\ List.length (pokedex_entries db) = 2%nat)
  /\ (let env := pokeapi [("kanto", kanto); ("hoenn", hoenn_without_url)] in
      let db := fst (migratePokedexes env empty_db) in
      List.map key (pokedexes db) = [SqlInteger 2; SqlInteger 4]
      /\ List.length (pokedex_entries db) = 2%nat)
  /\ (let db := fst (migrate two_deck_files empty_db) in
      snd (migrate two_deck_files empty_db) = Returned tt
      /\ List.map key (decks db) = [SqlText "base1-deck-0"]).
Proof. vm_compute. repeat split. Qed.

(** C4 (amended).  The batches of sets, cards, types, moves, abilities and
    species are each written in one transaction: the set and card steps leave
    the store untouched when they throw, and a step fed by an external source
    leaves the store either untouched or as its whole batch left it.  The
    decks are written in one transaction per deck file and the pokedex
    entries in one transaction per pokedex.  A batch of sets or of cards with
    a record without a name, wherever it stands in the batch, throws and
    leaves no row of the batch. *)
Theorem batches_atomic_per_transaction (env : Env) (db : Db) :
  atomic (migrateSets env)
  /\ atomic (migrateCards env)
  /\ (fst (migratePokemonTypes env db) = db
      \/ exists types,
           fetch_types env = Body types
           /\ insertTypes types db
              = (fst (migratePokemonTypes env db), Returned tt))
  /\ (fst (migratePokemonMoves env db) = db
      \/ exists moves,
           fetch_moves env = Body moves
           /\ insertMoves moves db
              = (fst (migratePokemonMoves env db), Returned tt))
  /\ (fst (migratePokemonAbilities env db) = db
      \/ exists abilities,
           fetch_abilities env = Body abilities
           /\ insertAbilities abilities db
              = (fst (migratePokemonAbilities env db), Returned tt))
  /\ (fst (migratePokemonSpecies env db) = db
      \/ exists pokemon,
           fetch_species env = Body pokemon
           /\ insertSpeciesBatch pokemon db
              = (fst (migratePokemonSpecies env db), Returned tt))
  /\ (forall deckData, atomic (insertDecks deckData))
  /\ (forall pokedexData entries,
        atomic (insertEntriesTransaction pokedexData entries))
  /\ (forall batch,
        (exists set, In set batch /\ SetInfo.name set = None) ->
        exists e, insertSets batch db = (db, Thrown e))
  /\ (forall batch,
        (exists card, In card batch /\ PokemonCard.name card = None) ->
        exists e, insertCards batch db = (db, Thrown e)).
Proof.
  split; [apply atomic_migrateSets|]. split; [apply atomic_migrateCards|].
  split.
  { apply (caught_batch (fetch_types env) insertTypes).
    intros payload. apply atomic_transaction. }
  split.
  { apply (caught_batch (fetch_moves env) insertMoves).
    intros payload. apply atomic_transaction. }
  split.
  { apply (caught_batch (fetch_abilities env) insertAbilities).
    intros payload. apply atomic_transaction. }
  split.
  { apply (caught_batch (fetch_species env) insertSpeciesBatch).
    intros payload. apply atomic_transaction. }
  split; [intros; apply atomic_transaction|].
  split; [intros; apply atomic_transaction|].
  split.
  - intros batch (set & Hin & Hname). apply transaction_for_of_throws.
    exists set. split; [assumption|]. intros db0.
    apply insertSets_body_without_name, Hname.
  - intros batch (card & Hin & Hname). apply transaction_for_of_throws.
    exists card. split; [assumption|]. intros db0.
    apply insertCards_body_without_name, Hname.
Qed.

Lemma prop_of_value k o :
  o <> JNull -> exists v, prop k (Some o) = Returned v.
Proof.
  intros Ho. destruct o; simpl; try contradiction; eauto;
    destruct (String.eqb k "length"); eauto.
Qed.

(** When an entry of a pokedex throws, the inner [try] ends in its [catch]
    with the entries table as it was. *)
Lemma migratePokedex_rolls_back env pokedexRef pokedexData items db :
  (forall url, prop "url" (Some pokedexRef) = Returned url ->
               fetch_pokedex env url = Body pokedexData) ->
  prop "pokemon_entries" (Some pokedexData) = Returned (Some (JArr items)) ->
  (exists entry e, In entry items /\ speciesIdOfEntry entry = Thrown e) ->
  exists db1 e,
    migratePokedex env pokedexRef db = (db1, Thrown e)
    /\ pokedex_entries db1 = pokedex_entries db
    /\ (db1 = db \/ insertPokedex_of pokedexData db = (db1, Returned tt)).
Proof.
  intros Hfetch Hentries Hbad. unfold migratePokedex, bind at 1 2 3, lift.
  destruct (prop "name" (Some pokedexRef)) as [n|e]; [|eauto 6].
  destruct (prop "url" (Some pokedexRef)) as [url|e] eqn:Hurl; [|eauto 6].
  rewrite (Hfetch url eq_refl). simpl await_json. cbv iota.
  unfold bind at 1.
  assert (Hframe : touches_only only_pokedexes (insertPokedex_of pokedexData)).
  { unfold insertPokedex_of, insertPokedex_run.
    apply touches_only_run_insert. intros; same_outside_tac. }
  specialize (Hframe db).
  destruct (insertPokedex_of pokedexData db) as [db1 [[]|e]] eqn:Hins.
  - assert (Hsame : pokedex_entries db = pokedex_entries db1)
      by (apply Hframe; reflexivity).
    unfold bind at 1, lift. rewrite Hentries. cbv iota.
    destruct Hbad as (entry & e & Hin & Hthrows).
    destruct items as [|i items]; [destruct Hin|].
    unfold bind at 1, lift.
    change (prop "length" (Some (JArr (i :: items))))
      with (Returned (A:=option json)
              (Some (JNum (Z.of_nat (List.length (i :: items)))))).
    cbv iota. cbn [truthy_opt truthy].
    replace (gt_zero (Some (JNum (Z.of_nat (List.length (i :: items))))))
      with true by (simpl; symmetry; apply Z.ltb_lt; lia).
    destruct (insertEntriesTransaction_throws pokedexData (i :: items) db1)
      as [e' ->]; [eauto|].
    exists db1, e'. split; [reflexivity|].
    split; [symmetry; exact Hsame|right; reflexivity].
  - exists db1, e. split; [reflexivity|].
    split; [symmetry; apply Hframe; reflexivity|].
    left.
    unfold insertPokedex_of, insertPokedex_run, run_insert in Hins.
    destruct (obind _ _); [destruct (no_fk db a)|];
      injection Hins as <-; try discriminate; reflexivity.
Qed.

(** C7 (as stated, refuted).  An entry without a url makes all the entries
    of its pokedex disappear, not that entry alone; an entry whose url has no
    number is stored, with a NULL species id, not skipped. *)
Lemma malformed_entry_is_not_skipped_alone :
  (let db := fst (migratePokedexes (pokeapi [("hoenn", hoenn_without_url)])
                                   empty_db) in
   List.map key (pokedexes db) = [SqlInteger 4]
   /\ pokedex_entries db = [])
  /\ (let db := fst (migratePokedexes (pokeapi [("hoenn", hoenn_bad_url)])
                                      empty_db) in
      List.map (fun r => nth 3 r (Scalar SqlNull)) (pokedex_entries db)
      = [Scalar (SqlInteger 252); Scalar SqlNull; Scalar (SqlInteger 254)]).
Proof. vm_compute. repeat split. Qed.

(** C7 (amended).  The species identifier of an entry is the integer parsed
    from the segment before the last of its url split on slashes, NULL when
    that segment does not start with a number; such an entry is stored, not
    skipped.  When the url of an entry is not a string, inserting the entry
    throws: the failure is caught per pokedex, the entries of that pokedex
    are all rolled back while the row of the pokedex, written before, stays,
    and the loop goes on with the next pokedex. *)
Theorem malformed_entry_fails_its_pokedex (env : Env)
  (pokedexRef pokedexData : json) (items rest : list json) (db : Db)
  (Href : pokedexRef <> JNull)
  (Hfetch : forall url, prop "url" (Some pokedexRef) = Returned url ->
                        fetch_pokedex env url = Body pokedexData)
  (Hentries : prop "pokemon_entries" (Some pokedexData)
              = Returned (Some (JArr items)))
  (Hbad : exists entry e, In entry items /\ speciesIdOfEntry entry = Thrown e) :
  let db' := fst (tryPokedex env pokedexRef db) in
  (forall entry_fields species_fields u,
      lookup_field "pokemon_species" entry_fields = Some (JObj species_fields) ->
      lookup_field "url" species_fields = Some (JStr u) ->
      speciesIdOfEntry (JObj entry_fields)
      = Returned (Scalar (bind_number
                            (parseInt (second_to_last (split "/" u))))))
  /\ snd (tryPokedex env pokedexRef db) = Returned tt
  /\ pokedex_entries db' = pokedex_entries db
  /\ (db' = db \/ insertPokedex_of pokedexData db = (db', Returned tt))
  /\ for_of (pokedexRef :: rest) (tryPokedex env) db
     = for_of rest (tryPokedex env) db'.
Proof.
  intros db'.
  destruct (migratePokedex_rolls_back env pokedexRef pokedexData items db
              Hfetch Hentries Hbad) as (db1 & e & Hrun & Hsame & Hrow).
  destruct (prop_of_value "name" pokedexRef Href) as [n Hn].
  assert (Htry : tryPokedex env pokedexRef db = (db1, Returned tt)).
  { unfold tryPokedex, try_catch. rewrite Hrun.
    unfold bind, lift, ret. rewrite Hn. reflexivity. }
  subst db'. rewrite Htry. simpl fst. simpl snd.
  split.
  { intros entry_fields species_fields u Hspecies Hurl.
    unfold speciesIdOfEntry. simpl. rewrite Hspecies. simpl.
    rewrite Hurl. simpl. rewrite first_slice_second_to_last. reflexivity. }
  split; [reflexivity|]. split; [exact Hsame|]. split; [exact Hrow|].
  simpl. unfold bind. rewrite Htry. reflexivity.
Qed.

Lemma malformed_entry_fails_its_pokedex_witness :
  let env := pokeapi [("hoenn", hoenn_without_url)] in
  snd (tryPokedex env hoenn_ref empty_db) = Returned tt
  /\ pokedex_entries (fst (tryPokedex env hoenn_ref empty_db))
     = pokedex_entries empty_db.
Proof.
  intros env.
  assert (Href : hoenn_ref <> JNull) by discriminate.
  assert (Hfetch : forall url,
             prop "url" (Some hoenn_ref) = Returned url ->
             fetch_pokedex env url = Body hoenn_without_url).
  { intros url H. injection H as <-. reflexivity. }
  assert (Hbad : exists x e,
             In x [entry 1 "treecko"
                     "https://pokeapi.co/api/v2/pokemon-species/252/";
                   entry_without_url 2 "grovyle";
                   entry 3 "sceptile"
                     "https://pokeapi.co/api/v2/pokemon-species/254/"]
             /\ speciesIdOfEntry x = Thrown e).
  { exists (entry_without_url 2 "grovyle"), TypeError.
    split; [simpl; tauto|reflexivity]. }
  destruct (malformed_entry_fails_its_pokedex env hoenn_ref hoenn_without_url
              _ [] empty_db Href Hfetch eq_refl Hbad)
    as (_ & Hret & Hsame & _ & _).
  split; [exact Hret|exact Hsame].
Defined.

End BatchClaims.

(** ** Upserts: what a batch leaves in a table *)

Section Upserts.

Context {A K : Type} (k : A -> option K) (same : A -> A -> bool).

(** Two rows are in conflict when they have the same key, NULL being no
    key. *)
Hypothesis same_spec :
  forall x y, same x y = true <-> exists i, k x = Some i /\ k y = Some i.

Lemma filter_filter (f g : A -> bool) (l : list A) :
  List.filter f (List.filter g l) = List.filter (fun x => g x && f x) l.
Proof.
  induction l as [|x l IH]; [reflexivity|]. simpl.
  destruct (g x); simpl; [destruct (f x)|]; rewrite IH; reflexivity.
Qed.

Lemma filter_pointwise (f g : A -> bool) (l : list A) :
  (forall x, In x l -> f x = g x) -> List.filter f l = List.filter g l.
Proof.
  induction l as [|x l IH]; intros H; [reflexivity|]. simpl.
  rewrite (H x (or_introl eq_refl)), IH; [reflexivity|].
  intros y Hy. apply H. right. exact Hy.
Qed.

Lemma last_wins_incl rs x : In x (last_wins same rs) -> In x rs.
Proof.
  induction rs as [|r rs IH]; [intros []|]. simpl.
  rewrite List.in_app_iff. intros [H|H]; [|right; auto].
  destruct (keyed_in same rs r); [destruct H|]. left.
  destruct H as [<-|[]]. reflexivity.
Qed.

(** What a batch of upserts leaves: the rows it does not replace, in their
    order, then for each key of the batch its last row. *)
Lemma upsert_all_spec rs tbl :
  upsert_all same rs tbl
  = (List.filter (fun old => negb (keyed_in same rs old)) tbl
     ++ last_wins same rs)%list.
Proof.
  revert tbl. induction rs as [|r rs IH]; intros tbl.
  - simpl. rewrite app_nil_r. symmetry. apply filter_all_true.
    intros x. reflexivity.
  - change (upsert_all same (r :: rs) tbl)
      with (upsert_all same rs (upsert same r tbl)).
    rewrite IH. unfold upsert. rewrite List.filter_app, filter_filter.
    rewrite <- List.app_assoc. f_equal.
    + apply filter_pointwise. intros x _. simpl.
      rewrite negb_orb. reflexivity.
    + simpl. destruct (keyed_in same rs r); reflexivity.
Qed.

Lemma keyed_in_self rs x :
  In x rs -> k x <> None -> keyed_in same rs x = true.
Proof.
  intros Hin Hk. unfold keyed_in. apply List.existsb_exists.
  exists x. split; [exact Hin|]. apply same_spec.
  destruct (k x) as [i|]; [eauto|congruence].
Qed.

(** Running the same batch again changes nothing, when every row has a
    key. *)
Lemma upsert_all_idempotent rs tbl :
  (forall r, In r rs -> k r <> None) ->
  upsert_all same rs (upsert_all same rs tbl) = upsert_all same rs tbl.
Proof.
  intros Hkeys. rewrite !upsert_all_spec.
  rewrite List.filter_app, filter_filter.
  rewrite (filter_nil _ (last_wins same rs)), app_nil_r.
  - f_equal. apply filter_pointwise. intros x _. apply andb_diag.
  - intros x Hx. apply last_wins_incl in Hx.
    rewrite keyed_in_self; auto.
Qed.

Lemma keys_of_app (l1 l2 : list A) :
  keys_of k (l1 ++ l2) = (keys_of k l1 ++ keys_of k l2)%list.
Proof. unfold keys_of. apply List.flat_map_app. Qed.

Lemma keys_of_In i (l : list A) :
  In i (keys_of k l) <-> exists x, In x l /\ k x = Some i.
Proof.
  unfold keys_of. rewrite List.in_flat_map. split.
  - intros (x & Hx & Hi). exists x. split; [exact Hx|].
    destruct (k x) as [j|]; [|destruct Hi].
    destruct Hi as [->|[]]. reflexivity.
  - intros (x & Hx & Hi). exists x. split; [exact Hx|].
    rewrite Hi. left. reflexivity.
Qed.

Lemma keys_of_filter_NoDup (f : A -> bool) (l : list A) :
  NoDup (keys_of k l) -> NoDup (keys_of k (List.filter f l)).
Proof.
  induction l as [|x l IH]; intros H; [exact H|].
  simpl in *. apply NoDup_app in H. destruct H as (Hx & Hdis & Hl).
  destruct (f x); [|apply IH, Hl].
  simpl. apply NoDup_app. split; [exact Hx|]. split; [|apply IH, Hl].
  intros i Hi Hin. apply (Hdis i Hi).
  apply list_elem_of_In, keys_of_In in Hin.
  destruct Hin as (y & Hy & Hky).
  apply list_elem_of_In, keys_of_In. exists y. split; [|exact Hky].
  apply List.filter_In in Hy. apply Hy.
Qed.

(** An upsert keeps the keys pairwise distinct. *)
Lemma upsert_NoDup r tbl :
  NoDup (keys_of k tbl) -> NoDup (keys_of k (upsert same r tbl)).
Proof.
  intros H. unfold upsert. rewrite keys_of_app.
  apply NoDup_app. split; [apply keys_of_filter_NoDup, H|].
  split.
  - intros i Hi Hr. apply list_elem_of_In, keys_of_In in Hi.
    destruct Hi as (x & Hx & Hkx).
    apply List.filter_In in Hx. destruct Hx as [_ Hx].
    apply list_elem_of_In, keys_of_In in Hr.
    destruct Hr as (y & [<-|[]] & Hky).
    assert (Hsame : same x r = true) by (apply same_spec; eauto).
    rewrite Hsame in Hx. discriminate.
  - simpl. destruct (k r); [|constructor].
    rewrite app_nil_r. apply NoDup_singleton.
Qed.

(** An upsert loses no key, and adds the key of its row only. *)
Lemma upsert_keys r tbl i :
  In i (keys_of k (upsert same r tbl))
  <-> In i (keys_of k tbl) \/ k r = Some i.
Proof.
  unfold upsert. rewrite keys_of_app, List.in_app_iff, !keys_of_In.
  split.
  - intros [(x & Hx & Hkx)|(x & Hx & Hkx)].
    + left. exists x. apply List.filter_In in Hx. split; [apply Hx|exact Hkx].
    + right. destruct Hx as [<-|[]]. exact Hkx.
  - intros [(x & Hx & Hkx)|Hr].
    + destruct (same x r) eqn:Heq.
      * right. exists r. split; [left; reflexivity|].
        apply same_spec in Heq. destruct Heq as (j & Hj1 & Hj2).
        congruence.
      * left. exists x. split; [|exact Hkx].
        apply List.filter_In. split; [exact Hx|]. rewrite Heq. reflexivity.
    + right. exists r. split; [left; reflexivity|exact Hr].
Qed.




End Upserts.

Lemma text_eq_iff a b :
  text_eq a b = true <-> exists i : string, a = Some i /\ b = Some i.
Proof.
  destruct a as [x|], b as [y|]; simpl; split;
    try discriminate; try (intros (i & ? & ?); discriminate).
  - intros H. apply String.eqb_eq in H. subst. eauto.
  - intros (i & [= ->] & [= ->]). apply String.eqb_refl.
Qed.

Lemma same_set_spec x y :
  same_set x y = true
  <-> exists i, SetRow.id x = Some i /\ SetRow.id y = Some i.
Proof. apply text_eq_iff. Qed.

Lemma same_card_spec x y :
  same_card x y = true
  <-> exists i, CardRow.id x = Some i /\ CardRow.id y = Some i.
Proof. apply text_eq_iff. Qed.

Lemma same_row_spec x y :
  same_row x y = true <-> exists i, row_key x = Some i /\ row_key y = Some i.
Proof.
  unfold same_row, row_key.
  destruct (key x) as [|n|s], (key y) as [|m|t]; simpl; split;
    try discriminate; try (intros (i & ? & ?); congruence).
  - intros H. apply Z.eqb_eq in H. subst. eauto.
  - intros (i & [= <-] & [= ->]). apply Z.eqb_refl.
  - intros H. apply String.eqb_eq in H. subst. eauto.
  - intros (i & [= <-] & [= ->]). apply String.eqb_refl.
Qed.

(** ** Properties of the store kept by the statements *)

Section Invariants.

Variable P : Db -> Prop.

Lemma preserves_ret {A} (a : A) : preserves P (ret a).
Proof. intros db H. exact H. Qed.

Lemma preserves_lift {A} (o : outcome A) : preserves P (lift o).
Proof. intros db H. exact H. Qed.

Lemma preserves_bind {A B} (m : M A) (k : A -> M B) :
  preserves P m -> (forall a, preserves P (k a)) ->
  preserves P (a <- m ;; k a).
Proof.
  intros Hm Hk db H. unfold bind. specialize (Hm db H).
  destruct (m db) as [db' [a|e]]; simpl in *; [apply Hk, Hm|exact Hm].
Qed.

Lemma preserves_try_catch {A} (m h : M A) :
  preserves P m -> preserves P h -> preserves P (try_catch m h).
Proof.
  intros Hm Hh db H. unfold try_catch. specialize (Hm db H).
  destruct (m db) as [db' [a|e]]; simpl in *; [exact Hm|apply Hh, Hm].
Qed.

Lemma preserves_transaction {A} (m : M A) :
  preserves P m -> preserves P (transaction m).
Proof.
  intros Hm db H. unfold transaction. specialize (Hm db H).
  destruct (m db) as [db' [a|e]]; simpl in *; [exact Hm|exact H].
Qed.

Lemma preserves_for_of {X} (xs : list X) (body : X -> M unit) :
  (forall x, preserves P (body x)) -> preserves P (for_of xs body).
Proof.
  intros Hbody. induction xs as [|x xs IH]; simpl.
  - apply preserves_ret.
  - apply preserves_bind; [apply Hbody|]. intros _. exact IH.
Qed.

(** A property of the tables outside [ign] is kept by a statement that
    writes inside [ign] only. *)
Lemma preserves_touches_only ign {A} (m : M A) :
  (forall db1 db2, same_outside ign db1 db2 -> P db1 -> P db2) ->
  touches_only ign m -> preserves P m.
Proof. intros Hdep Hm db H. exact (Hdep _ _ (Hm db) H). Qed.

End Invariants.

Ltac preserves_tac :=
  repeat first
    [ apply preserves_ret
    | apply preserves_lift
    | apply preserves_try_catch
    | apply preserves_transaction
    | apply preserves_for_of; intros ?
    | apply preserves_bind; [|intros ?]
    | match goal with
      | |- preserves _ (if ?b then _ else _) => destruct b
      end ].

(** ** The set and card batches *)

Section LocalBatches.

Lemma with_sets_same db : with_sets (sets db) db = db.
Proof. destruct db; reflexivity. Qed.

Lemma with_cards_same db : with_cards (cards db) db = db.
Proof. destruct db; reflexivity. Qed.

(** Whether a set record can be stored, and the row it gives, do not depend
    on the store. *)
Lemma insertSets_body_spec set :
  (exists row,
     row_of_set set row
     /\ forall db, insertSets_body set db
                   = (with_sets (upsert same_set row (sets db)) db,
                      Returned tt))
  \/ (exists e, forall db, insertSets_body set db = (db, Thrown e)).
Proof.
  unfold insertSets_body, insertSet_run.
  destruct (obind _ _) as [row|e] eqn:Hrow; [|right; eauto].
  destruct (SetInfo.name set) as [n|] eqn:Hname; [|right; eauto].
  left. exists row. split; [|intros db].
  - destruct (integer_cell _) as [a|]; [|discriminate]. simpl in Hrow.
    destruct (integer_cell _) as [b|]; [|discriminate]. simpl in Hrow.
    destruct (text_cell _) as [c|]; [|discriminate]. simpl in Hrow.
    destruct (text_cell _) as [d|]; [|discriminate]. simpl in Hrow.
    injection Hrow as <-. unfold row_of_set. simpl. auto.
  - f_equal. f_equal. unfold upsert, same_set. f_equal.
    destruct (integer_cell _) as [a|]; [|discriminate]. simpl in Hrow.
    destruct (integer_cell _) as [b|]; [|discriminate]. simpl in Hrow.
    destruct (text_cell _) as [c|]; [|discriminate]. simpl in Hrow.
    destruct (text_cell _) as [d|]; [|discriminate]. simpl in Hrow.
    injection Hrow as <-. reflexivity.
Qed.

Lemma with_sets_twice v w db : with_sets v (with_sets w db) = with_sets v db.
Proof. reflexivity. Qed.

Lemma for_of_insertSets_spec batch :
  (exists rs,
     Forall2 row_of_set batch rs
     /\ forall db, for_of batch insertSets_body db
                   = (with_sets (upsert_all same_set rs (sets db)) db,
                      Returned tt))
  \/ (exists e, forall db, snd (for_of batch insertSets_body db) = Thrown e).
Proof.
  induction batch as [|set batch IH].
  - left. exists []. split; [constructor|]. intros db. simpl.
    unfold ret. rewrite with_sets_same. reflexivity.
  - destruct (insertSets_body_spec set) as [(row & Hrow & Hrun)|[e He]].
    + destruct IH as [(rs & Hrs & Hruns)|[e He]].
      * left. exists (row :: rs). split; [constructor; assumption|].
        intros db. simpl. unfold bind. rewrite Hrun, Hruns. reflexivity.
      * right. exists e. intros db. simpl. unfold bind. rewrite Hrun.
        apply He.
    + right. exists e. intros db. simpl. unfold bind. rewrite He.
      reflexivity.
Qed.

(** The batch of sets is stored as a whole or not at all, and which of the
    two does not depend on the store. *)
Lemma insertSets_spec batch :
  (exists rs,
     Forall2 row_of_set batch rs
     /\ forall db, insertSets batch db
                   = (with_sets (upsert_all same_set rs (sets db)) db,
                      Returned tt))
  \/ (exists e, forall db, insertSets batch db = (db, Thrown e)).
Proof.
  unfold insertSets, transaction.
  destruct (for_of_insertSets_spec batch) as [(rs & Hrs & Hrun)|[e He]].
  - left. exists rs. split; [exact Hrs|]. intros db. rewrite Hrun.
    reflexivity.
  - right. exists e. intros db. specialize (He db).
    destruct (for_of batch insertSets_body db) as [db' [[]|e']];
      simpl in He; [discriminate|]. congruence.
Qed.

(** Whether a card record can be stored depends on the store through the
    foreign key only; the row it gives does not depend on it. *)
Lemma insertCards_body_spec card :
  (exists row,
     row_of_card card row
     /\ forall db,
          insertCards_body card db
          = if card_fk db row
            then (with_cards (upsert same_card row (cards db)) db,
                  Returned tt)
            else (db, Thrown (SqliteError "FOREIGN KEY constraint failed")))
  \/ (exists e, forall db, insertCards_body card db = (db, Thrown e)).
Proof.
  unfold insertCards_body, insertCard_run.
  destruct (obind _ _) as [row|e] eqn:Hrow; [|right; eauto].
  destruct (PokemonCard.name card) as [n|] eqn:Hname; [|right; eauto].
  left. exists row.
  assert (Hfields : row_of_card card row
                    /\ CardRow.id row = PokemonCard.id card
                    /\ CardRow.setId row = deriveSetId card).
  { repeat (match type of Hrow with
            | obind ?o _ = _ => destruct o; [simpl in Hrow|discriminate]
            end).
    injection Hrow as <-. unfold row_of_card. simpl. auto. }
  destruct Hfields as (Hfields & Hid & Hset).
  split; [exact Hfields|]. intros db. unfold card_fk, upsert, same_card.
  rewrite Hid, Hset. destruct (deriveSetId card); reflexivity.
Qed.

Lemma for_of_insertCards_spec batch db db' :
  for_of batch insertCards_body db = (db', Returned tt) ->
  exists rs,
    Forall2 row_of_card batch rs
    /\ Forall (fun row => card_fk db row = true) rs
    /\ forall db0,
         sets db0 = sets db ->
         for_of batch insertCards_body db0
         = (with_cards (upsert_all same_card rs (cards db0)) db0,
            Returned tt).
Proof.
  revert db. induction batch as [|card batch IH]; intros db Hrun.
  - exists []. split; [constructor|]. split; [constructor|].
    intros db0 _. simpl. unfold ret. rewrite with_cards_same. reflexivity.
  - simpl in Hrun. unfold bind in Hrun.
    destruct (insertCards_body_spec card) as [(row & Hrow & Hbody)|[e He]];
      [|rewrite He in Hrun; discriminate].
    rewrite Hbody in Hrun.
    destruct (card_fk db row) eqn:Hfk; [|discriminate].
    apply IH in Hrun. destruct Hrun as (rs & Hrs & Hfks & Hruns).
    exists (row :: rs). split; [constructor; assumption|].
    split; [constructor; assumption|].
    intros db0 Hsets. simpl. unfold bind. rewrite Hbody.
    replace (card_fk db0 row) with true
      by (unfold card_fk in *; rewrite Hsets; symmetry; exact Hfk).
    rewrite Hruns by (simpl; exact Hsets). reflexivity.
Qed.

End LocalBatches.

(** ** The orchestrator, step by step *)

Section Migration.

Lemma migrate_steps env db :
  migrate env db = (migrateSets env ;; migrateCards env ;; later_steps env) db.
Proof. reflexivity. Qed.

Lemma always_returns_bind (m : M unit) (k : unit -> M unit) :
  always_returns m -> (forall a, always_returns (k a)) ->
  always_returns (a <- m ;; k a).
Proof.
  intros Hm Hk db. unfold bind. specialize (Hm db).
  destruct (m db) as [db' [[]|e]]; simpl in Hm; [apply Hk|discriminate].
Qed.

(** Nothing after the cards can make the migration fail. *)
Lemma later_steps_return env : always_returns (later_steps env).
Proof.
  unfold later_steps.
  repeat (apply always_returns_bind;
          [apply always_returns_try_catch|intros _]).
  apply always_returns_try_catch.
Qed.

Lemma later_steps_touch env : touches_only not_local (later_steps env).
Proof.
  unfold later_steps.
  apply touches_only_bind;
    [apply touches_only_migrateDecks; reflexivity|]. intros _.
  apply touches_only_bind;
    [apply (touches_only_step not_local FromTypes);
     intros []; simpl; congruence|]. intros _.
  apply touches_only_bind;
    [apply (touches_only_step not_local FromMoves);
     intros []; simpl; congruence|]. intros _.
  apply touches_only_bind;
    [apply (touches_only_step not_local FromAbilities);
     intros []; simpl; congruence|]. intros _.
  apply touches_only_bind;
    [apply (touches_only_step not_local FromSpecies);
     intros []; simpl; congruence|]. intros _.
  apply (touches_only_step not_local FromPokedexes).
  intros []; simpl; congruence.
Qed.

Lemma later_steps_spec env db :
  exists db', later_steps env db = (db', Returned tt)
              /\ sets db' = sets db /\ cards db' = cards db.
Proof.
  pose proof (later_steps_return env db) as Hret.
  pose proof (later_steps_touch env db) as Htouch.
  destruct (later_steps env db) as [db' r]. simpl in *. subst r.
  exists db'. split; [reflexivity|].
  split; symmetry; apply Htouch; reflexivity.
Qed.

Lemma migrate_of_steps env db db1 db2 :
  migrateSets env db = (db1, Returned tt) ->
  migrateCards env db1 = (db2, Returned tt) ->
  migrate env db = later_steps env db2.
Proof.
  intros H1 H2. rewrite migrate_steps. unfold bind at 1. rewrite H1.
  unfold bind at 1. rewrite H2. reflexivity.
Qed.

Lemma migrateSets_spec env :
  (exists batch rs,
     flatMap_files (setFiles env) = Returned batch
     /\ Forall2 row_of_set batch rs
     /\ forall db, migrateSets env db
                   = (with_sets (upsert_all same_set rs (sets db)) db,
                      Returned tt))
  \/ (exists e, forall db, migrateSets env db = (db, Thrown e)).
Proof.
  unfold migrateSets, bind, lift.
  destruct (flatMap_files (setFiles env)) as [batch|e]; [|right; eauto].
  destruct (insertSets_spec batch) as [(rs & Hrs & Hsets)|[e He]].
  - left. exists batch, rs. auto.
  - right. exists e. exact He.
Qed.

Lemma migrateCards_returned env db db' :
  migrateCards env db = (db', Returned tt) ->
  exists cbatch crs,
    flatMap_files (cardFiles env) = Returned cbatch
    /\ Forall2 row_of_card cbatch crs
    /\ Forall (fun row => card_fk db row = true) crs
    /\ forall db0,
         sets db0 = sets db ->
         migrateCards env db0
         = (with_cards (upsert_all same_card crs (cards db0)) db0,
            Returned tt).
Proof.
  unfold migrateCards, bind, lift.
  destruct (flatMap_files (cardFiles env)) as [cbatch|e]; [|discriminate].
  unfold insertCards, transaction.
  destruct (for_of cbatch insertCards_body db) as [db2 [[]|e]] eqn:Hcards;
    [|discriminate].
  intros _.
  destruct (for_of_insertCards_spec _ _ _ Hcards) as (crs & Hcrs & Hfk & Hrun).
  exists cbatch, crs. split; [reflexivity|]. split; [exact Hcrs|].
  split; [exact Hfk|]. intros db0 Hdb0. rewrite (Hrun db0 Hdb0). reflexivity.
Qed.

(** A run of the migration that returns, taken apart: the rows of the two
    local batches, and what the two local tables hold at the end. *)
Lemma migrate_returned env db :
  snd (migrate env db) = Returned tt ->
  exists batch rs cbatch crs,
    flatMap_files (setFiles env) = Returned batch
    /\ Forall2 row_of_set batch rs
    /\ (forall db0, migrateSets env db0
                    = (with_sets (upsert_all same_set rs (sets db0)) db0,
                       Returned tt))
    /\ flatMap_files (cardFiles env) = Returned cbatch
    /\ Forall2 row_of_card cbatch crs
    /\ (forall db0,
          sets db0 = upsert_all same_set rs (sets db) ->
          migrateCards env db0
          = (with_cards (upsert_all same_card crs (cards db0)) db0,
             Returned tt))
    /\ sets (fst (migrate env db)) = upsert_all same_set rs (sets db)
    /\ cards (fst (migrate env db)) = upsert_all same_card crs (cards db).
Proof.
  intros Hret.
  destruct (migrateSets_spec env)
    as [(batch & rs & Hfiles & Hrs & Hsets)|[e He]].
  2:{ rewrite migrate_steps in Hret. unfold bind at 1 in Hret.
      rewrite He in Hret. discriminate. }
  destruct (migrateCards env
              (with_sets (upsert_all same_set rs (sets db)) db))
    as [db2 [[]|e]] eqn:Hcards.
  2:{ rewrite migrate_steps in Hret. unfold bind at 1 in Hret.
      rewrite Hsets in Hret. unfold bind at 1 in Hret.
      rewrite Hcards in Hret. discriminate. }
  clear Hret.
  destruct (migrateCards_returned _ _ _ Hcards)
    as (cbatch & crs & Hcfiles & Hcrs & _ & Hrun).
  rewrite (Hrun _ eq_refl) in Hcards. injection Hcards as <-.
  rewrite (migrate_of_steps env db _ _ (Hsets db) (Hrun _ eq_refl)).
  match goal with
  | |- context [later_steps env ?d] =>
      destruct (later_steps_spec env d) as (db3 & Hlater & Hs & Hc)
  end.
  exists batch, rs, cbatch, crs.
  split; [exact Hfiles|]. split; [exact Hrs|]. split; [exact Hsets|].
  split; [exact Hcfiles|]. split; [exact Hcrs|].
  split; [intros db0 Hdb0; apply Hrun; exact Hdb0|].
  rewrite Hlater. simpl. split; [exact Hs|exact Hc].
Qed.

End Migration.

(** ** Running the migration again *)

Section Rerun.

Lemma Forall2_In_r {X Y} (R : X -> Y -> Prop) l1 l2 y :
  Forall2 R l1 l2 -> In y l2 -> exists x, In x l1 /\ R x y.
Proof.
  induction 1 as [|x0 y0 l1 l2 HR HF IH]; [intros []|].
  intros [<-|Hin].
  - exists x0. split; [left; reflexivity|exact HR].
  - destruct (IH Hin) as (x & Hx & Hxy). exists x. split; [right|]; auto.
Qed.

Lemma Forall2_In_l {X Y} (R : X -> Y -> Prop) l1 l2 x :
  Forall2 R l1 l2 -> In x l1 -> exists y, In y l2 /\ R x y.
Proof.
  induction 1 as [|x0 y0 l1 l2 HR HF IH]; [intros []|].
  intros [<-|Hin].
  - exists y0. split; [left; reflexivity|exact HR].
  - destruct (IH Hin) as (y & Hy & Hxy). exists y. split; [right|]; auto.
Qed.

(** X1.  A second run of the migration on unchanged sources leaves the sets
    and the cards as the first run left them, when every set and card record
    has an identifier: each record replaces the row it wrote the first
    time. *)
Theorem second_migration_keeps_sets_and_cards (env : Env) (db : Db)
  (Hids : records_have_ids env)
  (Hrun : snd (migrate env db) = Returned tt) :
  snd (migrate env (fst (migrate env db))) = Returned tt
  /\ sets (fst (migrate env (fst (migrate env db))))
     = sets (fst (migrate env db))
  /\ cards (fst (migrate env (fst (migrate env db))))
     = cards (fst (migrate env db)).
Proof.
  destruct (migrate_returned env db Hrun)
    as (batch & rs & cbatch & crs & Hfiles & Hrs & Hsets & Hcfiles & Hcrs
        & Hcards & Hs & Hc).
  destruct Hids as [Hset_ids Hcard_ids].
  set (once := fst (migrate env db)) in *.
  assert (Hsets_once : migrateSets env once = (once, Returned tt)).
  { rewrite Hsets, Hs.
    rewrite (upsert_all_idempotent SetRow.id same_set same_set_spec).
    - rewrite <- Hs, with_sets_same. reflexivity.
    - intros r Hr. destruct (Forall2_In_r _ _ _ _ Hrs Hr) as (set & Hin & Hrow).
      destruct Hrow as (-> & _). apply (Hset_ids batch Hfiles set Hin). }
  assert (Hcards_once : migrateCards env once = (once, Returned tt)).
  { rewrite (Hcards once Hs), Hc.
    rewrite (upsert_all_idempotent CardRow.id same_card same_card_spec).
    - rewrite <- Hc, with_cards_same. reflexivity.
    - intros r Hr.
      destruct (Forall2_In_r _ _ _ _ Hcrs Hr) as (card & Hin & Hrow).
      destruct Hrow as (-> & _). apply (Hcard_ids cbatch Hcfiles card Hin). }
  rewrite (migrate_of_steps env once once once Hsets_once Hcards_once).
  destruct (later_steps_spec env once) as (db3 & Hlater & Hs3 & Hc3).
  rewrite Hlater. simpl. auto.
Qed.

Lemma second_migration_keeps_sets_and_cards_witness :
  records_have_ids reprinted
  /\ sets (fst (migrate reprinted (fst (migrate reprinted empty_db))))
     = sets (fst (migrate reprinted empty_db))
  /\ cards (fst (migrate reprinted (fst (migrate reprinted empty_db))))
     = cards (fst (migrate reprinted empty_db)).
Proof.
  assert (Hids : records_have_ids reprinted).
  { split; intros batch Hbatch; injection Hbatch as <-; intros x Hx;
      simpl in Hx; intuition (subst; discriminate). }
  split; [exact Hids|].
  destruct (second_migration_keeps_sets_and_cards reprinted empty_db Hids
              eq_refl)
    as (_ & Hs & Hc).
  split; [exact Hs|exact Hc].
Defined.

End Rerun.

(** ** Failures of the local steps *)

Section LocalFailures.

Lemma flatMap_files_bad {A} (files : list (file (list A))) :
  In Unreadable files \/ In NotJson files ->
  exists e, flatMap_files files = Thrown e.
Proof.
  induction files as [|f files IH]; [intros [[]|[]]|].
  intros Hbad. simpl. destruct f as [| |c]; simpl; eauto.
  destruct IH as [e He].
  - destruct Hbad as [[H|H]|[H|H]]; try discriminate; auto.
  - rewrite He. simpl. eauto.
Qed.

(** X2.  One set file (or card file) that cannot be read or parsed makes the
    step throw before anything is written: no record of the files that did
    parse is stored. *)
Theorem unreadable_file_stores_nothing (env : Env) (db : Db) :
  (In Unreadable (setFiles env) \/ In NotJson (setFiles env) ->
   exists e, migrateSets env db = (db, Thrown e)
             /\ migrate env db = (db, Thrown e))
  /\ (In Unreadable (cardFiles env) \/ In NotJson (cardFiles env) ->
      exists e, migrateCards env db = (db, Thrown e)).
Proof.
  split; intros Hbad; apply flatMap_files_bad in Hbad; destruct Hbad as [e He];
    exists e.
  - assert (Hsets : migrateSets env db = (db, Thrown e))
      by (unfold migrateSets, bind, lift; rewrite He; reflexivity).
    split; [exact Hsets|].
    rewrite migrate_steps. unfold bind at 1. rewrite Hsets. reflexivity.
  - unfold migrateCards, bind, lift. rewrite He. reflexivity.
Qed.

(** X3.  The migration stops at the first local step that throws.  When
    the set step throws the store is as it was; when the card step throws the
    sets are committed and nothing else is written; once both have returned
    nothing can make the migration fail. *)
Theorem migrate_fails_with_sets_or_cards_only (env : Env) (db : Db) :
  (forall db' e, migrateSets env db = (db', Thrown e) ->
     migrate env db = (db, Thrown e))
  /\ (forall db1 db' e,
        migrateSets env db = (db1, Returned tt) ->
        migrateCards env db1 = (db', Thrown e) ->
        migrate env db = (db1, Thrown e))
  /\ (forall db1 db2,
        migrateSets env db = (db1, Returned tt) ->
        migrateCards env db1 = (db2, Returned tt) ->
        snd (migrate env db) = Returned tt
        /\ sets (fst (migrate env db)) = sets db2
        /\ cards (fst (migrate env db)) = cards db2).
Proof.
  split; [|split].
  - intros db' e Hsets.
    assert (db' = db) by (eapply atomic_migrateSets; exact Hsets). subst db'.
    rewrite migrate_steps. unfold bind at 1. rewrite Hsets. reflexivity.
  - intros db1 db' e Hsets Hcards.
    assert (db' = db1) by (eapply atomic_migrateCards; exact Hcards).
    subst db'.
    rewrite migrate_steps. unfold bind at 1. rewrite Hsets.
    unfold bind at 1. rewrite Hcards. reflexivity.
  - intros db1 db2 Hsets Hcards.
    rewrite (migrate_of_steps env db db1 db2 Hsets Hcards).
    destruct (later_steps_spec env db2) as (db3 & Hlater & Hs & Hc).
    rewrite Hlater. simpl. auto.
Qed.

End LocalFailures.

(** ** Properties of one table at a time *)

Section Tablewise.

Lemma touches_only_migrateSets ign env :
  ign T_sets = true -> touches_only ign (migrateSets env).
Proof.
  intros Hign db.
  destruct (migrateSets_spec env) as [(batch & rs & _ & _ & Hrun)|[e He]].
  - rewrite Hrun. same_outside_tac.
  - rewrite He. apply same_outside_refl.
Qed.

Lemma touches_only_migrateCards ign env :
  ign T_cards = true -> touches_only ign (migrateCards env).
Proof.
  intros Hign. unfold migrateCards.
  apply touches_only_bind; [apply touches_only_lift|]. intros batch.
  apply touches_only_transaction, touches_only_for_of. intros card db.
  destruct (insertCards_body_spec card) as [(row & _ & Hrun)|[e He]].
  - rewrite Hrun. destruct (card_fk db row); same_outside_tac.
  - rewrite He. apply same_outside_refl.
Qed.

(** A property [Q t] of the table [t], for every table: it reads that table
    only, and the inserts into the table keep it. *)
Variable Q : table -> Db -> Prop.

Hypothesis Q_frame : forall t db1 db2,
  same_outside (all_but t) db1 db2 -> Q t db1 -> Q t db2.
Hypothesis Q_types : forall sch fk args,
  preserves (Q T_pokemon_types)
    (run_insert sch pokemon_types with_pokemon_types fk args).
Hypothesis Q_moves : forall sch fk args,
  preserves (Q T_pokemon_moves)
    (run_insert sch pokemon_moves with_pokemon_moves fk args).
Hypothesis Q_abilities : forall sch fk args,
  preserves (Q T_pokemon_abilities)
    (run_insert sch pokemon_abilities with_pokemon_abilities fk args).
Hypothesis Q_species : forall sch fk args,
  preserves (Q T_pokemon_species)
    (run_insert sch pokemon_species with_pokemon_species fk args).
Hypothesis Q_pokedexes : forall sch fk args,
  preserves (Q T_pokedexes) (run_insert sch pokedexes with_pokedexes fk args).
Hypothesis Q_entries : forall sch fk args,
  preserves (Q T_pokedex_entries)
    (run_insert sch pokedex_entries with_pokedex_entries fk args).
Hypothesis Q_decks : forall sch fk args,
  preserves (Q T_decks) (run_insert sch decks with_decks fk args).
Hypothesis Q_sets : forall env, preserves (Q T_sets) (migrateSets env).
Hypothesis Q_cards : forall card,
  preserves (Q T_cards) (insertCards_body card).

Ltac other_table t :=
  apply (preserves_touches_only _ (all_but t)); [apply Q_frame|].

Ltac frame_leaf :=
  intros ? ?; unfold same_outside; repeat split; intros Hign;
  try reflexivity; vm_compute in Hign; discriminate.

Ltac table_leaf :=
  first
    [ apply Q_types | apply Q_moves | apply Q_abilities | apply Q_species
    | apply Q_pokedexes | apply Q_entries | apply Q_decks
    | apply (preserves_touches_only _ (all_but T_pokedexes));
      [apply Q_frame|apply touches_only_run_insert; frame_leaf]
    | apply (preserves_touches_only _ (all_but T_pokedex_entries));
      [apply Q_frame|apply touches_only_run_insert; frame_leaf] ].

Lemma tablewise_migrateSets t env : preserves (Q t) (migrateSets env).
Proof.
  destruct (decide (t = T_sets)) as [->|Hne]; [apply Q_sets|].
  other_table t. apply touches_only_migrateSets.
  destruct t; try reflexivity. congruence.
Qed.

Lemma tablewise_migrateCards t env : preserves (Q t) (migrateCards env).
Proof.
  destruct (decide (t = T_cards)) as [->|Hne].
  - unfold migrateCards, insertCards. preserves_tac. apply Q_cards.
  - other_table t. apply touches_only_migrateCards.
    destruct t; try reflexivity. congruence.
Qed.

Lemma tablewise_migrateDecks t env : preserves (Q t) (migrateDecks env).
Proof.
  destruct (decide (t = T_decks)) as [->|Hne].
  - unfold migrateDecks. apply preserves_try_catch; [|apply preserves_ret].
    destruct (deckFiles env); [apply preserves_ret|].
    apply preserves_for_of. intros [deckFile content].
    preserves_tac. table_leaf.
  - other_table t. apply touches_only_migrateDecks.
    destruct t; try reflexivity. congruence.
Qed.

Lemma tablewise_step t k env : preserves (Q t) (step_of k env).
Proof.
  destruct (forallb (fun t' => implb (owned k t') (all_but t t'))
              [T_pokemon_types; T_pokemon_moves; T_pokemon_abilities;
               T_pokemon_species; T_pokedexes; T_pokedex_entries; T_sets;
               T_cards; T_decks]) eqn:Hother.
  - other_table t. apply touches_only_step. intros t' Hown.
    destruct k, t, t'; try reflexivity; try (simpl in Hown; discriminate);
      vm_compute in Hother; discriminate.
  - destruct k, t; try (vm_compute in Hother; discriminate); simpl;
      clear Hother; preserves_tac; table_leaf.
Qed.

(** The migration keeps such a property of every table. *)
Lemma tablewise_migrate t env : preserves (Q t) (migrate env).
Proof.
  unfold migrate, initializeSchema.
  apply preserves_bind; [apply preserves_ret|]. intros _.
  apply preserves_bind; [apply tablewise_migrateSets|]. intros _.
  apply preserves_bind; [apply tablewise_migrateCards|]. intros _.
  apply preserves_bind; [apply tablewise_migrateDecks|]. intros _.
  apply preserves_bind; [apply (tablewise_step t FromTypes)|]. intros _.
  apply preserves_bind; [apply (tablewise_step t FromMoves)|]. intros _.
  apply preserves_bind; [apply (tablewise_step t FromAbilities)|].
  intros _.
  apply preserves_bind; [apply (tablewise_step t FromSpecies)|]. intros _.
  apply (tablewise_step t FromPokedexes).
Qed.

End Tablewise.

(** ** Primary keys *)

Section PrimaryKeys.

Lemma unique_in_frame t db1 db2 :
  same_outside (all_but t) db1 db2 -> unique_in t db1 -> unique_in t db2.
Proof.
  intros H. destruct t; unfold unique_in;
    [replace (pokemon_types db2) with (pokemon_types db1)
    |replace (pokemon_moves db2) with (pokemon_moves db1)
    |replace (pokemon_abilities db2) with (pokemon_abilities db1)
    |replace (pokemon_species db2) with (pokemon_species db1)
    |replace (pokedexes db2) with (pokedexes db1)
    |replace (pokedex_entries db2) with (pokedex_entries db1)
    |replace (sets db2) with (sets db1)
    |replace (cards db2) with (cards db1)
    |replace (decks db2) with (decks db1)];
    auto; apply H; reflexivity.
Qed.

Lemma upsert_all_NoDup {A K} (k : A -> option K) (same : A -> A -> bool) :
  (forall x y, same x y = true <-> exists i, k x = Some i /\ k y = Some i) ->
  forall rs tbl,
    NoDup (keys_of k tbl) -> NoDup (keys_of k (upsert_all same rs tbl)).
Proof.
  intros Hsame rs. induction rs as [|r rs IH]; intros tbl H; [exact H|].
  simpl. apply IH, (upsert_NoDup k same Hsame), H.
Qed.

(** [INSERT OR REPLACE] keeps the keys of its table pairwise distinct. *)
Lemma preserves_run_insert_keys sch get put fk args :
  (forall v db, get (put v db) = v) ->
  preserves (fun db => NoDup (row_keys (get db)))
            (run_insert sch get put fk args).
Proof.
  intros Hget db H. unfold run_insert.
  destruct (obind (sequence args) _) as [r|e]; simpl; [|exact H].
  destruct (fk db r); simpl; [|exact H].
  rewrite Hget. apply (upsert_NoDup row_key same_row same_row_spec), H.
Qed.

(** X4.  The migration keeps the primary key of every table: when no two rows
    of a table share a key before, none do after, whatever the sources hold
    (records with the same identifier replace each other) and whether the
    migration returns or throws. *)
Theorem migrate_keeps_primary_keys (env : Env) (db : Db)
  (Hkeys : primary_keys_unique db) :
  primary_keys_unique (fst (migrate env db)).
Proof.
  intros t. specialize (Hkeys t). revert db Hkeys.
  apply (tablewise_migrate unique_in unique_in_frame).
  - intros sch fk args.
    apply (preserves_run_insert_keys _ pokemon_types with_pokemon_types).
    reflexivity.
  - intros sch fk args.
    apply (preserves_run_insert_keys _ pokemon_moves with_pokemon_moves).
    reflexivity.
  - intros sch fk args.
    apply (preserves_run_insert_keys _ pokemon_abilities
             with_pokemon_abilities). reflexivity.
  - intros sch fk args.
    apply (preserves_run_insert_keys _ pokemon_species with_pokemon_species).
    reflexivity.
  - intros sch fk args.
    apply (preserves_run_insert_keys _ pokedexes with_pokedexes).
    reflexivity.
  - intros sch fk args.
    apply (preserves_run_insert_keys _ pokedex_entries with_pokedex_entries).
    reflexivity.
  - intros sch fk args.
    apply (preserves_run_insert_keys _ decks with_decks). reflexivity.
  - intros env0 db0 H.
    destruct (migrateSets_spec env0) as [(batch & rs & _ & _ & Hrun)|[e He]].
    + rewrite Hrun. simpl.
      apply (upsert_all_NoDup SetRow.id same_set same_set_spec), H.
    + rewrite He. exact H.
  - intros card db0 H.
    destruct (insertCards_body_spec card) as [(row & _ & Hrun)|[e He]].
    + rewrite Hrun. destruct (card_fk db0 row); [|exact H]. simpl.
      apply (upsert_NoDup CardRow.id same_card same_card_spec), H.
    + rewrite He. exact H.
Qed.

Lemma migrate_keeps_primary_keys_witness :
  primary_keys_unique empty_db
  /\ primary_keys_unique (fst (migrate reprinted empty_db)).
Proof.
  assert (H : primary_keys_unique empty_db)
    by (intros t; destruct t; constructor).
  split; [exact H|].
  apply (migrate_keeps_primary_keys reprinted empty_db H).
Defined.

End PrimaryKeys.

(** ** Rows that stay *)

Section KnownKeys.

Lemma known_keys_frame i t db1 db2 :
  same_outside (all_but t) db1 db2 ->
  In i (known_keys t db1) -> In i (known_keys t db2).
Proof.
  intros H. destruct t; unfold known_keys;
    [replace (pokemon_types db2) with (pokemon_types db1)
    |replace (pokemon_moves db2) with (pokemon_moves db1)
    |replace (pokemon_abilities db2) with (pokemon_abilities db1)
    |replace (pokemon_species db2) with (pokemon_species db1)
    |replace (pokedexes db2) with (pokedexes db1)
    |replace (pokedex_entries db2) with (pokedex_entries db1)
    |replace (sets db2) with (sets db1)
    |replace (cards db2) with (cards db1)
    |replace (decks db2) with (decks db1)];
    auto; apply H; reflexivity.
Qed.

(** [INSERT OR REPLACE] removes no key from its table. *)
Lemma run_insert_keeps_keys i sch get put fk args :
  (forall v db, get (put v db) = v) ->
  preserves (fun db => In i (row_keys (get db)))
            (run_insert sch get put fk args).
Proof.
  intros Hget db H. unfold run_insert.
  destruct (obind (sequence args) _) as [r|e]; simpl; [|exact H].
  destruct (fk db r); simpl; [|exact H].
  rewrite Hget. apply (upsert_keys row_key same_row same_row_spec). auto.
Qed.

Lemma upsert_all_keeps_keys {A K} (k : A -> option K) (same : A -> A -> bool) :
  (forall x y, same x y = true <-> exists i, k x = Some i /\ k y = Some i) ->
  forall i rs tbl,
    In i (keys_of k tbl) -> In i (keys_of k (upsert_all same rs tbl)).
Proof.
  intros Hsame i rs. induction rs as [|r rs IH]; intros tbl H; [exact H|].
  simpl. apply IH, (upsert_keys k same Hsame). auto.
Qed.

(** X5.  The migration removes nothing.  A key that is in a table before the
    migration is in it after, for every table, whatever the sources hold and
    whether the migration returns or throws: rows are added or replaced,
    and a record that has gone from the sources keeps its row. *)
Theorem migrate_never_removes_a_key (env : Env) (db : Db) (t : table)
  (i : sqlval) (Hknown : In i (known_keys t db)) :
  In i (known_keys t (fst (migrate env db))).
Proof.
  revert db Hknown.
  apply (tablewise_migrate (fun t db => In i (known_keys t db))
           (known_keys_frame i)).
  - intros sch fk args.
    apply (run_insert_keeps_keys i _ pokemon_types with_pokemon_types).
    reflexivity.
  - intros sch fk args.
    apply (run_insert_keeps_keys i _ pokemon_moves with_pokemon_moves).
    reflexivity.
  - intros sch fk args.
    apply (run_insert_keeps_keys i _ pokemon_abilities
             with_pokemon_abilities). reflexivity.
  - intros sch fk args.
    apply (run_insert_keeps_keys i _ pokemon_species with_pokemon_species).
    reflexivity.
  - intros sch fk args.
    apply (run_insert_keeps_keys i _ pokedexes with_pokedexes). reflexivity.
  - intros sch fk args.
    apply (run_insert_keeps_keys i _ pokedex_entries with_pokedex_entries).
    reflexivity.
  - intros sch fk args.
    apply (run_insert_keeps_keys i _ decks with_decks). reflexivity.
  - intros env0 db0 H.
    destruct (migrateSets_spec env0) as [(batch & rs & _ & _ & Hrun)|[e He]];
      [|rewrite He; exact H].
    rewrite Hrun. unfold known_keys in *. simpl.
    apply List.in_map_iff in H. destruct H as (j & <- & Hj).
    apply List.in_map.
    apply (upsert_all_keeps_keys SetRow.id same_set same_set_spec), Hj.
  - intros card db0 H.
    destruct (insertCards_body_spec card) as [(row & _ & Hrun)|[e He]];
      [|rewrite He; exact H].
    rewrite Hrun. destruct (card_fk db0 row); [|exact H].
    unfold known_keys in *. simpl.
    apply List.in_map_iff in H. destruct H as (j & <- & Hj).
    apply List.in_map.
    apply (upsert_keys CardRow.id same_card same_card_spec). auto.
Qed.

Lemma migrate_never_removes_a_key_witness :
  In (SqlText "xy0-1") (known_keys T_cards dangling_db)
  /\ In (SqlText "xy0-1")
        (known_keys T_cards (fst (migrate reprinted dangling_db))).
Proof.
  assert (H : In (SqlText "xy0-1") (known_keys T_cards dangling_db))
    by (left; reflexivity).
  split; [exact H|].
  apply (migrate_never_removes_a_key reprinted dangling_db T_cards _ H).
Defined.

End KnownKeys.

(** ** The card listing and the set join *)

Section JoinOnKey.

Lemma at_most_one_match {A} (k : A -> option string) (o : option string)
  (l : list A) :
  NoDup (text_keys k l) ->
  (List.length (List.filter (fun x => text_eq o (k x)) l) <= 1)%nat.
Proof.
  induction l as [|x l IH]; intros Hnd; [simpl; lia|].
  unfold text_keys in *. simpl in Hnd. apply NoDup_app in Hnd.
  destruct Hnd as (_ & Hdis & Hl). specialize (IH Hl). simpl.
  destruct (text_eq o (k x)) eqn:Hx; [|exact IH].
  apply text_eq_iff in Hx. destruct Hx as (i & -> & Hkx).
  rewrite filter_nil; [simpl; lia|].
  intros y Hy. destruct (text_eq (Some i) (k y)) eqn:Hky; [|reflexivity].
  apply text_eq_iff in Hky. destruct Hky as (j & [= <-] & Hky).
  exfalso. apply (Hdis i).
  - rewrite Hkx. apply list_elem_of_In. left. reflexivity.
  - apply list_elem_of_In, keys_of_In. eauto.
Qed.

Lemma left_join_one_row_per_card db :
  NoDup (text_keys SetRow.id (sets db)) ->
  List.map JoinedRow.c (left_join_sets db) = cards db.
Proof.
  intros Hnd. unfold left_join_sets.
  induction (cards db) as [|c cs IH]; [reflexivity|].
  cbn [flat_map]. rewrite List.map_app, IH.
  pose proof (at_most_one_match SetRow.id (CardRow.setId c) (sets db) Hnd)
    as Hone.
  destruct (List.filter _ (sets db)) as [|s [|s' ms]]; simpl in *;
    [reflexivity..|lia].
Qed.

(** X6.  The unfiltered listing returns every stored card exactly once, in
    the order of the table, provided the set ids are pairwise distinct (the
    primary key of sets): the join with the sets neither drops a card nor
    repeats one. *)
Theorem every_card_is_listed_once (db : Db)
  (Hkeys : NoDup (text_keys SetRow.id (sets db))) :
  List.map PokemonCard.id (getAllCards None db) = List.map CardRow.id (cards db)
  /\ List.map PokemonCard.name (getAllCards None db)
     = List.map CardRow.name (cards db)
  /\ List.length (getAllCards None db) = List.length (cards db).
Proof.
  rewrite getAllCards_unfiltered.
  pose proof (left_join_one_row_per_card db Hkeys) as Hrows.
  rewrite <- Hrows, !List.map_map, !List.length_map. auto.
Qed.

Lemma every_card_is_listed_once_witness :
  NoDup (text_keys SetRow.id (sets abc_db))
  /\ List.map PokemonCard.id (getAllCards None abc_db)
     = [Some "base1-A"; Some "base1-B"; Some "base1-C"].
Proof.
  assert (H : NoDup (text_keys SetRow.id (sets abc_db))).
  { vm_compute. apply NoDup_singleton. }
  split; [exact H|].
  destruct (every_card_is_listed_once abc_db H) as (Hids & _).
  rewrite Hids. reflexivity.
Defined.

End JoinOnKey.

(** ** The derived year, from the store to the listings *)

Section Years.







End Years.

(** ** Foreign keys *)

Section ForeignKeys.

Lemma forallb_upsert {A} (f : A -> bool) (same : A -> A -> bool) r tbl :
  forallb f tbl = true -> f r = true -> forallb f (upsert same r tbl) = true.
Proof.
  intros Htbl Hr. unfold upsert. rewrite List.forallb_app. simpl.
  rewrite Hr, andb_true_r. rewrite List.forallb_forall in *.
  intros x Hx. apply List.filter_In in Hx. apply Htbl, Hx.
Qed.

Lemma forallb_weaken {A} (f g : A -> bool) l :
  (forall x, f x = true -> g x = true) ->
  forallb f l = true -> forallb g l = true.
Proof.
  intros Hfg. rewrite !List.forallb_forall. intros H x Hx. apply Hfg, H, Hx.
Qed.

(** A set that is replaced still answers to its id. *)
Lemma set_known_after_upsert o row tbl :
  existsb (fun s => text_eq (SetRow.id s) o) tbl = true ->
  existsb (fun s => text_eq (SetRow.id s) o) (upsert same_set row tbl) = true.
Proof.
  rewrite !List.existsb_exists. intros (s & Hs & Hso).
  destruct (same_set s row) eqn:Hsame.
  - exists row. split; [apply List.in_app_iff; right; left; reflexivity|].
    apply same_set_spec in Hsame. destruct Hsame as (i & Hi & Hrow).
    rewrite Hrow, <- Hi. exact Hso.
  - exists s. split; [|exact Hso]. apply List.in_app_iff. left.
    apply List.filter_In. rewrite Hsame. auto.
Qed.

Lemma set_known_after_upserts o rs tbl :
  existsb (fun s => text_eq (SetRow.id s) o) tbl = true ->
  existsb (fun s => text_eq (SetRow.id s) o) (upsert_all same_set rs tbl)
  = true.
Proof.
  revert tbl. induction rs as [|r rs IH]; intros tbl H; [exact H|].
  simpl. apply IH, set_known_after_upsert, H.
Qed.

Lemma sql_eq_trans a b c :
  sql_eq a b = true -> sql_eq a c = true -> sql_eq b c = true.
Proof.
  destruct a, b, c; simpl; try discriminate; intros H1 H2.
  - apply Z.eqb_eq in H1, H2. subst. apply Z.eqb_refl.
  - apply String.eqb_eq in H1, H2. subst. apply String.eqb_refl.
Qed.

(** A pokedex that is replaced still answers to its id. *)
Lemma pokedex_known_after_replace v r tbl :
  existsb (fun p => sql_eq (key p) v) tbl = true ->
  existsb (fun p => sql_eq (key p) v) (replace_row r tbl) = true.
Proof.
  rewrite !List.existsb_exists. intros (p & Hp & Hpv).
  destruct (sql_eq (key p) (key r)) eqn:Hsame.
  - exists r. split; [apply List.in_app_iff; right; left; reflexivity|].
    apply (sql_eq_trans _ _ _ Hsame Hpv).
  - exists p. split; [|exact Hpv]. apply List.in_app_iff. left.
    apply List.filter_In. rewrite Hsame. auto.
Qed.

Lemma run_insert_cases sch get put fk args db :
  fst (run_insert sch get put fk args db) = db
  \/ exists r, fk db r = true
               /\ fst (run_insert sch get put fk args db)
                  = put (replace_row r (get db)) db.
Proof.
  unfold run_insert.
  destruct (obind (sequence args) _) as [r|e]; [|left; reflexivity].
  destruct (fk db r) eqn:Hfk; [|left; reflexivity].
  right. exists r. auto.
Qed.

Lemma fk_ok_iff db :
  fk_ok db
  <-> forallb (card_fk db) (cards db) = true
      /\ forallb (deck_fk db) (decks db) = true
      /\ forallb (entry_fk db) (pokedex_entries db) = true.
Proof.
  unfold fk_ok, foreign_keys_hold. rewrite !andb_true_iff. tauto.
Qed.

(** The foreign keys read the referring and the referred tables only. *)
Lemma fk_ok_frame ign db1 db2 :
  ign T_sets = false -> ign T_cards = false -> ign T_decks = false ->
  ign T_pokedexes = false -> ign T_pokedex_entries = false ->
  same_outside ign db1 db2 -> fk_ok db1 -> fk_ok db2.
Proof.
  intros H1 H2 H3 H4 H5 (_ & _ & _ & _ & Hp & He & Hs & Hc & Hd).
  specialize (Hp H4). specialize (He H5). specialize (Hs H1).
  specialize (Hc H2). specialize (Hd H3).
  unfold fk_ok, foreign_keys_hold, card_fk, deck_fk, entry_fk.
  rewrite Hp, He, Hs, Hc, Hd. auto.
Qed.

Lemma preserves_fk_migrateSets env : preserves fk_ok (migrateSets env).
Proof.
  intros db H.
  destruct (migrateSets_spec env) as [(batch & rs & _ & _ & Hrun)|[e He]];
    [|rewrite He; exact H].
  rewrite Hrun. simpl. apply fk_ok_iff in H. destruct H as (Hc & Hd & He).
  apply fk_ok_iff. split; [|split].
  - revert Hc. apply forallb_weaken. intros c. unfold card_fk. simpl.
    destruct (CardRow.setId c); [apply set_known_after_upserts|auto].
  - revert Hd. apply forallb_weaken. intros r. unfold deck_fk. simpl.
    destruct r as [|c1 [|c2 [|[[| |s]|] r]]]; auto.
    apply (set_known_after_upserts (Some s)).
  - exact He.
Qed.

Lemma preserves_fk_migrateCards env : preserves fk_ok (migrateCards env).
Proof.
  unfold migrateCards, insertCards. preserves_tac. intros db H.
  destruct (insertCards_body_spec x) as [(row & _ & Hrun)|[e He]];
    [|rewrite He; exact H].
  rewrite Hrun. destruct (card_fk db row) eqn:Hfk; [|exact H]. simpl.
  apply fk_ok_iff in H. destruct H as (Hc & Hd & He).
  apply fk_ok_iff. split; [|split]; [|exact Hd|exact He].
  apply forallb_upsert; assumption.
Qed.

Lemma preserves_fk_migrateDecks env : preserves fk_ok (migrateDecks env).
Proof.
  unfold migrateDecks. apply preserves_try_catch; [|apply preserves_ret].
  destruct (deckFiles env); [apply preserves_ret|].
  apply preserves_for_of. intros [deckFile content]. preserves_tac.
  intros db H. unfold insertDeck_run.
  destruct (run_insert_cases decks_schema decks with_decks deck_fk
              [omap Scalar
                 (bind_param
                    (Some
                       (or_else (Some (Deck.id x))
                          (JStr (Deck.setId x ++ "-deck")))));
               omap Scalar
                 (bind_param
                    (Some (or_else (Some (Deck.name x)) (JStr "Unknown Deck"))));
               Returned (Scalar (SqlText (Deck.setId x)));
               Returned
                 (JsonCell
                    (JSON_stringify
                       (or_else (Some (Deck.cards x)) (JArr []))))] db)
    as [->|(r & Hfk & ->)]; [exact H|].
  apply fk_ok_iff in H. destruct H as (Hc & Hd & He).
  apply fk_ok_iff. split; [|split]; [exact Hc| |exact He].
  apply (forallb_upsert (deck_fk db) same_row); assumption.
Qed.

Lemma preserves_fk_other ign {A} (m : M A) :
  ign T_sets = false -> ign T_cards = false -> ign T_decks = false ->
  ign T_pokedexes = false -> ign T_pokedex_entries = false ->
  touches_only ign m -> preserves fk_ok m.
Proof.
  intros H1 H2 H3 H4 H5 Hm. apply (preserves_touches_only _ ign); [|exact Hm].
  intros db1 db2. apply fk_ok_frame; assumption.
Qed.

Lemma preserves_fk_insertPokedex_of pokedexData :
  preserves fk_ok (insertPokedex_of pokedexData).
Proof.
  intros db H. unfold insertPokedex_of, insertPokedex_run.
  match goal with
  | |- fk_ok (fst (run_insert ?sch ?get ?put ?fk ?args db)) =>
      destruct (run_insert_cases sch get put fk args db)
        as [->|(r & _ & ->)]; [exact H|]
  end.
  apply fk_ok_iff in H. destruct H as (Hc & Hd & He).
  apply fk_ok_iff. split; [|split]; [exact Hc|exact Hd|].
  simpl. revert He. apply forallb_weaken. intros e. unfold entry_fk. simpl.
  destruct e as [|c1 [|[[|n|s]|] e]]; auto;
    apply pokedex_known_after_replace.
Qed.

Lemma preserves_fk_insertEntry_run args :
  preserves fk_ok (insertEntry_run args).
Proof.
  intros db H. unfold insertEntry_run.
  match goal with
  | |- fk_ok (fst (run_insert ?sch ?get ?put ?fk ?args db)) =>
      destruct (run_insert_cases sch get put fk args db)
        as [->|(r & Hfk & ->)]; [exact H|]
  end.
  apply fk_ok_iff in H. destruct H as (Hc & Hd & He).
  apply fk_ok_iff. split; [|split]; [exact Hc|exact Hd|].
  apply (forallb_upsert (entry_fk db) same_row); assumption.
Qed.

Lemma preserves_fk_step k env : preserves fk_ok (step_of k env).
Proof.
  destruct k.
  - apply (preserves_fk_other (owned FromTypes)); try reflexivity.
    apply touches_only_step. auto.
  - apply (preserves_fk_other (owned FromMoves)); try reflexivity.
    apply touches_only_step. auto.
  - apply (preserves_fk_other (owned FromAbilities)); try reflexivity.
    apply touches_only_step. auto.
  - apply (preserves_fk_other (owned FromSpecies)); try reflexivity.
    apply touches_only_step. auto.
  - simpl. unfold migratePokedexes, tryPokedex, migratePokedex.
    apply preserves_try_catch; [|apply preserves_ret].
    apply preserves_bind; [apply preserves_lift|]. intros pokedexList.
    apply preserves_bind; [apply preserves_lift|]. intros results.
    apply preserves_for_of. intros pokedexRef.
    apply preserves_try_catch; [|preserves_tac].
    apply preserves_bind; [apply preserves_lift|]. intros _.
    apply preserves_bind; [apply preserves_lift|]. intros url.
    apply preserves_bind; [apply preserves_lift|]. intros pokedexData.
    apply preserves_bind; [apply preserves_fk_insertPokedex_of|]. intros _.
    apply preserves_bind; [apply preserves_lift|]. intros entries.
    destruct (truthy_opt entries); [|apply preserves_ret].
    apply preserves_bind; [apply preserves_lift|]. intros len.
    destruct (gt_zero len); [|apply preserves_ret].
    unfold insertEntriesTransaction.
    apply preserves_transaction, preserves_bind; [apply preserves_lift|].
    intros items. apply preserves_for_of. intros entry.
    apply preserves_fk_insertEntry_run.
Qed.

(** X8.  The migration keeps the foreign keys.  When every card and deck of
    the store refers to a stored set (or to none) and every pokedex entry to
    a stored pokedex (or to none), the same holds after the migration,
    whatever the sources hold and whether it returns or throws: a row that
    refers to a missing row is refused, and a replaced set or pokedex keeps
    its id. *)
Theorem migrate_keeps_foreign_keys (env : Env) (db : Db)
  (Hfk : foreign_keys_hold db = true) :
  foreign_keys_hold (fst (migrate env db)) = true.
Proof.
  revert db Hfk. change (preserves fk_ok (migrate env)).
  unfold migrate, initializeSchema.
  apply preserves_bind; [apply preserves_ret|]. intros _.
  apply preserves_bind; [apply preserves_fk_migrateSets|]. intros _.
  apply preserves_bind; [apply preserves_fk_migrateCards|]. intros _.
  apply preserves_bind; [apply preserves_fk_migrateDecks|]. intros _.
  apply preserves_bind; [apply (preserves_fk_step FromTypes)|]. intros _.
  apply preserves_bind; [apply (preserves_fk_step FromMoves)|]. intros _.
  apply preserves_bind; [apply (preserves_fk_step FromAbilities)|]. intros _.
  apply preserves_bind; [apply (preserves_fk_step FromSpecies)|]. intros _.
  apply (preserves_fk_step FromPokedexes).
Qed.

Lemma migrate_keeps_foreign_keys_witness :
  foreign_keys_hold empty_db = true
  /\ foreign_keys_hold (fst (migrate two_deck_files empty_db)) = true.
Proof.
  split; [reflexivity|].
  apply (migrate_keeps_foreign_keys two_deck_files empty_db). reflexivity.
Defined.

End ForeignKeys.

(** ** Records with the same identifier *)

Section LastRecord.



End LastRecord.

(** ** The set listing *)

Section SetListing.

Lemma ascii_compare_N (a b : ascii) :
  Ascii.compare a b = N.compare (N_of_ascii a) (N_of_ascii b).
Proof. reflexivity. Qed.

Lemma string_leb_trans (a b c : string) :
  String.leb a b = true -> String.leb b c = true -> String.leb a c = true.
Proof.
  unfold String.leb. revert b c.
  induction a as [|x a IH]; intros [|y b] [|z c]; simpl; try congruence.
  rewrite !ascii_compare_N.
  destruct (N.compare_spec (N_of_ascii x) (N_of_ascii y)) as [Hxy|Hxy|Hxy];
    destruct (N.compare_spec (N_of_ascii y) (N_of_ascii z)) as [Hyz|Hyz|Hyz];
    try congruence;
    destruct (N.compare_spec (N_of_ascii x) (N_of_ascii z)) as [Hxz|Hxz|Hxz];
    try congruence; try lia.
  apply IH.
Qed.

#[local] Instance by_releaseDate_transitive : Transitive by_releaseDate.
Proof.
  intros a b c. unfold by_releaseDate.
  destruct (SetRow.releaseDate a), (SetRow.releaseDate b),
    (SetRow.releaseDate c); try tauto.
  apply string_leb_trans.
Qed.

#[local] Instance by_releaseDate_total : Total by_releaseDate.
Proof.
  intros a b. unfold by_releaseDate.
  destruct (SetRow.releaseDate a), (SetRow.releaseDate b); auto.
  apply String.leb_total.
Qed.

Lemma StronglySorted_map {X Y} (R : X -> X -> Prop) (S : Y -> Y -> Prop)
  (f : X -> Y) l :
  (forall a b, R a b -> S (f a) (f b)) ->
  StronglySorted R l -> StronglySorted S (List.map f l).
Proof.
  intros HRS. induction 1 as [|a l Hl IH Ha]; simpl; constructor; [exact IH|].
  apply List.Forall_map. eapply List.Forall_impl; [|exact Ha].
  intros b. apply HRS.
Qed.

(** X10.  The set listing returns every stored set exactly once, in ascending
    order of release date (compared as text), the sets without a release
    date first. *)
Theorem getAllSets_sorted_by_release_date (db : Db) :
  StronglySorted by_release (getAllSets db)
  /\ Permutation (getAllSets db) (List.map transformSetRow (sets db))
  /\ List.length (getAllSets db) = List.length (sets db).
Proof.
  unfold getAllSets. split; [|split].
  - apply (StronglySorted_map by_releaseDate).
    + intros a b H. exact H.
    + apply StronglySorted_merge_sort; apply _.
  - apply Permutation_map, merge_sort_Permutation.
  - rewrite List.length_map.
    apply Permutation_length, merge_sort_Permutation.
Qed.



End SetListing.

(** ** The deck files *)

Section DeckFiles.

Lemma migrateDecks_loop env :
  migrateDecks env
  = try_catch (for_of (deckFiles env) deckFile_step) (ret tt).
Proof. unfold migrateDecks. destruct (deckFiles env); reflexivity. Qed.

Lemma atomic_deckFile_step f : atomic (deckFile_step f).
Proof.
  destruct f as [deckFile content]. unfold deckFile_step.
  apply atomic_after_load. intros decks.
  apply atomic_after_load. intros normalized.
  apply atomic_transaction.
Qed.

Lemma for_of_app {X} (xs ys : list X) (body : X -> M unit) db :
  for_of (xs ++ ys) body db
  = match for_of xs body db with
    | (db', Returned _) => for_of ys body db'
    | (db', Thrown e) => (db', Thrown e)
    end.
Proof.
  revert db. induction xs as [|x xs IH]; intros db; [reflexivity|].
  simpl. unfold bind. destruct (body x db) as [db' [[]|e]]; [apply IH|].
  reflexivity.
Qed.

(** X12.  The deck step never throws and writes the decks table only; without
    deck files it writes nothing. *)
Theorem migrateDecks_never_throws (env : Env) (db : Db) :
  snd (migrateDecks env db) = Returned tt
  /\ same_outside only_decks db (fst (migrateDecks env db))
  /\ (deckFiles env = [] -> migrateDecks env db = (db, Returned tt)).
Proof.
  split; [|split].
  - unfold migrateDecks. apply always_returns_try_catch.
  - apply touches_only_migrateDecks. reflexivity.
  - intros Hnone. unfold migrateDecks. rewrite Hnone. reflexivity.
Qed.

(** X13.  The deck files are stored one by one, each in its own transaction,
    and the first file that fails ends the step without an error: the decks
    of the files before it stay, nothing of the failing file is stored, and
    the files after it are not read. *)
Theorem migrateDecks_stops_at_first_bad_file (env : Env) (db db1 : Db)
  (pre post : list (string * file json)) (bad : string * file json)
  (e : error)
  (Hfiles : deckFiles env = (pre ++ bad :: post)%list)
  (Hpre : for_of pre deckFile_step db = (db1, Returned tt))
  (Hbad : snd (deckFile_step bad db1) = Thrown e) :
  migrateDecks env db = (db1, Returned tt).
Proof.
  rewrite migrateDecks_loop, Hfiles. unfold try_catch.
  rewrite for_of_app, Hpre. simpl. unfold bind.
  destruct (deckFile_step bad db1) as [db2 [[]|e']] eqn:Hstep;
    simpl in Hbad; [discriminate|].
  rewrite (atomic_deckFile_step bad db1 db2 e' Hstep). reflexivity.
Qed.

Lemma migrateDecks_stops_at_first_bad_file_witness :
  deckFiles two_deck_files
  = ([("decks/en/base1.json",
       Parsed (JArr [JObj [("name", JStr "Overgrowth")]]))]
     ++ ("decks/en/xy0.json", Parsed (JArr [JObj [("name", JStr "Unknown")]]))
     :: [])%list
  /\ exists db1,
       List.map key (decks db1) = [SqlText "base1-deck-0"]
       /\ migrateDecks two_deck_files
            (fst ((migrateSets two_deck_files ;; migrateCards two_deck_files)
                    empty_db))
          = (db1, Returned tt).
Proof.
  split; [reflexivity|].
  eexists. split.
  2:{ apply (migrateDecks_stops_at_first_bad_file two_deck_files _ _
               [("decks/en/base1.json",
                 Parsed (JArr [JObj [("name", JStr "Overgrowth")]]))]
               []
               ("decks/en/xy0.json",
                Parsed (JArr [JObj [("name", JStr "Unknown")]]))
               (SqliteError "FOREIGN KEY constraint failed"));
      reflexivity. }
  reflexivity.
Defined.

Lemma truthy_or_else a b : truthy b = true -> truthy (or_else a b) = true.
Proof.
  intros Hb. unfold or_else. destruct a as [x|]; [|exact Hb].
  destruct (truthy x) eqn:Hx; [exact Hx|exact Hb].
Qed.

Lemma or_else_truthy x b : truthy x = true -> or_else (Some x) b = x.
Proof. intros Hx. unfold or_else. rewrite Hx. reflexivity. Qed.

Lemma truthy_text (s t : string) (c : ascii) :
  truthy (JStr (s ++ String c t)) = true.
Proof. destruct s; reflexivity. Qed.

Lemma normalize_decks_spec setId items : forall index ds,
  normalize_decks setId index items = Returned ds ->
  List.length ds = List.length items
  /\ forall (i : nat) deck d,
       items !! i = Some deck -> ds !! i = Some d ->
       exists id name cards,
         prop "id" (Some deck) = Returned id
         /\ prop "name" (Some deck) = Returned name
         /\ prop "cards" (Some deck) = Returned cards
         /\ Deck.setId d = setId
         /\ Deck.id d
            = or_else id (JStr (setId ++ "-deck-"
                                ++ String_of_number (index + Z.of_nat i)))
         /\ Deck.name d
            = or_else name
                (JStr (setId ++ " Deck "
                       ++ String_of_number (index + Z.of_nat i + 1)))
         /\ Deck.cards d = or_else cards deck.
Proof.
  induction items as [|deck0 items IH]; intros index ds Hrun.
  - injection Hrun as <-. split; [reflexivity|]. intros i deck d Hi.
    destruct i; discriminate.
  - cbn [normalize_decks] in Hrun.
    destruct (prop "id" (Some deck0)) as [id|] eqn:Hid; [|discriminate].
    destruct (prop "name" (Some deck0)) as [name|] eqn:Hname;
      [|discriminate].
    destruct (prop "cards" (Some deck0)) as [cards|] eqn:Hcards;
      [|discriminate].
    cbn [obind] in Hrun.
    destruct (normalize_decks setId (index + 1) items) as [r|] eqn:Hrest;
      [|discriminate].
    injection Hrun as <-. destruct (IH _ _ Hrest) as [Hlen Hnth].
    split; [simpl; congruence|]. intros [|i] deck d Hi Hd; simpl in Hi, Hd.
    + injection Hi as <-. injection Hd as <-.
      exists id, name, cards. rewrite Z.add_0_r. simpl. auto 10.
    + destruct (Hnth i deck d Hi Hd)
        as (id' & name' & cards' & H1 & H2 & H3 & H4 & H5 & H6 & H7).
      exists id', name', cards'.
      replace (index + Z.of_nat (S i)) with (index + 1 + Z.of_nat i) by lia.
      auto 10.
Qed.

(** X14.  What the normalization of a deck file gives.  A file that holds an
    array gives one deck per element, in order; the deck at (zero-based)
    position [i] keeps its own id, name and cards when they are truthy and
    otherwise gets the id [<set>-deck-<i>], the name [<set> Deck <i+1>] and
    the element itself as cards.  Any other content gives the single deck
    [<set>-deck].  Every deck carries the set id of the file, and its id and
    name are truthy, so the defaults of the insert statement are never
    used. *)
Theorem normalizedDecks_fills_defaults (setId : string) (decks : json)
  (ds : list Deck.t)
  (Hrun : normalizedDecks setId decks = Returned ds) :
  Forall (fun d => Deck.setId d = setId
                   /\ (forall dflt, or_else (Some (Deck.id d)) dflt = Deck.id d)
                   /\ (forall dflt,
                         or_else (Some (Deck.name d)) dflt = Deck.name d)) ds
  /\ match decks with
     | JArr items =>
         List.length ds = List.length items
         /\ forall (i : nat) deck d,
              items !! i = Some deck -> ds !! i = Some d ->
              exists id name cards,
                prop "id" (Some deck) = Returned id
                /\ prop "name" (Some deck) = Returned name
                /\ prop "cards" (Some deck) = Returned cards
                /\ Deck.id d
                   = or_else id (JStr (setId ++ "-deck-"
                                       ++ String_of_number (Z.of_nat i)))
                /\ Deck.name d
                   = or_else name
                       (JStr (setId ++ " Deck "
                              ++ String_of_number (Z.of_nat i + 1)))
                /\ Deck.cards d = or_else cards deck
     | _ => ds = [Deck.mk (JStr (setId ++ "-deck")) (JStr (setId ++ " Deck"))
                          setId decks]
     end.
Proof.
  assert (Harr : forall items,
            normalize_decks setId 0 items = Returned ds ->
            Forall (fun d => Deck.setId d = setId
                             /\ (forall dflt,
                                   or_else (Some (Deck.id d)) dflt = Deck.id d)
                             /\ (forall dflt,
                                   or_else (Some (Deck.name d)) dflt
                                   = Deck.name d)) ds).
  { intros items Hitems.
    destruct (normalize_decks_spec setId items 0 ds Hitems) as [Hlen Hnth].
    apply List.Forall_forall. intros d Hd.
    apply list_elem_of_In, list_elem_of_lookup in Hd. destruct Hd as [i Hd].
    destruct (items !! i) as [deck|] eqn:Hdeck.
    2:{ apply lookup_ge_None in Hdeck. apply lookup_lt_Some in Hd. lia. }
    destruct (Hnth i deck d Hdeck Hd)
      as (id & name & cards & _ & _ & _ & Hset & Hi & Hn & _).
    split; [exact Hset|].
    split; intros dflt; apply or_else_truthy; [rewrite Hi|rewrite Hn];
      apply truthy_or_else, truthy_text. }
  destruct decks as [| | | |items|];
    try (injection Hrun as <-; split; [|reflexivity];
         repeat constructor; intros dflt; apply or_else_truthy;
         apply truthy_text).
  split; [apply (Harr items Hrun)|].
  destruct (normalize_decks_spec setId items 0 ds Hrun) as [Hlen Hnth].
  split; [exact Hlen|]. intros i deck d Hdeck Hd.
  destruct (Hnth i deck d Hdeck Hd)
    as (id & name & cards & H1 & H2 & H3 & _ & H5 & H6 & H7).
  exists id, name, cards. auto 10.
Qed.

Lemma normalizedDecks_fills_defaults_witness :
  normalizedDecks "base1"
    (JArr [JObj [("name", JStr "Overgrowth")]; JObj [("id", JStr "d2")]])
  = Returned
      [Deck.mk (JStr "base1-deck-0") (JStr "Overgrowth") "base1"
               (JObj [("name", JStr "Overgrowth")]);
       Deck.mk (JStr "d2") (JStr "base1 Deck 2") "base1"
               (JObj [("id", JStr "d2")])]
  /\ Forall (fun d => Deck.setId d = "base1"
                      /\ (forall dflt,
                            or_else (Some (Deck.id d)) dflt = Deck.id d)
                      /\ (forall dflt,
                            or_else (Some (Deck.name d)) dflt = Deck.name d))
       [Deck.mk (JStr "base1-deck-0") (JStr "Overgrowth") "base1"
                (JObj [("name", JStr "Overgrowth")]);
        Deck.mk (JStr "d2") (JStr "base1 Deck 2") "base1"
                (JObj [("id", JStr "d2")])].
Proof.
  split; [reflexivity|].
  apply (normalizedDecks_fills_defaults "base1"
           (JArr [JObj [("name", JStr "Overgrowth")];
                  JObj [("id", JStr "d2")]])).
  reflexivity.
Defined.

End DeckFiles.

(** ** Numbers in texts: [String], [parseInt] and [split] *)

Section Numerals.

Lemma read_digits_numeral d : forall acc,
  read_digits 10 (Some acc)
    (list_ascii_of_string (NilEmpty.string_of_uint d))
  = Some (uint_value d acc).
Proof.
  induction d; intros acc; simpl; try reflexivity; rewrite IHd;
    do 2 f_equal;
    match goal with
    | |- context [Z.of_nat ?x] =>
        let v := eval vm_compute in (Z.of_nat x) in
        change (Z.of_nat x) with v
    end; lia.
Qed.

Lemma uint_value_acc d : forall acc,
  Z.pos (Pos.of_uint_acc d acc) = uint_value d (Z.pos acc).
Proof.
  induction d; intros acc; simpl; try reflexivity; rewrite IHd; f_equal; lia.
Qed.

Lemma uint_value_of_uint d : uint_value d 0 = Z.of_N (Pos.of_uint d).
Proof.
  induction d; simpl; try reflexivity; try exact IHd;
    rewrite uint_value_acc; reflexivity.
Qed.

Lemma strip_hex_prefix_numeral d :
  strip_hex_prefix (list_ascii_of_string (NilEmpty.string_of_uint d)) = None.
Proof. destruct d as [|d|d|d|d|d|d|d|d|d|d]; try reflexivity; destruct d; reflexivity. Qed.

(** [parseInt] of a numeral that may follow a sign. *)
Lemma parse_numeral d :
  d <> Decimal.Nil ->
  parseInt_string (NilEmpty.string_of_uint d) = Some (uint_value d 0)
  /\ parseInt_string (String "-" (NilEmpty.string_of_uint d))
     = Some (- uint_value d 0).
Proof.
  intros Hd. unfold parseInt_string. split.
  - replace (trimStart_chars
               (list_ascii_of_string (NilEmpty.string_of_uint d)))
      with (list_ascii_of_string (NilEmpty.string_of_uint d))
      by (destruct d; try reflexivity; congruence).
    replace (match list_ascii_of_string (NilEmpty.string_of_uint d) with
             | "-"%char :: rest => (-1, rest)
             | "+"%char :: rest => (1, rest)
             | _ => (1, list_ascii_of_string (NilEmpty.string_of_uint d))
             end)
      with (1, list_ascii_of_string (NilEmpty.string_of_uint d))
      by (destruct d; reflexivity).
    rewrite strip_hex_prefix_numeral.
    destruct d; try congruence; simpl; rewrite read_digits_numeral;
      f_equal; destruct (uint_value _ _); reflexivity.
  - change (list_ascii_of_string (String "-" (NilEmpty.string_of_uint d)))
      with ("-"%char :: list_ascii_of_string (NilEmpty.string_of_uint d)).
    change (trimStart_chars
              ("-"%char :: list_ascii_of_string (NilEmpty.string_of_uint d)))
      with ("-"%char :: list_ascii_of_string (NilEmpty.string_of_uint d)).
    cbv iota beta. rewrite strip_hex_prefix_numeral.
    destruct d; try congruence; simpl; rewrite read_digits_numeral;
      f_equal; destruct (uint_value _ _); reflexivity.
Qed.

(** [parseInt(String(n))] is [n]. *)
Lemma parseInt_String_of_number n :
  parseInt_string (String_of_number n) = Some n.
Proof.
  unfold String_of_number. destruct n as [|p|p]; [reflexivity| |]; simpl.
  - pose proof (DecimalPos.Unsigned.to_uint_nonnil p) as Hnil.
    replace (NilZero.string_of_uint (Pos.to_uint p))
      with (NilEmpty.string_of_uint (Pos.to_uint p))
      by (destruct (Pos.to_uint p) eqn:E; try reflexivity;
          destruct (Hnil eq_refl)).
    destruct (parse_numeral _ Hnil) as [-> _].
    rewrite uint_value_of_uint, DecimalPos.Unsigned.of_to. reflexivity.
  - pose proof (DecimalPos.Unsigned.to_uint_nonnil p) as Hnil.
    replace (NilZero.string_of_uint (Pos.to_uint p))
      with (NilEmpty.string_of_uint (Pos.to_uint p))
      by (destruct (Pos.to_uint p) eqn:E; try reflexivity;
          destruct (Hnil eq_refl)).
    destruct (parse_numeral _ Hnil) as [_ ->].
    rewrite uint_value_of_uint, DecimalPos.Unsigned.of_to. reflexivity.
Qed.



Lemma split_free sep s : free_of sep s = true -> split sep s = [s].
Proof.
  induction s as [|c s IH]; [reflexivity|]. simpl.
  destruct (Ascii.eqb c sep); [discriminate|]. simpl. intros H.
  rewrite (IH H). reflexivity.
Qed.

Lemma split_nonempty sep s : split sep s <> [].
Proof.
  destruct s as [|c s]; simpl; [discriminate|].
  destruct (Ascii.eqb c sep); [discriminate|].
  destruct (split sep s); discriminate.
Qed.

(** Splitting at an occurrence of the separator. *)
Lemma split_at sep (a b : string) :
  split sep (a ++ String sep b) = (split sep a ++ split sep b)%list.
Proof.
  induction a as [|c a IH]; simpl.
  - rewrite Ascii.eqb_refl. reflexivity.
  - destruct (Ascii.eqb c sep); [rewrite IH; reflexivity|].
    rewrite IH. pose proof (split_nonempty sep a) as Hne.
    destruct (split sep a); [congruence|reflexivity].
Qed.


End Numerals.

(** ** The species of a pokedex entry *)

Section SpeciesId.





End SpeciesId.

(** ** The values of a filter parameter *)

Section Trimming.

Lemma strip_prefix_app p s s' :
  strip_prefix p s = Some s' ->
  exists pre, s = (pre ++ s')%list /\ List.length pre = List.length p.
Proof.
  revert s. induction p as [|b p IH]; intros s H.
  - injection H as <-. exists []. auto.
  - destruct s as [|c s]; [discriminate|]. simpl in H.
    destruct (Nat.eqb b (nat_of_ascii c)); [|discriminate].
    destruct (IH s H) as (pre & -> & Hlen). exists (c :: pre).
    simpl. auto.
Qed.

Lemma strip_prefix_more p s s' t :
  strip_prefix p s = Some s' -> strip_prefix p (s ++ t) = Some (s' ++ t)%list.
Proof.
  revert s. induction p as [|b p IH]; intros s H.
  - injection H as <-. reflexivity.
  - destruct s as [|c s]; [discriminate|]. simpl in *.
    destruct (Nat.eqb b (nat_of_ascii c)); [auto|discriminate].
Qed.

Lemma strip_one_shorter ws s s' :
  Forall (fun p => p <> []) ws ->
  strip_one ws s = Some s' ->
  exists pre, s = (pre ++ s')%list /\ pre <> [].
Proof.
  induction 1 as [|p l Hp Hl IH]; simpl; [discriminate|].
  destruct (strip_prefix p s) as [r|] eqn:Hstrip; [|exact IH].
  intros [= <-]. destruct (strip_prefix_app p s r Hstrip) as (pre & -> & Hlen).
  exists pre. split; [reflexivity|]. destruct pre; [|discriminate].
  destruct p; [congruence|discriminate].
Qed.

Lemma strip_one_more ws s s' t :
  strip_one ws s = Some s' -> exists r, strip_one ws (s ++ t) = Some r.
Proof.
  induction ws as [|p l IH]; simpl; [discriminate|].
  destruct (strip_prefix p s) as [r|] eqn:Hstrip.
  - intros _. rewrite (strip_prefix_more p s r t Hstrip). eauto.
  - intros H. destruct (strip_prefix p (s ++ t)); eauto.
Qed.

Lemma strip_one_prefix ws s t :
  strip_one ws (s ++ t) = None -> strip_one ws s = None.
Proof.
  intros H. destruct (strip_one ws s) as [s'|] eqn:Hs; [|reflexivity].
  destruct (strip_one_more ws s s' t Hs) as [r Hr]. congruence.
Qed.

Lemma strip_leading_suffix ws fuel s :
  Forall (fun p => p <> []) ws ->
  exists pre, s = (pre ++ strip_leading fuel ws s)%list.
Proof.
  intros Hws. revert s.
  induction fuel as [|fuel IH]; intros s; [exists []; reflexivity|].
  simpl. destruct (strip_one ws s) as [s'|] eqn:Hs; [|exists []; reflexivity].
  destruct (strip_one_shorter ws s s' Hws Hs) as (pre & -> & _).
  destruct (IH s') as [pre' Hpre']. exists (pre ++ pre')%list.
  rewrite <- List.app_assoc, <- Hpre'. reflexivity.
Qed.

Lemma strip_leading_done ws fuel s :
  Forall (fun p => p <> []) ws ->
  (List.length s <= fuel)%nat ->
  strip_one ws (strip_leading fuel ws s) = None.
Proof.
  intros Hws. revert s. induction fuel as [|fuel IH]; intros s Hlen.
  - destruct s; [|simpl in Hlen; lia]. simpl.
    destruct (strip_one ws []) as [s'|] eqn:Hs; [|reflexivity].
    destruct (strip_one_shorter ws [] s' Hws Hs) as (pre & Hpre & Hne).
    destruct pre; [congruence|discriminate].
  - simpl. destruct (strip_one ws s) as [s'|] eqn:Hs; [|exact Hs].
    apply IH. destruct (strip_one_shorter ws s s' Hws Hs) as (pre & -> & Hne).
    rewrite List.length_app in Hlen. destruct pre; [congruence|].
    simpl in Hlen. lia.
Qed.

Lemma strip_leading_fixed ws fuel s :
  strip_one ws s = None -> strip_leading fuel ws s = s.
Proof. intros H. destruct fuel; simpl; [|rewrite H]; reflexivity. Qed.

End Trimming.

Section Selected.

Lemma whitespace_nonempty : Forall (fun p => p <> []) whitespace.
Proof. unfold whitespace. repeat constructor; discriminate. Qed.

Lemma whitespace_rev_nonempty :
  Forall (fun p => p <> []) (List.map (@rev nat) whitespace).
Proof. unfold whitespace. simpl. repeat constructor; discriminate. Qed.

(** The characters [trim] keeps: a stretch of the string that neither
    starts nor ends with white space. *)
Lemma trim_chars s :
  exists pre post,
    list_ascii_of_string s
    = (pre ++ list_ascii_of_string (trim s) ++ post)%list
    /\ strip_one whitespace (list_ascii_of_string (trim s)) = None
    /\ strip_one (List.map (@rev nat) whitespace)
         (rev (list_ascii_of_string (trim s))) = None.
Proof.
  unfold trim. rewrite list_ascii_of_string_of_list_ascii.
  set (s0 := list_ascii_of_string s).
  unfold trimStart_chars, trimEnd_chars.
  destruct (strip_leading_suffix whitespace (List.length s0) s0
              whitespace_nonempty) as [pre Hpre].
  pose proof (strip_leading_done whitespace (List.length s0) s0
                whitespace_nonempty (le_n _)) as Hstart.
  set (t1 := strip_leading (List.length s0) whitespace s0) in *.
  destruct (strip_leading_suffix _ (List.length t1) (rev t1)
              whitespace_rev_nonempty) as [post Hpost].
  pose proof (strip_leading_done _ (List.length t1) (rev t1)
                whitespace_rev_nonempty) as Hend.
  rewrite List.length_rev in Hend. specialize (Hend (le_n _)).
  set (u := strip_leading (List.length t1) (List.map (@rev nat) whitespace)
              (rev t1)) in *.
  assert (Ht1 : t1 = (rev u ++ rev post)%list).
  { rewrite <- List.rev_app_distr, <- Hpost, List.rev_involutive.
    reflexivity. }
  exists pre, (rev post). split; [|split].
  - rewrite Hpre at 1. rewrite Ht1. reflexivity.
  - apply (strip_one_prefix whitespace (rev u) (rev post)).
    rewrite <- Ht1. exact Hstart.
  - rewrite List.rev_involutive. exact Hend.
Qed.

(** [trim] changes nothing in what it returned. *)
Lemma trim_idempotent s : trim (trim s) = trim s.
Proof.
  destruct (trim_chars s) as (_ & _ & _ & Hstart & Hend).
  set (t := trim s) in *. unfold trim, trimStart_chars, trimEnd_chars.
  rewrite (strip_leading_fixed whitespace _ _ Hstart).
  rewrite (strip_leading_fixed _ _ _ Hend).
  rewrite List.rev_involutive. apply string_of_list_ascii_of_string.
Qed.

Lemma free_of_chars sep s :
  free_of sep s = true <-> ~ In sep (list_ascii_of_string s).
Proof.
  induction s as [|c s IH]; simpl; [tauto|].
  rewrite andb_true_iff, negb_true_iff, Ascii.eqb_neq, IH. intuition.
Qed.

Lemma trim_free sep s : free_of sep s = true -> free_of sep (trim s) = true.
Proof.
  rewrite !free_of_chars. intros H Hin. apply H.
  destruct (trim_chars s) as (pre & post & -> & _).
  apply List.in_app_iff. right. apply List.in_app_iff. left. exact Hin.
Qed.

Lemma split_pieces_free sep s piece :
  In piece (split sep s) -> free_of sep piece = true.
Proof.
  revert piece. induction s as [|c s IH]; intros piece; simpl.
  - intros [<-|[]]. reflexivity.
  - destruct (Ascii.eqb c sep) eqn:Hc.
    + intros [<-|Hin]; [reflexivity|apply IH, Hin].
    + pose proof (split_nonempty sep s) as Hne.
      destruct (split sep s) as [|hd tl]; [congruence|].
      intros [<-|Hin].
      * simpl. rewrite Hc. simpl. apply IH. left. reflexivity.
      * apply IH. right. exact Hin.
Qed.

(** X16.  The values selected from a filter parameter.  Each value is a piece
    between commas with the white space around it removed: it is not empty,
    holds no comma and has no white space left to trim; an absent or empty
    parameter selects nothing.  When no parameter selects a value the handler
    returns the whole listing. *)
Theorem filter_parameters_are_cleaned (q : option string) :
  Forall (fun x => x <> "" /\ trim x = x /\ free_of "," x = true)
         (selected q)
  /\ (q = None \/ q = Some "" -> selected q = [])
  /\ (forall (query : Query.t) (db : Db),
        selected (Query.types query) = [] ->
        selected (Query.subtypes query) = [] ->
        selected (Query.years query) = [] ->
        selected (Query.sets query) = [] ->
        selected (Query.rarities query) = [] ->
        FilterResponse.cards (filterHandler query db) = getAllCards None db).
Proof.
  split; [|split].
  - apply List.Forall_forall. intros x Hx. unfold selected in Hx.
    destruct (negb (String.eqb (str_or_else q "") "")); [|destruct Hx].
    apply List.filter_In in Hx. destruct Hx as [Hx Hne].
    apply List.in_map_iff in Hx. destruct Hx as (piece & <- & Hpiece).
    split; [|split].
    + apply negb_true_iff, String.eqb_neq in Hne. exact Hne.
    + apply trim_idempotent.
    + apply trim_free, (split_pieces_free _ _ _ Hpiece).
  - intros [->| ->]; reflexivity.
  - intros query db H1 H2 H3 H4 H5. unfold filterHandler.
    rewrite H1, H2, H3, H4, H5. reflexivity.
Qed.

End Selected.

(** ** The pokedex endpoints *)

Section PokedexEndpoints.

Variable json_text : json -> string.
Variable JSON_parse_text : string -> outcome json.

#[local] Instance sql_le_transitive : Transitive sql_le.
Proof.
  intros [|x|x] [|y|y] [|z|z]; simpl; try tauto; try lia.
  apply string_leb_trans.
Qed.

#[local] Instance sql_le_total : Total sql_le.
Proof.
  intros [|x|x] [|y|y]; simpl; auto; try lia. apply String.leb_total.
Qed.

#[local] Instance order_by_transitive i : Transitive (order_by json_text i).
Proof. intros a b c. unfold order_by. apply sql_le_transitive. Qed.

#[local] Instance order_by_total i : Total (order_by json_text i).
Proof. intros a b. unfold order_by. apply sql_le_total. Qed.

Lemma sql_eq_iff a b : sql_eq a b = true <-> a = b /\ a <> SqlNull.
Proof.
  destruct a as [|x|x], b as [|y|y]; simpl; split;
    try discriminate; try (intros [? ?]; congruence).
  - intros H. apply Z.eqb_eq in H. subst. split; [reflexivity|discriminate].
  - intros [[= ->] _]. apply Z.eqb_refl.
  - intros H. apply String.eqb_eq in H. subst.
    split; [reflexivity|discriminate].
  - intros [[= ->] _]. apply String.eqb_refl.
Qed.

Lemma entries_of_In pokedexId db e :
  In e (entries_of json_text pokedexId db)
  <-> In e (pokedex_entries db)
      /\ column json_text 1 e = pokedexId /\ pokedexId <> SqlNull.
Proof.
  unfold entries_of.
  rewrite <- list_elem_of_In, merge_sort_Permutation, list_elem_of_In.
  rewrite List.filter_In, sql_eq_iff. split.
  - intros (Hin & Heq & Hnull). rewrite Heq in Hnull. auto.
  - intros (Hin & Heq & Hnull). rewrite Heq. auto.
Qed.

(** X17.  What [GET /v2/pokedexes/:id/entries] returns.  The endpoint always
    answers with a body: the stored entries whose pokedex is the number the
    id starts with, each exactly once, in ascending order of entry number,
    with their count.  For an id that does not start with a number, and for a
    number no entry refers to, the list is empty. *)
Theorem entries_endpoint_lists_the_pokedex (id : string) (db : Db) :
  exists body,
    entriesHandler json_text id db = Ok body
    /\ EntriesResponse.pokedexId body = parseInt_string id
    /\ EntriesResponse.count body
       = Z.of_nat (List.length (EntriesResponse.entries body))
    /\ StronglySorted (order_by json_text 2) (EntriesResponse.entries body)
    /\ Permutation (EntriesResponse.entries body)
         (List.filter
            (fun e => sql_eq (column json_text 1 e)
                             (bind_number (parseInt_string id)))
            (pokedex_entries db))
    /\ (forall e, In e (EntriesResponse.entries body) ->
          exists n, parseInt_string id = Some n
                    /\ column json_text 1 e = SqlInteger n)
    /\ (parseInt_string id = None -> EntriesResponse.entries body = []).
Proof.
  eexists. split; [reflexivity|]. cbn [EntriesResponse.pokedexId
    EntriesResponse.count EntriesResponse.entries parseInt].
  split; [reflexivity|]. split; [reflexivity|].
  split; [apply StronglySorted_merge_sort; apply _|].
  split; [apply merge_sort_Permutation|]. split.
  - intros e He. apply entries_of_In in He. destruct He as (_ & Hcol & Hnull).
    destruct (parseInt_string id) as [n|]; [|simpl in Hnull; congruence].
    exists n. auto.
  - intros Hnan. rewrite Hnan. unfold entries_of. simpl.
    rewrite filter_nil; [reflexivity|].
    intros e _. destruct (column json_text 1 e); reflexivity.
Qed.

Lemma find_none_iff {X} (f : X -> bool) l :
  List.find f l = None <-> forall x, In x l -> f x = false.
Proof.
  split; [apply List.find_none|].
  induction l as [|x l IH]; intros H; [reflexivity|]. simpl.
  rewrite (H x (or_introl eq_refl)). apply IH. intros y Hy. apply H.
  right. exact Hy.
Qed.

(** X18.  What [GET /v2/pokedexes/:id] answers.  The status is 404 exactly
    when no stored pokedex has as id the number the request id starts with,
    so always when the id does not start with a number.  A body, when there
    is one, is a stored pokedex with that id and carries the entries, and
    their count, that the entries endpoint returns for the same id. *)
Theorem pokedex_endpoint_finds_by_id (id : string) (db : Db) :
  (pokedexHandler json_text JSON_parse_text id db = NotFound
   <-> forall n r, parseInt_string id = Some n -> In r (pokedexes db) ->
                   column json_text 0 r <> SqlInteger n)
  /\ (parseInt_string id = None ->
      pokedexHandler json_text JSON_parse_text id db = NotFound)
  /\ (forall body,
        pokedexHandler json_text JSON_parse_text id db = Ok body ->
        In (PokedexResponse.pokedex body) (pokedexes db)
        /\ (exists n, parseInt_string id = Some n
                      /\ column json_text 0 (PokedexResponse.pokedex body)
                         = SqlInteger n)
        /\ entriesHandler json_text id db
           = Ok (EntriesResponse.mk (PokedexResponse.entries body)
                   (PokedexResponse.entryCount body) (parseInt_string id))).
Proof.
  assert (Hnot : pokedexHandler json_text JSON_parse_text id db = NotFound
                 <-> List.find
                       (fun r => sql_eq (column json_text 0 r)
                                   (bind_number (parseInt_string id)))
                       (pokedexes db) = None).
  { unfold pokedexHandler. cbn [parseInt].
    destruct (List.find _ _) as [r|]; [|tauto].
    split; [|discriminate].
    destruct (parse_column _ 2 r _); [|discriminate].
    destruct (parse_column _ 3 r _); discriminate. }
  split; [|split].
  - rewrite Hnot, find_none_iff. split.
    + intros H n r Hn Hr Hcol. specialize (H r Hr).
      rewrite Hn, Hcol in H. simpl in H. rewrite Z.eqb_refl in H.
      discriminate.
    + intros H r Hr. destruct (parseInt_string id) as [n|] eqn:Hn; simpl.
      * destruct (sql_eq _ _) eqn:Heq; [|reflexivity].
        apply sql_eq_iff in Heq. destruct Heq as [Heq _].
        destruct (H n r eq_refl Hr Heq).
      * destruct (column json_text 0 r); reflexivity.
  - intros Hnan. apply Hnot, find_none_iff. intros r _. rewrite Hnan.
    destruct (column json_text 0 r); reflexivity.
  - intros body. unfold pokedexHandler, entriesHandler. cbn [parseInt].
    destruct (List.find _ _) as [r|] eqn:Hfind; [|discriminate].
    destruct (parse_column _ 2 r _) as [d|]; [|discriminate].
    destruct (parse_column _ 3 r _) as [m|]; [|discriminate].
    intros [= <-]. simpl. apply List.find_some in Hfind.
    destruct Hfind as [Hin Heq]. split; [exact Hin|]. split; [|reflexivity].
    apply sql_eq_iff in Heq. destruct Heq as [Heq Hnull].
    destruct (parseInt_string id) as [n|];
      [|rewrite Heq in Hnull; simpl in Hnull; congruence].
    exists n. auto.
Qed.

Lemma store_cells_nullable a cols v args :
  store_cells ((a, false) :: cols) (v :: args)
  = obind (store_cells cols args) (fun r => Returned (store_cell a v :: r)).
Proof.
  cbn [store_cells]. destruct (store_cell a v) as [[| |]|]; reflexivity.
Qed.


(** The row an entry insert adds, at the end of the table. *)
Lemma insertEntry_run_row a1 a2 a3 a4 db db' :
  insertEntry_run [a1; a2; a3; a4] db = (db', Returned tt) ->
  exists v1 v2 v3 v4,
    a1 = Returned v1 /\ a2 = Returned v2 /\ a3 = Returned v3
    /\ a4 = Returned v4
    /\ db' = with_pokedex_entries
               (pokedex_entries db
                ++ [[Scalar (SqlInteger (next_rowid (pokedex_entries db)));
                     store_cell INTEGER v1; store_cell INTEGER v2;
                     store_cell INTEGER v3; store_cell TEXT v4]])%list db.
Proof.
  unfold insertEntry_run, run_insert. cbn [sequence obind].
  destruct a1 as [v1|]; [|discriminate].
  destruct a2 as [v2|]; [|discriminate].
  destruct a3 as [v3|]; [|discriminate].
  destruct a4 as [v4|]; [|discriminate].
  cbn [sequence obind]. unfold pokedex_entries_schema at 1. cbn [columns].
  rewrite !store_cells_nullable. cbn [store_cells obind store_cell
    apply_affinity].
  unfold assign_key. cbn [integer_key pokedex_entries_schema].
  destruct (entry_fk db _); [|discriminate].
  intros [= <-]. exists v1, v2, v3, v4. repeat split.
  f_equal. unfold replace_row. rewrite filter_keeps_all; [reflexivity|].
  intros old Hold. cbn [key]. rewrite next_rowid_fresh by assumption.
  reflexivity.
Qed.

Lemma column_1_of_entry_row k v1 v2 v3 v4 n :
  v1 = Scalar (SqlInteger n) ->
  column json_text 1
    [Scalar (SqlInteger k); store_cell INTEGER v1; store_cell INTEGER v2;
     store_cell INTEGER v3; store_cell TEXT v4]
  = SqlInteger n.
Proof. intros ->. reflexivity. Qed.

(** What the loop over the entries of one pokedex adds to the table. *)
Lemma for_of_entries_rows pokedexData n items : forall db db',
  prop "id" (Some pokedexData) = Returned (Some (JNum n)) ->
  for_of items (fun entry =>
    insertEntry_run
      [ arg "id" pokedexData;
        arg "entry_number" entry;
        speciesIdOfEntry entry;
        obind (prop "pokemon_species" (Some entry)) (fun species =>
        obind (prop "name" species) (fun n => omap Scalar (bind_param n))) ])
    db = (db', Returned tt) ->
  exists rows,
    db' = with_pokedex_entries (pokedex_entries db ++ rows)%list db
    /\ List.length rows = List.length items
    /\ Forall (fun r => column json_text 1 r = SqlInteger n) rows.
Proof.
  intros db db' Hid. revert db.
  induction items as [|entry items IH]; intros db Hrun.
  - injection Hrun as <-. exists []. rewrite app_nil_r.
    split; [destruct db; reflexivity|]. split; [reflexivity|constructor].
  - cbn [for_of] in Hrun. unfold bind at 1 in Hrun.
    destruct (insertEntry_run _ db) as [db1 [[]|e]] eqn:Hone;
      [|discriminate].
    apply insertEntry_run_row in Hone.
    destruct Hone as (v1 & v2 & v3 & v4 & H1 & _ & _ & _ & ->).
    apply IH in Hrun. destruct Hrun as (rows & -> & Hlen & Hrows).
    eexists (_ :: rows). split; [|split].
    + cbn [pokedex_entries with_pokedex_entries].
      rewrite <- List.app_assoc. reflexivity.
    + simpl. rewrite Hlen. reflexivity.
    + constructor; [|exact Hrows]. apply column_1_of_entry_row.
      unfold arg in H1. rewrite Hid in H1. simpl in H1. congruence.
Qed.

(** X19.  Ingesting the entries of a pokedex is seen by the entries endpoint.
    When the transaction over the entries of the pokedex with id [n]
    returns, the endpoint lists for [n] as many entries more as the pokedex
    has, and what it lists for any other pokedex is unchanged.  (Entries are
    added, never replaced: ingesting the same pokedex again lists them
    twice.) *)
Theorem entries_endpoint_after_ingestion (pokedexData : json)
  (items : list json) (n : Z) (db db' : Db)
  (Hid : prop "id" (Some pokedexData) = Returned (Some (JNum n)))
  (Hrun : insertEntriesTransaction pokedexData (Some (JArr items)) db
          = (db', Returned tt)) :
  (exists body body',
     entriesHandler json_text (String_of_number n) db = Ok body
     /\ entriesHandler json_text (String_of_number n) db' = Ok body'
     /\ EntriesResponse.count body'
        = EntriesResponse.count body + Z.of_nat (List.length items))
  /\ (forall m, m <> n ->
        entriesHandler json_text (String_of_number m) db'
        = entriesHandler json_text (String_of_number m) db)
  /\ pokedexes db' = pokedexes db.
Proof.
  unfold insertEntriesTransaction, transaction, bind at 1, lift in Hrun.
  cbn [iterate] in Hrun.
  destruct (for_of items _ db) as [db1 [[]|e]] eqn:Hloop; [|discriminate].
  injection Hrun as <-.
  destruct (for_of_entries_rows pokedexData n items db db1 Hid Hloop)
    as (rows & -> & Hlen & Hrows).
  split; [|split; [|reflexivity]].
  - eexists. eexists. split; [reflexivity|]. split; [reflexivity|].
    cbn [EntriesResponse.count parseInt]. unfold entries_of.
    rewrite parseInt_String_of_number.
    rewrite !(Permutation_length (merge_sort_Permutation _ _)).
    cbn [pokedex_entries with_pokedex_entries bind_number].
    rewrite List.filter_app, List.length_app.
    rewrite (filter_keeps_all _ rows).
    + rewrite Hlen. lia.
    + intros r Hr. rewrite List.Forall_forall in Hrows.
      rewrite (Hrows r Hr). simpl. apply Z.eqb_refl.
  - intros m Hm. unfold entriesHandler, entries_of. cbn [parseInt].
    rewrite parseInt_String_of_number.
    cbn [pokedex_entries with_pokedex_entries bind_number].
    rewrite List.filter_app, (filter_nil _ rows), app_nil_r; [reflexivity|].
    intros r Hr. rewrite List.Forall_forall in Hrows.
    rewrite (Hrows r Hr). simpl. apply Z.eqb_neq. congruence.
Qed.


Lemma column_0_key r v :
  sql_eq (key r) v = true -> column json_text 0 r = key r.
Proof.
  destruct r as [|[k|t] r]; simpl; try discriminate. reflexivity.
Qed.



End PokedexEndpoints.

Lemma entries_endpoint_after_ingestion_witness :
  exists body',
    entriesHandler (fun _ => "") "2"
      (fst (insertEntriesTransaction kanto
              (Some (JArr
                 [entry 1 "bulbasaur"
                    "https://pokeapi.co/api/v2/pokemon-species/1/";
                  entry 2 "ivysaur"
                    "https://pokeapi.co/api/v2/pokemon-species/2/"]))
              (fst (insertPokedex_of kanto empty_db))))
    = Ok body'
    /\ EntriesResponse.count body' = 2.
Proof.
  destruct (entries_endpoint_after_ingestion (fun _ => "") kanto
              [entry 1 "bulbasaur"
                 "https://pokeapi.co/api/v2/pokemon-species/1/";
               entry 2 "ivysaur"
                 "https://pokeapi.co/api/v2/pokemon-species/2/"] 2
              (fst (insertPokedex_of kanto empty_db)) _ eq_refl eq_refl)
    as ((body & body' & Hbody & Hbody' & Hcount) & _).
  exists body'. split; [exact Hbody'|].
  rewrite Hcount. injection Hbody as <-. reflexivity.
Defined.


(** ** Running a reference step again *)

Section ReferenceSteps.

Lemma last_wins_keeps_unmatched {A} (same : A -> A -> bool) rs r :
  In r rs -> (forall y, same r y = false) -> In r (last_wins same rs).
Proof.
  intros Hin Hnone. induction rs as [|x rs IH]; [destruct Hin|].
  simpl. apply List.in_app_iff. destruct Hin as [->|Hin]; [left|right; auto].
  replace (keyed_in same rs r) with false; [left; reflexivity|].
  symmetry. apply not_true_is_false. intros Hk.
  apply List.existsb_exists in Hk. destruct Hk as (y & _ & Hy).
  rewrite Hnone in Hy. discriminate.
Qed.

(** A row without a key is never replaced. *)
Lemma null_key_stays rs tbl r :
  In r rs -> key r = SqlNull -> In r (upsert_all same_row rs tbl).
Proof.
  intros Hin Hnull. rewrite upsert_all_spec. apply List.in_app_iff. right.
  apply last_wins_keeps_unmatched; [exact Hin|].
  intros y. unfold same_row. rewrite Hnull. reflexivity.
Qed.

Variables (sch : Schema) (get : Db -> list Row) (put : list Row -> Db -> Db).
Hypothesis text_key : integer_key sch = false.
Hypothesis get_put : forall v db, get (put v db) = v.
Hypothesis put_put : forall v w db, put v (put w db) = put v db.
Hypothesis put_get : forall db, put (get db) db = db.

(** Whether a row can be stored in a table keyed by a text without a foreign
    key, and the row stored, do not depend on the store. *)
Lemma run_insert_plain args :
  (exists r, forall db,
     run_insert sch get put no_fk args db
     = (put (upsert same_row r (get db)) db, Returned tt))
  \/ (exists e, forall db,
        run_insert sch get put no_fk args db = (db, Thrown e)).
Proof.
  unfold run_insert, assign_key. rewrite text_key.
  destruct (sequence args) as [vals|e]; [|right; eauto]. cbn [obind].
  destruct (store_cells (columns sch) vals) as [r|e]; [|right; eauto].
  left. exists r. reflexivity.
Qed.

Lemma for_of_plain {X} (args : X -> list (outcome cell)) items :
  (exists rs, forall db,
     for_of items (fun x => run_insert sch get put no_fk (args x)) db
     = (put (upsert_all same_row rs (get db)) db, Returned tt))
  \/ (exists e, forall db,
        snd (for_of items (fun x => run_insert sch get put no_fk (args x)) db)
        = Thrown e).
Proof.
  induction items as [|x items IH].
  - left. exists []. intros db. simpl. unfold ret. rewrite put_get.
    reflexivity.
  - destruct (run_insert_plain (args x)) as [[r Hr]|[e He]].
    + destruct IH as [[rs Hrs]|[e He]].
      * left. exists (r :: rs). intros db. simpl. unfold bind.
        rewrite Hr, Hrs, get_put, put_put. reflexivity.
      * right. exists e. intros db. simpl. unfold bind. rewrite Hr.
        apply He.
    + right. exists e. intros db. simpl. unfold bind. rewrite He.
      reflexivity.
Qed.

(** A step that fetches a payload and stores its items in one transaction:
    what it leaves is a batch of upserts, the same on every store (the empty
    batch when it fails). *)
Lemma plain_step_spec (source : response) (args : json -> list (outcome cell)) :
  exists rs, forall db,
    try_catch
      (payload <- lift (await_json source) ;;
       transaction
         (items <- lift (iterate (Some payload)) ;;
          for_of items (fun x => run_insert sch get put no_fk (args x))))
      (ret tt) db
    = (put (upsert_all same_row rs (get db)) db, Returned tt).
Proof.
  assert (Hnone : exists rs : list Row, forall db,
            (db, Returned tt)
            = (put (upsert_all same_row rs (get db)) db, Returned tt)).
  { exists []. intros db. simpl. rewrite put_get. reflexivity. }
  unfold try_catch, bind at 1, lift, ret.
  destruct (await_json source) as [payload|e]; [|exact Hnone].
  unfold transaction, bind, lift.
  destruct (iterate (Some payload)) as [items|e]; [|exact Hnone].
  destruct (for_of_plain args items) as [[rs Hrs]|[e He]].
  - exists rs. intros db. rewrite Hrs. reflexivity.
  - destruct Hnone as [rs Hrs]. exists rs. intros db. specialize (He db).
    destruct (for_of items _ db) as [db' [[]|e']]; simpl in He;
      [discriminate|]. apply Hrs.
Qed.

Lemma plain_step_idempotent (step : M unit) :
  (exists rs, forall db,
     step db = (put (upsert_all same_row rs (get db)) db, Returned tt)) ->
  forall db,
    (forall r, In r (get (fst (step db))) -> key r <> SqlNull) ->
    step (fst (step db)) = (fst (step db), Returned tt).
Proof.
  intros [rs Hstep] db Hkeys. rewrite !Hstep in *. cbn [fst] in *.
  rewrite get_put in *. rewrite put_put.
  rewrite (upsert_all_idempotent row_key same_row same_row_spec);
    [reflexivity|].
  intros r Hr Hnone. apply (Hkeys r).
  - apply null_key_stays; [exact Hr|].
    unfold row_key in Hnone. destruct (key r); congruence.
  - unfold row_key in Hnone. destruct (key r); congruence.
Qed.

End ReferenceSteps.

(** X21.  Running the types, moves or abilities step again on an unchanged
    source changes nothing, provided no row it left has a NULL id: every item
    of the payload replaces the row it wrote the first time.  (An item
    without an id is stored under NULL, which conflicts with nothing, and
    would be stored once more by every run.) *)
Theorem reference_steps_are_idempotent (env : Env) (db : Db) :
  ((forall r, In r (pokemon_types (fst (migratePokemonTypes env db))) ->
              key r <> SqlNull) ->
   migratePokemonTypes env (fst (migratePokemonTypes env db))
   = (fst (migratePokemonTypes env db), Returned tt))
  /\ ((forall r, In r (pokemon_moves (fst (migratePokemonMoves env db))) ->
                 key r <> SqlNull) ->
      migratePokemonMoves env (fst (migratePokemonMoves env db))
      = (fst (migratePokemonMoves env db), Returned tt))
  /\ ((forall r,
         In r (pokemon_abilities (fst (migratePokemonAbilities env db))) ->
         key r <> SqlNull) ->
      migratePokemonAbilities env (fst (migratePokemonAbilities env db))
      = (fst (migratePokemonAbilities env db), Returned tt)).
Proof.
  split; [|split].
  - apply (plain_step_idempotent pokemon_types with_pokemon_types);
      try reflexivity; try (intros; destruct db0; reflexivity).
    apply (plain_step_spec pokemon_types_schema pokemon_types
             with_pokemon_types eq_refl); try reflexivity.
    intros db0. destruct db0. reflexivity.
  - apply (plain_step_idempotent pokemon_moves with_pokemon_moves);
      try reflexivity; try (intros; destruct db0; reflexivity).
    apply (plain_step_spec pokemon_moves_schema pokemon_moves
             with_pokemon_moves eq_refl); try reflexivity.
    intros db0. destruct db0. reflexivity.
  - apply (plain_step_idempotent pokemon_abilities with_pokemon_abilities);
      try reflexivity; try (intros; destruct db0; reflexivity).
    apply (plain_step_spec pokemon_abilities_schema pokemon_abilities
             with_pokemon_abilities eq_refl); try reflexivity.
    intros db0. destruct db0. reflexivity.
Qed.

(** ** A card of a set that is not stored *)

Section UnknownSet.

Lemma for_of_cards_unknown_set batch card s db :
  In card batch -> deriveSetId card = Some s ->
  (forall row, In row (sets db) -> SetRow.id row <> Some s) ->
  forall db0, sets db0 = sets db ->
    exists e, snd (for_of batch insertCards_body db0) = Thrown e.
Proof.
  intros Hin Hset Hunknown.
  induction batch as [|x batch IH]; [destruct Hin|]. intros db0 Hsets.
  simpl. unfold bind.
  destruct (insertCards_body_spec x) as [(row & Hrow & Hrun)|[e He]];
    [|rewrite He; simpl; eauto].
  rewrite Hrun. destruct (card_fk db0 row) eqn:Hfk; [|simpl; eauto].
  destruct Hin as [->|Hin].
  - exfalso. destruct Hrow as (_ & _ & _ & Hid). unfold card_fk in Hfk.
    rewrite Hid, Hset, Hsets in Hfk.
    apply List.existsb_exists in Hfk. destruct Hfk as (r & Hr & Heq).
    apply text_eq_iff in Heq. destruct Heq as (i & Hi & [= <-]).
    apply (Hunknown r Hr Hi).
  - apply IH; [exact Hin|]. simpl. exact Hsets.
Qed.

(** X22.  A card whose set is not stored fails the whole card batch.  When the
    set id of a card of the batch (its own or the one derived from its
    identifier) is the id of no stored set, the batch throws and no card of
    it is stored; the migration then fails after the sets, with no card
    written. *)
Theorem card_of_unknown_set_fails_the_batch (batch : list PokemonCard.t)
  (card : PokemonCard.t) (s : string) (db : Db)
  (Hin : In card batch)
  (Hset : deriveSetId card = Some s)
  (Hunknown : forall row, In row (sets db) -> SetRow.id row <> Some s) :
  exists e,
    insertCards batch db = (db, Thrown e)
    /\ forall env db0,
         flatMap_files (cardFiles env) = Returned batch ->
         migrateSets env db0 = (db, Returned tt) ->
         migrate env db0 = (db, Thrown e).
Proof.
  destruct (for_of_cards_unknown_set batch card s db Hin Hset Hunknown db
              eq_refl) as [e He].
  assert (Hbatch : insertCards batch db = (db, Thrown e)).
  { unfold insertCards, transaction.
    destruct (for_of batch insertCards_body db) as [db' [[]|e']];
      simpl in He; [discriminate|]. congruence. }
  exists e. split; [exact Hbatch|]. intros env db0 Hfiles Hsets.
  rewrite migrate_steps. unfold bind at 1. rewrite Hsets.
  unfold bind at 1. unfold migrateCards, bind, lift. rewrite Hfiles, Hbatch.
  reflexivity.
Qed.

Lemma card_of_unknown_set_fails_the_batch_witness :
  exists e,
    insertCards [alakazam; card_A] empty_db = (empty_db, Thrown e).
Proof.
  destruct (card_of_unknown_set_fails_the_batch [alakazam; card_A] card_A
              "base1" empty_db) as (e & He & _).
  - right. left. reflexivity.
  - reflexivity.
  - intros row [].
  - exists e. exact He.
Defined.

End UnknownSet.

(** ** The catch around one pokedex *)

Section PerPokedex.

Lemma for_of_returns {X} (xs : list X) (body : X -> M unit) :
  (forall x, In x xs -> forall db, snd (body x db) = Returned tt) ->
  forall db, snd (for_of xs body db) = Returned tt.
Proof.
  induction xs as [|x xs IH]; intros Hbody db; [reflexivity|].
  simpl. unfold bind. pose proof (Hbody x (or_introl eq_refl) db) as Hx.
  destruct (body x db) as [db' [[]|e]]; simpl in Hx; [|discriminate].
  apply IH. intros y Hy. apply Hbody. right. exact Hy.
Qed.

Lemma tryPokedex_returns env ref db :
  ref <> JNull -> snd (tryPokedex env ref db) = Returned tt.
Proof.
  intros Href. unfold tryPokedex, try_catch.
  destruct (migratePokedex env ref db) as [db' [[]|e]]; [reflexivity|].
  unfold bind, lift, ret.
  destruct ref; try congruence; simpl;
    try destruct (String.eqb _ _); reflexivity.
Qed.

(** X23.  The catch around one pokedex lets one failure through.  For a
    reference that is not null, whatever goes wrong with its pokedex is
    caught and the loop goes on.  For a null reference the handler itself
    throws (it reads the name of the reference), which ends the loop: the
    pokedexes before it are kept, those after it are never fetched, and the
    pokedex step still returns. *)
Theorem per_pokedex_catch_misses_null_reference (env : Env) (db : Db) :
  (forall ref, ref <> JNull -> snd (tryPokedex env ref db) = Returned tt)
  /\ tryPokedex env JNull db = (db, Thrown TypeError)
  /\ (forall pre post,
        (forall ref, In ref pre -> ref <> JNull) ->
        for_of (pre ++ JNull :: post) (tryPokedex env) db
        = (fst (for_of pre (tryPokedex env) db), Thrown TypeError))
  /\ (forall pre post,
        (forall ref, In ref pre -> ref <> JNull) ->
        fetch_pokedex_list env
        = Body (JObj [("results", JArr (pre ++ JNull :: post))]) ->
        migratePokedexes env db
        = (fst (for_of pre (tryPokedex env) db), Returned tt)).
Proof.
  assert (Hloop : forall pre post,
            (forall ref, In ref pre -> ref <> JNull) ->
            for_of (pre ++ JNull :: post) (tryPokedex env) db
            = (fst (for_of pre (tryPokedex env) db), Thrown TypeError)).
  { intros pre post Hpre. rewrite for_of_app.
    pose proof (for_of_returns pre (tryPokedex env)
                  (fun ref Href db0 => tryPokedex_returns env ref db0
                                         (Hpre ref Href)) db) as Hret.
    destruct (for_of pre (tryPokedex env) db) as [db1 [[]|e]];
      simpl in Hret; [|discriminate]. reflexivity. }
  split; [intros ref; apply tryPokedex_returns|].
  split; [reflexivity|]. split; [exact Hloop|].
  intros pre post Hpre Hlist. unfold migratePokedexes, try_catch.
  unfold bind at 1, lift. rewrite Hlist. cbn [await_json].
  unfold bind at 1. cbn [prop lookup_field String.eqb Ascii.eqb Bool.eqb
    obind iterate].
  rewrite (Hloop pre post Hpre). reflexivity.
Qed.

End PerPokedex.

(** ** The name of a deck file *)

Section DeckFileName.

Lemma substring_all (s : string) : substring 0 (String.length s) s = s.
Proof. induction s as [|c s IH]; simpl; [reflexivity|]. rewrite IH. reflexivity. Qed.

Lemma substring_tail (a b : string) :
  substring (String.length a) (String.length b) (a ++ b) = b.
Proof.
  induction a as [|c a IH]; simpl; [apply substring_all|exact IH].
Qed.

Lemma substring_head (a b : string) :
  substring 0 (String.length a) (a ++ b) = a.
Proof.
  induction a as [|c a IH]; simpl; [destruct b; reflexivity|].
  rewrite IH. reflexivity.
Qed.

Lemma last_split_at sep (a b : string) :
  free_of sep b = true ->
  List.last (split sep (a ++ String sep b)) "" = b.
Proof.
  intros Hb. rewrite split_at, (split_free sep b Hb).
  apply List.last_last.
Qed.

(** X24.  A deck file names the set of its decks.  For a file
    [<dir>/<name>.json] the set id the deck step uses is [<name>], and every
    deck normalized from the file carries it. *)
Theorem deck_file_names_its_set (dir name : string) (content : json)
  (Hname : free_of "/" name = true) (Hne : name <> "") :
  basename (dir ++ "/" ++ name ++ ".json") ".json" = name
  /\ forall ds,
       normalizedDecks (basename (dir ++ "/" ++ name ++ ".json") ".json")
                       content = Returned ds ->
       Forall (fun d => Deck.setId d = name) ds.
Proof.
  assert (Hbase : basename (dir ++ "/" ++ name ++ ".json") ".json" = name).
  { unfold basename.
    change (dir ++ "/" ++ name ++ ".json")
      with (dir ++ String "/" (name ++ ".json")).
    rewrite last_split_at.
    2:{ clear Hne. induction name as [|c name IH]; [reflexivity|].
        simpl in *. apply andb_true_iff in Hname.
        destruct Hname as [Hc Hname]. rewrite Hc. simpl. auto. }
    rewrite string_length_app.
    change (String.length ".json") with 5%nat.
    replace (String.length name + 5 - 5)%nat with (String.length name)
      by lia.
    replace (5 <? String.length name + 5)%nat with true.
    2:{ symmetry. apply Nat.ltb_lt. destruct name; [congruence|simpl; lia]. }
    change 5%nat with (String.length ".json") at 1.
    rewrite substring_tail, substring_head. reflexivity. }
  split; [exact Hbase|]. rewrite Hbase. intros ds Hds.
  destruct content as [| | | |items|];
    try (injection Hds as <-; repeat constructor).
  destruct (normalize_decks_spec name items 0 ds Hds) as [Hlen Hnth].
  apply List.Forall_forall. intros d Hd.
  apply list_elem_of_In, list_elem_of_lookup in Hd. destruct Hd as [i Hd].
  destruct (items !! i) as [deck|] eqn:Hdeck.
  2:{ apply lookup_ge_None in Hdeck. apply lookup_lt_Some in Hd. lia. }
  destruct (Hnth i deck d Hdeck Hd) as (_ & _ & _ & _ & _ & _ & Hset & _).
  exact Hset.
Qed.

Lemma deck_file_names_its_set_witness :
  basename "decks/en/base1.json" ".json" = "base1".
Proof.
  destruct (deck_file_names_its_set "decks/en" "base1" JNull eq_refl)
    as [Hbase _]; [discriminate|exact Hbase].
Defined.

End DeckFileName.
